(** * Tiling of the plane, its dual graph and the edge flip

    A shallow embedding of [AtomPos/tiling.py] (class [Tiling]) and the
    properties of its constructor, [sort_clockwise], [get_edges_of_tile],
    [get_dual] and [flip].

    Conventions of the embedding

    - Python sequences are lists; an index is a [Z], a negative index counts
      from the end and an index outside [-len, len) raises [IndexError].
      Indexing the integer array [edges] with an integer that does not fit
      64 bits raises [OverflowError].  The entries of that array are kept
      as the integers given; statements about the constructor that depend
      on them ask that they fit 64 bits.
    - numpy floats are exact rationals extended with [NaN] (the value of the
      mean of an empty selection).  Rounding, signed zeros and overflow are
      not modelled: what is proved of coordinates and angles is proved of
      the exact values.
    - [np.arctan2] only feeds [np.argsort]; it is replaced by a rational
      pseudo-angle with the same order.
    - [np.argsort] is the insertion sort that numpy runs on short arrays;
      the order it gives to equal keys in longer arrays is not modelled.
    - A stored tile without vertices is the empty array of floats that
      [sort_clockwise] returns for an empty list; numpy refuses it as an
      index.
    - A method runs in a state-and-exception monad over the receiver: the
      state reached when an exception is raised is kept. *)

From Stdlib Require Import QArith Qabs Sorted.
From stdpp Require Import base list strings.

Open Scope Z_scope.

(** ** Exceptions and results *)

Inductive exn : Type :=
| IndexError
| UnboundLocalError
| ValueError
| TypeError
| AssertionError
| OverflowError.

Inductive res (A : Type) : Type :=
| Ok (a : A)
| Raise (e : exn).
Arguments Ok {A} a.
Arguments Raise {A} e.

Definition res_bind {A B} (m : res A) (k : A -> res B) : res B :=
  match m with
  | Ok a => k a
  | Raise e => Raise e
  end.

Declare Scope res_scope.
Delimit Scope res_scope with res.
Notation "x <- m ;; k" := (res_bind m (fun x => k))
  (at level 100, m at next level, k at level 200, right associativity,
   only parsing) : res_scope.

Fixpoint res_map {A B} (f : A -> res B) (l : list A) : res (list B) :=
  match l with
  | [] => Ok []
  | x :: l' =>
      (y <- f x ;; ys <- res_map f l' ;; Ok (y :: ys))%res
  end.

(** ** Python indexing *)

(** Position named by index [i] in a sequence of length [len]. *)
Definition py_norm (len : nat) (i : Z) : option nat :=
  if (0 <=? i) && (i <? Z.of_nat len) then Some (Z.to_nat i)
  else if (- Z.of_nat len <=? i) && (i <? 0) then Some (Z.to_nat (Z.of_nat len + i))
  else None.

(** [l[i]] *)
Definition py_get {A} (l : list A) (i : Z) : res A :=
  match py_norm (length l) i with
  | Some k => match l !! k with Some x => Ok x | None => Raise IndexError end
  | None => Raise IndexError
  end.

(** [l[i] = x] *)
Definition py_set {A} (l : list A) (i : Z) (x : A) : res (list A) :=
  match py_norm (length l) i with
  | Some k => Ok (<[k:=x]> l)
  | None => Raise IndexError
  end.

(** The integers of a numpy array of element type [int] (64 bits). *)
Definition int64 (z : Z) : bool := (- 2 ^ 63 <=? z) && (z <? 2 ^ 63).

(** [a[i]] for a numpy array [a] and a Python integer [i]: the row at [i]
    when [i] names one; otherwise [IndexError] when [i] fits the machine
    word and [OverflowError] when it does not. *)
Definition np_get {A} (a : list A) (i : Z) : res A :=
  match py_get a i with
  | Ok x => Ok x
  | Raise e => if int64 i then Raise e else Raise OverflowError
  end.

(** [a[i] = x] for a numpy array [a] *)
Definition np_set {A} (a : list A) (i : Z) (x : A) : res (list A) :=
  match py_set a i x with
  | Ok a' => Ok a'
  | Raise e => if int64 i then Raise e else Raise OverflowError
  end.

(** [x in l] for integer sequences *)
Definition py_in (x : Z) (l : list Z) : bool := existsb (Z.eqb x) l.

(** ** Floats *)

Inductive flt : Type :=
| F (q : Q)
| NaN.

Definition flt_sub (a b : flt) : flt :=
  match a, b with
  | F x, F y => F (x - y)%Q
  | _, _ => NaN
  end.

Definition flt_add (a b : flt) : flt :=
  match a, b with
  | F x, F y => F (x + y)%Q
  | _, _ => NaN
  end.

(** [s / n] for a count [n]; [0.0 / 0] is [nan], the only division by zero
    the program performs (the sum of an empty selection is [0.0]). *)
Definition flt_div_count (s : flt) (n : nat) : flt :=
  match s, n with
  | _, O => NaN
  | F x, _ => F (x / inject_Z (Z.of_nat n))%Q
  | NaN, _ => NaN
  end.

Definition flt_sum (l : list flt) : flt := foldl flt_add (F 0%Q) l.

Definition point : Type := flt * flt.

(** [np.mean(p, axis=0)] of an array [p] of shape (n,2) *)
Definition mean (p : list point) : point :=
  (flt_div_count (flt_sum (map fst p)) (length p),
   flt_div_count (flt_sum (map snd p)) (length p)).

Definition point_sub (a c : point) : point :=
  (flt_sub (fst a) (fst c), flt_sub (snd a) (snd c)).

(** Pseudo-angle of [arctan2(a, b)]: a strictly increasing function of the
    angle, with values in (-2, 2]; [arctan2(0, 0) = 0]. *)
Definition pseudo_angle (a b : Q) : Q :=
  let s := (Qabs a + Qabs b)%Q in
  if Qeq_bool s 0 then 0%Q
  else if Qle_bool 0 b then (a / s)%Q
  else if Qle_bool 0 a then (2 - a / s)%Q
  else (- (2) - a / s)%Q.

Definition arctan2 (a b : flt) : flt :=
  match a, b with
  | F x, F y => F (pseudo_angle x y)
  | _, _ => NaN
  end.

(** Order used by the sort: [nan] is placed last. *)
Definition flt_le (a b : flt) : bool :=
  match a, b with
  | F x, F y => Qle_bool x y
  | _, NaN => true
  | NaN, F _ => false
  end.

(** ** argsort *)

Section Sorting.
Context {A : Type} (le : A -> A -> bool).

Fixpoint insert_sorted (x : A) (l : list A) : list A :=
  match l with
  | [] => [x]
  | y :: l' => if le x y then x :: y :: l' else y :: insert_sorted x l'
  end.

Definition insertion_sort (l : list A) : list A :=
  foldr insert_sorted [] l.

End Sorting.

(** [np.argsort(keys)]: the positions of [keys] in ascending order of key.
    This is the insertion sort that numpy's default sort runs on an array of
    at most 16 keys, where positions carrying equal keys stay in input
    order.  A longer array is partitioned first and equal keys may then
    change places; for such an array only the facts that hold of every
    sort (a permutation, in ascending order of key) describe the code. *)
Definition argsort (keys : list flt) : list nat :=
  map snd
    (insertion_sort (fun a b => flt_le (fst a) (fst b))
       (zip keys (seq 0 (length keys)))).

(** [a[idx]] for an index array produced by [argsort] *)
Definition take_positions {A} (a : list A) (idx : list nat) : list A :=
  omap (fun k => a !! k) idx.

(** ** sort_clockwise *)

(** For an empty [vertices] the array returned has no element and the
    element type float; it is the empty list here, and [tile_points] below
    accounts for the element type where a stored tile is used as an index. *)
Definition sort_clockwise (points : list point) (vertices : list Z)
  : res (list Z) :=
  (p <- res_map (py_get points) vertices ;;
   let c := mean p in
   let delta := map (fun q => point_sub q c) p in
   Ok (take_positions vertices
         (argsort (map (fun d => arctan2 (fst d) (snd d)) delta))))%res.

(** ** get_edges_of_tile *)

(** Consecutive pairs of the closed cycle [sorted_vertices]. *)
Definition get_edges_of_tile (sorted_vertices : list Z) : res (list (Z * Z)) :=
  (let edges := zip (removelast sorted_vertices) (tail sorted_vertices) in
   last <- py_get sorted_vertices (-1) ;;
   first <- py_get sorted_vertices 0 ;;
   Ok (edges ++ [(last, first)]))%res.

(** ** The Tiling object *)

Record Tiling : Type := mkTiling {
  points : list point;
  vertices : list (list Z);
  neighbors : list (list Z);
  edges : list (Z * Z);
  ntiles : nat;
  nedges : nat;
  npoints : nat
}.

Definition set_vertices (T : Tiling) (v : list (list Z)) : Tiling :=
  mkTiling (points T) v (neighbors T) (edges T) (ntiles T) (nedges T) (npoints T).

Definition set_neighbors (T : Tiling) (n : list (list Z)) : Tiling :=
  mkTiling (points T) (vertices T) n (edges T) (ntiles T) (nedges T) (npoints T).

Definition set_edges (T : Tiling) (e : list (Z * Z)) : Tiling :=
  mkTiling (points T) (vertices T) (neighbors T) e (ntiles T) (nedges T) (npoints T).

(** Loops whose body may raise. *)
Fixpoint res_foldl {S A} (f : S -> A -> res S) (s : S) (l : list A) : res S :=
  match l with
  | [] => Ok s
  | x :: l' => (s' <- f s x ;; res_foldl f s' l')%res
  end.

(** [range(n)] *)
Definition range (n : nat) : list Z := map Z.of_nat (seq 0 n).

(** ** Construction *)

(** The optional arguments of the constructor.  [Given] is the call with
    [vertices], [neighbors] and [edges]; [Triangulated] is the call without
    [vertices], carrying the [vertices] and [neighbors] tables returned by
    [scipy.spatial.Delaunay(points)]. *)
Inductive tiles_arg : Type :=
| Given (vertices neighbors : list (list Z)) (edges : list (Z * Z))
| Triangulated (tri_vertices tri_neighbors : list (list Z)).

(** The edges collected from one tile in the triangulation path. *)
Definition edges_of_tile (pts : list point) (acc : list (Z * Z)) (v : list Z)
  : res (list (Z * Z)) :=
  (sv <- sort_clockwise pts v ;;
   es <- get_edges_of_tile sv ;;
   Ok (foldl (fun acc e => if snd e >? fst e then acc ++ [e] else acc) acc es))%res.

(** [Tiling(points, ...)].  The assertion on the shape of [points] fails
    for an empty list, the only list of pairs that is not an array of shape
    (n, 2).  The conversion of [edges] to an integer array keeps the rows
    it is given; that it raises [OverflowError] for an entry outside 64
    bits is not modelled. *)
Definition Tiling_init (pts : list point) (arg : tiles_arg) : res Tiling :=
  match pts with
  | [] => Raise AssertionError
  | _ =>
      (parts <-
         match arg with
         | Given vertices neighbors edges =>
             vs <- res_map (sort_clockwise pts) vertices ;;
             Ok (vs, neighbors, edges)
         | Triangulated tri_vertices tri_neighbors =>
             es <- res_foldl (edges_of_tile pts) [] tri_vertices ;;
             Ok (tri_vertices, tri_neighbors, es)
         end ;;
       let '(vs, ns, es) := parts in
       Ok (mkTiling pts vs ns es (length vs) (length es) (length pts)))%res
  end.

(** ** get_dual *)

Record dual_acc : Type := mkDual {
  dpoints : list point;
  dedges : list (Z * Z);
  dvertices : list (list Z)
}.

(** [l[i].append(x)] *)
Definition py_append_at (l : list (list Z)) (i : Z) (x : Z) : res (list (list Z)) :=
  (li <- py_get l i ;; py_set l i (li ++ [x]))%res.

(** [self.points[v]] for a stored tile [v].  A tile without vertices is an
    array of floats, which is no index: numpy raises [IndexError]. *)
Definition tile_points (pts : list point) (v : list Z) : res (list point) :=
  match v with
  | [] => Raise IndexError
  | _ => res_map (py_get pts) v
  end.

(** Body of the loop over the tiles. *)
Definition dual_step (T : Tiling) (acc : dual_acc) (t : Z) : res dual_acc :=
  (vt <- py_get (vertices T) t ;;
   p <- tile_points (points T) vt ;;
   let dpoints' := dpoints acc ++ [mean p] in
   nt <- py_get (neighbors T) t ;;
   let dedges' :=
     foldl (fun de n => if (0 <=? n) && (n <? t) then de ++ [(t, n)] else de)
       (dedges acc) nt in
   dvertices' <- res_foldl (fun dv v => py_append_at dv v t) (dvertices acc) vt ;;
   Ok (mkDual dpoints' dedges' dvertices'))%res.

(** Body of the loop over the edges. *)
Definition dual_neighbors_step (dn : list (list Z)) (e : Z * Z)
  : res (list (list Z)) :=
  (let '(i, j) := e in
   dn' <- py_append_at dn i j ;;
   py_append_at dn' j i)%res.

Definition get_dual (T : Tiling) : res Tiling :=
  (let dneighbors0 := replicate (npoints T) [] in
   let dvertices0 := replicate (npoints T) [] in
   acc <- res_foldl (dual_step T) (mkDual [] [] dvertices0) (range (ntiles T)) ;;
   dneighbors <- res_foldl dual_neighbors_step dneighbors0 (edges T) ;;
   Tiling_init (dpoints acc) (Given (dvertices acc) dneighbors (dedges acc)))%res.

(** ** Methods that mutate the receiver *)

Record world : Type := mkWorld {
  self : Tiling;
  stdout : list string
}.

(** A computation returns a value or raises, and leaves a state either way. *)
Definition M (A : Type) : Type := world -> res A * world.

Definition m_ret {A} (a : A) : M A := fun w => (Ok a, w).

Definition m_bind {A B} (m : M A) (k : A -> M B) : M B :=
  fun w =>
    match m w with
    | (Ok a, w') => k a w'
    | (Raise e, w') => (Raise e, w')
    end.

Declare Scope m_scope.
Delimit Scope m_scope with M.
Notation "x <- m ;; k" := (m_bind m (fun x => k))
  (at level 100, m at next level, k at level 200, right associativity,
   only parsing) : m_scope.
Notation "m ;;; k" := (m_bind m (fun _ => k))
  (at level 100, k at level 200, right associativity, only parsing) : m_scope.

(** Evaluate an expression over the receiver. *)
Definition expr {A} (f : Tiling -> res A) : M A :=
  fun w => (f (self w), w).

(** Evaluate [f] over the receiver and store the result as the new receiver. *)
Definition update (f : Tiling -> res Tiling) : M unit :=
  fun w =>
    match f (self w) with
    | Ok T' => (Ok tt, mkWorld T' (stdout w))
    | Raise e => (Raise e, w)
    end.

Definition print (s : string) : M unit :=
  fun w => (Ok tt, mkWorld (self w) (stdout w ++ [s])).

(** Read a local variable that an earlier loop may have left unassigned. *)
Definition local (x : option Z) : res Z :=
  match x with
  | Some v => Ok v
  | None => Raise UnboundLocalError
  end.

(** ** flip *)

(** [index.sum()] for a boolean array *)
Definition np_sum (index : list bool) : nat :=
  length (filter (fun b : bool => b) index).

(** [v[index]] for a boolean array [index] *)
Definition np_mask {A} (v : list A) (index : list bool) : list A :=
  map fst (filter (fun xb : A * bool => snd xb) (zip v index)).

(** Body of the search for the triangles holding the edge [(p1, p2)];
    the state is the pair of lists [tiles], [new_edge]. *)
Definition find_step (T : Tiling) (p1 p2 : Z) (acc : list Z * list Z) (t : Z)
  : res (list Z * list Z) :=
  (v <- py_get (vertices T) t ;;
   if negb (length v =? 3)%nat then Ok acc
   else
     let index := map (fun x => (x =? p1) || (x =? p2)) v in
     if (np_sum index =? 2)%nat then
       e <- py_get (np_mask v (map negb index)) 0 ;;
       Ok (fst acc ++ [t], snd acc ++ [e])
     else Ok acc)%res.

(** Body of the search for the outer neighbours of a tile: the state is the
    pair of locals assigned under [p2 not in ...] and [p1 not in ...]. *)
Definition outer_step (T : Tiling) (p1 p2 : Z) (acc : option Z * option Z) (n : Z)
  : res (option Z * option Z) :=
  (vn <- py_get (vertices T) n ;;
   let x := if negb (py_in p2 vn) then Some n else fst acc in
   let y := if negb (py_in p1 vn) then Some n else snd acc in
   Ok (x, y))%res.

Definition outer_neighbors (T : Tiling) (p1 p2 t : Z) : res (option Z * option Z) :=
  (nt <- py_get (neighbors T) t ;;
   res_foldl (outer_step T p1 p2) (None, None) nt)%res.

Definition assign_neighbors (i : Z) (l : list Z) (T : Tiling) : res Tiling :=
  (ns <- py_set (neighbors T) i l ;; Ok (set_neighbors T ns))%res.

(** [self.neighbors[i] = [b if n==a else n for n in self.neighbors[i]]] *)
Definition patch_neighbors (i a b : Z) (T : Tiling) : res Tiling :=
  (ni <- py_get (neighbors T) i ;;
   assign_neighbors i (map (fun n => if n =? a then b else n) ni) T)%res.

(** [self.vertices[i] = self.sort_clockwise(l)] *)
Definition assign_sorted_vertices (i : Z) (l : list Z) (T : Tiling) : res Tiling :=
  (sv <- sort_clockwise (points T) l ;;
   vs <- py_set (vertices T) i sv ;;
   Ok (set_vertices T vs))%res.

(** [self.edges[i] = [e1, e2]] *)
Definition assign_edge (i : Z) (e : Z * Z) (T : Tiling) : res Tiling :=
  (es <- np_set (edges T) i e ;; Ok (set_edges T es))%res.

Definition not_two_triangles : string := "FLIP: edge is not part of two triangles".

Definition flip (edge : Z) : M unit :=
  (p <- expr (fun T => np_get (edges T) edge) ;;
   let '(p1, p2) := p in
   found <- expr (fun T => res_foldl (find_step T p1 p2) ([], []) (range (ntiles T))) ;;
   let '(tiles, new_edge) := found in
   match tiles with
   | [t1; t2] =>
       match new_edge with
       | [e1; e2] =>
           ad <- expr (fun T => outer_neighbors T p1 p2 t1) ;;
           bc <- expr (fun T => outer_neighbors T p1 p2 t2) ;;
           let '(A, D) := ad in
           let '(B, C) := bc in
           update (fun T =>
             (a <- local A ;; b <- local B ;;
              assign_neighbors t1 [t2; a; b] T)%res) ;;;
           update (fun T =>
             (c <- local C ;; d <- local D ;;
              assign_neighbors t2 [t1; c; d] T)%res) ;;;
           update (fun T => (d <- local D ;; patch_neighbors d t1 t2 T)%res) ;;;
           update (fun T => (b <- local B ;; patch_neighbors b t2 t1 T)%res) ;;;
           update (assign_sorted_vertices t1 [e1; e2; p1]) ;;;
           update (assign_sorted_vertices t2 [e1; e2; p2]) ;;;
           update (assign_edge edge (e1, e2))
       | _ => expr (fun _ => Raise ValueError)
       end
   | _ => print not_two_triangles
   end)%M.

(** * Specification vocabulary *)

(** The test [flip] applies to a tile: three entries, two of which are
    endpoints of the edge. *)
Definition has_edge (p1 p2 : Z) (v : list Z) : bool :=
  (length v =? 3)%nat &&
  (length (filter (fun x => x = p1 \/ x = p2) v) =? 2)%nat.

Definition tile_has_edge (T : Tiling) (p1 p2 : Z) (t : nat) : bool :=
  match vertices T !! t with
  | Some v => has_edge p1 p2 v
  | None => false
  end.

(** Indices of the tiles that pass the test, in increasing order. *)
Definition triangles_with_edge (T : Tiling) (p1 p2 : Z) : list nat :=
  filter (fun t => tile_has_edge T p1 p2 t) (seq 0 (length (vertices T))).

(** The writes of a flip that found its two triangles and its four outer
    neighbours, as one chain of intermediate receivers. *)
Inductive flip_trace (T : Tiling) (edge : Z) (T' : Tiling) : Prop :=
| FlipTrace (p1 p2 : Z) (t1 t2 : nat) (e1 e2 A B C D : Z)
    (T1 T2 T3 T4 T5 T6 : Tiling) :
    py_get (edges T) edge = Ok (p1, p2) ->
    triangles_with_edge T p1 p2 = [t1; t2] ->
    outer_neighbors T p1 p2 (Z.of_nat t1) = Ok (Some A, Some D) ->
    outer_neighbors T p1 p2 (Z.of_nat t2) = Ok (Some B, Some C) ->
    assign_neighbors (Z.of_nat t1) [Z.of_nat t2; A; B] T = Ok T1 ->
    assign_neighbors (Z.of_nat t2) [Z.of_nat t1; C; D] T1 = Ok T2 ->
    patch_neighbors D (Z.of_nat t1) (Z.of_nat t2) T2 = Ok T3 ->
    patch_neighbors B (Z.of_nat t2) (Z.of_nat t1) T3 = Ok T4 ->
    assign_sorted_vertices (Z.of_nat t1) [e1; e2; p1] T4 = Ok T5 ->
    assign_sorted_vertices (Z.of_nat t2) [e1; e2; p2] T5 = Ok T6 ->
    assign_edge edge (e1, e2) T6 = Ok T' ->
    flip_trace T edge T'.

(** What the constructor establishes about the three counts. *)
Definition counted (T : Tiling) : Prop :=
  ntiles T = length (vertices T) /\
  nedges T = length (edges T) /\
  npoints T = length (points T).

Definition triangulated (T : Tiling) : Prop :=
  Forall (fun v => length v = 3%nat) (vertices T).


(** * Example tilings *)

Definition pt (x y : Q) : point := (F x, F y).

(** The unit square, cut along the diagonal from point 0 to point 2. *)
Definition square_points : list point :=
  [pt 0 0; pt 1 0; pt 1 1; pt 0 1]%Q.

Definition square_edges : list (Z * Z) :=
  [(0, 1); (1, 2); (0, 2); (2, 3); (0, 3)].

(** The two triangles as the constructor stores them, with whatever
    neighbour table [nbrs] the caller supplied. *)
Definition square (nbrs : list (list Z)) : Tiling :=
  mkTiling square_points [[0; 2; 1]; [0; 3; 2]] nbrs square_edges 2 5 4.

(** The square with one more triangle on each of its four sides. *)
Definition star_points : list point :=
  square_points ++ [pt (1 # 2) (-1); pt 2 (1 # 2); pt (1 # 2) 2; pt (-1) (1 # 2)]%Q.

Definition star_tiles : list (list Z) :=
  [[0; 1; 2]; [0; 2; 3]; [0; 1; 4]; [1; 2; 5]; [2; 3; 6]; [3; 0; 7]].

Definition star_edges : list (Z * Z) :=
  [(0, 1); (1, 2); (0, 2); (2, 3); (0, 3); (0, 4); (1, 4); (1, 5); (2, 5);
   (2, 6); (3, 6); (0, 7); (3, 7)].

Definition star_neighbors : list (list Z) :=
  [[1; 2; 3]; [0; 4; 5]; [0; -1; -1]; [0; -1; -1]; [1; -1; -1]; [1; -1; -1]].

Definition star : Tiling :=
  mkTiling star_points
    [[0; 2; 1]; [0; 3; 2]; [0; 1; 4]; [1; 2; 5]; [3; 6; 2]; [7; 3; 0]]
    star_neighbors star_edges 6 13 8.

Definition star_flipped : Tiling :=
  mkTiling star_points
    [[0; 3; 1]; [3; 2; 1]; [0; 1; 4]; [1; 2; 5]; [3; 6; 2]; [7; 3; 0]]
    [[1; 2; 5]; [0; 4; 3]; [0; -1; -1]; [1; -1; -1]; [1; -1; -1]; [0; -1; -1]]
    (<[2%nat:=(1, 3)]> star_edges) 6 13 8.

(** The same tiling with a neighbour table in which tile 1 records no
    neighbour across its edge to tile 5. *)
Definition open_star_neighbors : list (list Z) :=
  [[1; 2; 3]; [0; 4; -1]; [0; -1; -1]; [0; -1; -1]; [1; -1; -1]; [1; -1; -1]].

Definition open_star : Tiling := set_neighbors star open_star_neighbors.

(** One triangle, listed counter-clockwise as the triangulation returns it. *)
Definition corner_points : list point := [pt 0 0; pt 1 0; pt 0 1]%Q.

Definition open_star_flipped : Tiling :=
  mkTiling star_points
    [[0; 3; 1]; [3; 2; 1]; [0; 1; 4]; [1; 2; 5]; [3; 6; 2]; [7; 3; 0]]
    [[1; 2; -1]; [0; 4; 3]; [0; -1; -1]; [1; -1; -1]; [1; -1; -1]; [0; -1; -1]]
    (<[2%nat:=(1, 3)]> star_edges) 6 13 8.

(** ** Vocabulary for the dual *)

(** The dual edges that tile [t] contributes: one for each entry [n] of its
    neighbour list with [0 <= n < t], in the order of the list. *)
Definition dual_edges_of (T : Tiling) (t : nat) : list (Z * Z) :=
  match neighbors T !! t with
  | Some nt =>
      map (fun n => (Z.of_nat t, n))
        (filter (fun n => 0 <= n < Z.of_nat t) nt)
  | None => []
  end.


(** The dual of [star], as [get_dual] returns it. *)
Definition star_dual : Tiling :=
  mkTiling
    [pt (2 # 3) (1 # 3); pt (1 # 3) (2 # 3); pt (3 # 6) (-1 # 3);
     pt (4 # 3) (3 # 6); pt (3 # 6) (4 # 3); pt (-1 # 3) (3 # 6)]%Q
    [[5; 1; 0; 2]; [2; 0; 3]; [0; 1; 4; 3]; [5; 4; 1]; [2]; [3]; [4]; [5]]
    [[1; 2; 3; 4; 7]; [0; 2; 4; 5]; [1; 0; 3; 5; 6]; [2; 0; 6; 7];
     [0; 1]; [1; 2]; [2; 3]; [0; 3]]
    [(1, 0); (2, 0); (3, 0); (4, 1); (5, 1)]
    8 5 6.

(** The point that [get_dual] computes for tile [t]. *)
Definition tile_centroid (T : Tiling) (t : nat) (c : point) : Prop :=
  exists vt p,
    vertices T !! t = Some vt /\
    res_map (py_get (points T)) vt = Ok p /\
    c = mean p.

(** Number of entries of [vt] that name position [p] of a table of
    length [len]. *)
Definition hits (len p : nat) (vt : list Z) : nat :=
  length (filter (fun v => py_norm len v = Some p) vt).

(** The entries that tile [t] appends to the dual tile of point [p]. *)
Definition incident (T : Tiling) (len p t : nat) : list Z :=
  replicate (hits len p (default [] (vertices T !! t))) (Z.of_nat t).

(** The tables hold what the data model says: the counts describe the
    tables, there is a neighbour list for every tile, and vertex lists and
    edges hold indices of points. *)
Definition well_formed (T : Tiling) : Prop :=
  counted T /\
  length (neighbors T) = ntiles T /\
  Forall (Forall (fun v => 0 <= v < Z.of_nat (npoints T))) (vertices T) /\
  Forall (fun e => 0 <= fst e < Z.of_nat (npoints T) /\
                   0 <= snd e < Z.of_nat (npoints T)) (edges T).

(** * Objects and references

    [get_dual] builds its result out of lists that it fills in place.  To
    say what it shares with its receiver, the same method is written once
    more over a store of objects: every Python list, every array and every
    [Tiling] is a cell of the store, named by its location, and a list
    holds integers, points or references to other cells. *)

Abbreviation loc := nat.

Inductive value : Type :=
| VInt (z : Z)
| VPoint (p : point)
| VRef (l : loc).

Inductive cell : Type :=
| CList (items : list value)
| CFloats (a : list point)
| CInts (a : list Z)
| CPairs (a : list (Z * Z))
| CTiling (points vertices neighbors edges : loc) (ntiles nedges npoints : nat).

Abbreviation heap := (list cell).

(** A computation over the store; the store reached when an exception is
    raised is kept. *)
Definition H (A : Type) : Type := heap -> res A * heap.

Definition h_ret {A} (a : A) : H A := fun h => (Ok a, h).

Definition h_bind {A B} (m : H A) (k : A -> H B) : H B :=
  fun h =>
    match m h with
    | (Ok a, h') => k a h'
    | (Raise e, h') => (Raise e, h')
    end.

Declare Scope h_scope.
Delimit Scope h_scope with H.
Notation "x <- m ;; k" := (h_bind m (fun x => k))
  (at level 100, m at next level, k at level 200, right associativity,
   only parsing) : h_scope.
Notation "m ;;; k" := (h_bind m (fun _ => k))
  (at level 100, k at level 200, right associativity, only parsing) : h_scope.

Definition h_lift {A} (r : res A) : H A := fun h => (r, h).

Definition alloc (c : cell) : H loc := fun h => (Ok (length h), h ++ [c]).

Definition load (l : loc) : H cell :=
  fun h =>
    match h !! l with
    | Some c => (Ok c, h)
    | None => (Raise TypeError, h)
    end.

Definition store (l : loc) (c : cell) : H unit :=
  fun h =>
    if decide (l < length h)%nat then (Ok tt, <[l:=c]> h)
    else (Raise TypeError, h).

(** [for x in xs: body x] *)
Fixpoint h_for {A} (xs : list A) (body : A -> H unit) : H unit :=
  match xs with
  | [] => h_ret tt
  | x :: xs' => (body x ;;; h_for xs' body)%H
  end.

(** ** Lists and arrays in the store *)

Definition as_ref (v : value) : res loc :=
  match v with
  | VRef l => Ok l
  | _ => Raise TypeError
  end.

Definition as_int (v : value) : res Z :=
  match v with
  | VInt z => Ok z
  | _ => Raise TypeError
  end.

Definition as_point (v : value) : res point :=
  match v with
  | VPoint p => Ok p
  | _ => Raise TypeError
  end.

(** [l[i]] for a list [l] *)
Definition list_get (l : loc) (i : Z) : H value :=
  (c <- load l ;;
   match c with
   | CList items => h_lift (py_get items i)
   | _ => h_lift (Raise TypeError)
   end)%H.

(** [l.append(v)] *)
Definition list_append (l : loc) (v : value) : H unit :=
  (c <- load l ;;
   match c with
   | CList items => store l (CList (items ++ [v]))
   | _ => h_lift (Raise TypeError)
   end)%H.

(** The items of a list. *)
Definition list_items (l : loc) : H (list value) :=
  (c <- load l ;;
   match c with
   | CList items => h_ret items
   | _ => h_lift (Raise TypeError)
   end)%H.

(** The integers of a list of integers or of an integer array. *)
Definition seq_ints (l : loc) : H (list Z) :=
  (c <- load l ;;
   match c with
   | CList items => h_lift (res_map as_int items)
   | CInts a => h_ret a
   | _ => h_lift (Raise TypeError)
   end)%H.

Definition load_floats (l : loc) : H (list point) :=
  (c <- load l ;;
   match c with
   | CFloats a => h_ret a
   | _ => h_lift (Raise TypeError)
   end)%H.

Definition load_pairs (l : loc) : H (list (Z * Z)) :=
  (c <- load l ;;
   match c with
   | CPairs a => h_ret a
   | _ => h_lift (Raise TypeError)
   end)%H.

(** [[[] for i in range(n)]] *)
Fixpoint new_empty_lists (n : nat) : H (list value) :=
  match n with
  | O => h_ret []
  | S n' =>
      (l <- alloc (CList []) ;;
       ls <- new_empty_lists n' ;;
       h_ret (VRef l :: ls))%H
  end.

Definition new_list_of_lists (n : nat) : H loc :=
  (ls <- new_empty_lists n ;; alloc (CList ls))%H.

(** [h_map f xs]: [[f x for x in xs]] *)
Fixpoint h_map {A B} (f : A -> H B) (xs : list A) : H (list B) :=
  match xs with
  | [] => h_ret []
  | x :: xs' => (y <- f x ;; ys <- h_map f xs' ;; h_ret (y :: ys))%H
  end.

(** ** The methods over the store *)

(** [self.sort_clockwise(vertices)]: a new integer array. *)
Definition sort_clockwise_h (points_l vertices_l : loc) : H loc :=
  (pts <- load_floats points_l ;;
   vs <- seq_ints vertices_l ;;
   sv <- h_lift (sort_clockwise pts vs) ;;
   alloc (CInts sv))%H.

(** A pair [[t, n]] read back as a row of the edge array. *)
Definition read_pair (v : value) : H (Z * Z) :=
  (l <- h_lift (as_ref v) ;;
   items <- list_items l ;;
   match items with
   | [VInt a; VInt b] => h_ret (a, b)
   | _ => h_lift (Raise ValueError)
   end)%H.

(** [Tiling(points, vertices, neighbors, edges)] with the four arguments
    given as lists. *)
Definition Tiling_new (points_l vertices_l neighbors_l edges_l : loc) : H loc :=
  (pvals <- list_items points_l ;;
   pts <- h_lift (res_map as_point pvals) ;;
   self_points <- alloc (CFloats pts) ;;
   match pts with
   | [] => h_lift (Raise AssertionError)
   | _ =>
       vrefs <- list_items vertices_l ;;
       sorted <- h_map (fun v => l <- h_lift (as_ref v) ;;
                                 sv <- sort_clockwise_h self_points l ;;
                                 h_ret (VRef sv)) vrefs ;;
       self_vertices <- alloc (CList sorted) ;;
       let self_neighbors := neighbors_l in
       evals <- list_items edges_l ;;
       es <- h_map read_pair evals ;;
       self_edges <- alloc (CPairs es) ;;
       alloc (CTiling self_points self_vertices self_neighbors self_edges
                (length sorted) (length es) (length pts))
   end)%H.

Definition get_dual_h (self : loc) : H loc :=
  (c <- load self ;;
   match c with
   | CTiling s_points s_vertices s_neighbors s_edges s_ntiles _ s_npoints =>
       dpoints <- alloc (CList []) ;;
       dedges <- alloc (CList []) ;;
       dneighbors <- new_list_of_lists s_npoints ;;
       dvertices <- new_list_of_lists s_npoints ;;
       h_for (range s_ntiles) (fun t =>
         vt_ref <- list_get s_vertices t ;;
         vt_l <- h_lift (as_ref vt_ref) ;;
         vt <- seq_ints vt_l ;;
         pts <- load_floats s_points ;;
         p <- h_lift (tile_points pts vt) ;;
         list_append dpoints (VPoint (mean p)) ;;;
         nt_ref <- list_get s_neighbors t ;;
         nt_l <- h_lift (as_ref nt_ref) ;;
         nt <- seq_ints nt_l ;;
         h_for nt (fun n =>
           if (0 <=? n) && (n <? t) then
             pair <- alloc (CList [VInt t; VInt n]) ;;
             list_append dedges (VRef pair)
           else h_ret tt) ;;;
         h_for vt (fun v =>
           dv <- list_get dvertices v ;;
           dv_l <- h_lift (as_ref dv) ;;
           list_append dv_l (VInt t))) ;;;
       es <- load_pairs s_edges ;;
       h_for es (fun e =>
         let '(i, j) := e in
         di <- list_get dneighbors i ;;
         di_l <- h_lift (as_ref di) ;;
         list_append di_l (VInt j) ;;;
         dj <- list_get dneighbors j ;;
         dj_l <- h_lift (as_ref dj) ;;
         list_append dj_l (VInt i)) ;;;
       Tiling_new dpoints dvertices dneighbors dedges
   | _ => h_lift (Raise TypeError)
   end)%H.

(** ** Tilings laid out in the store *)

(** Allocate the objects of the tiling [T]: the point array, one integer
    array per tile, one list per neighbour list, the edge array and the
    [Tiling] object. *)
Definition store_tiling (T : Tiling) : H loc :=
  (pl <- alloc (CFloats (points T)) ;;
   vs <- h_map (fun v => l <- alloc (CInts v) ;; h_ret (VRef l)) (vertices T) ;;
   vl <- alloc (CList vs) ;;
   ns <- h_map (fun n => l <- alloc (CList (map VInt n)) ;; h_ret (VRef l))
           (neighbors T) ;;
   nl <- alloc (CList ns) ;;
   el <- alloc (CPairs (edges T)) ;;
   alloc (CTiling pl vl nl el (ntiles T) (nedges T) (npoints T)))%H.

(** The tiling held by the object at [l]. *)
Definition read_seqs (h : heap) (l : loc) : res (list (list Z)) :=
  match h !! l with
  | Some (CList items) =>
      res_map (fun v => (r <- as_ref v ;; fst (seq_ints r h))%res) items
  | _ => Raise TypeError
  end.

Definition read_tiling (h : heap) (l : loc) : res Tiling :=
  match h !! l with
  | Some (CTiling pl vl nl el nt ne np) =>
      (pts <- fst (load_floats pl h) ;;
       vs <- read_seqs h vl ;;
       ns <- read_seqs h nl ;;
       es <- fst (load_pairs el h) ;;
       Ok (mkTiling pts vs ns es nt ne np))%res
  | _ => Raise TypeError
  end.

(** The store that holds [star] and nothing else. *)
Definition star_heap : heap := snd (store_tiling star []).

Definition star_loc : loc := 16%nat.

(** ** Vocabulary for sharing *)

Definition value_refs (v : value) : list loc :=
  match v with
  | VRef l => [l]
  | _ => []
  end.

(** The references held by a cell. *)
Definition cell_refs (c : cell) : list loc :=
  match c with
  | CList items => flat_map value_refs items
  | CTiling p v n e _ _ _ => [p; v; n; e]
  | _ => []
  end.

(** [l'] can be reached from [l] by following references. *)
Inductive reachable (h : heap) : loc -> loc -> Prop :=
| reach_here (l : loc) : reachable h l l
| reach_step (l r l' : loc) (c : cell) :
    h !! l = Some c -> r ∈ cell_refs c -> reachable h r l' -> reachable h l l'.

(** No cell refers outside the store. *)
Definition wf_heap (h : heap) : Prop :=
  forall l c, h !! l = Some c -> Forall (fun r => (r < length h)%nat) (cell_refs c).

(** The cells from [n] on refer only to cells from [n] on. *)
Definition closed (n : nat) (h : heap) : Prop :=
  forall l c, (n <= l)%nat -> h !! l = Some c ->
              Forall (fun r => (n <= r)%nat) (cell_refs c).

Definition fresh_value (n : nat) (v : value) : Prop :=
  Forall (fun r => (n <= r)%nat) (value_refs v).

(** [m] leaves the first [n] cells alone, only adds cells, keeps the cells
    from [n] on closed, and returns a value that satisfies [Q]. *)
Definition safe {A} (n : nat) (m : H A) (Q : A -> Prop) : Prop :=
  forall h,
    (n <= length h)%nat -> closed n h ->
    take n (snd (m h)) = take n h /\
    (length h <= length (snd (m h)))%nat /\
    closed n (snd (m h)) /\
    match fst (m h) with
    | Ok a => Q a
    | Raise _ => True
    end.

(** * Further vocabulary *)

(** An index that names a position of a sequence of length [len]. *)
Definition in_range (len : nat) (i : Z) : Prop :=
  - Z.of_nat len <= i < Z.of_nat len.

(** The key by which [sort_clockwise] orders vertex [v]: the angle of its
    offset from the point [c]. *)
Definition angle_key (pts : list point) (c : point) (v : Z) : flt :=
  match py_get pts v with
  | Ok q => arctan2 (fst (point_sub q c)) (snd (point_sub q c))
  | Raise _ => NaN
  end.

(** What no method changes: the points, the three counts and the lengths
    of the three tables. *)
Definition same_shape (T T' : Tiling) : Prop :=
  points T' = points T /\
  ntiles T' = ntiles T /\ nedges T' = nedges T /\ npoints T' = npoints T /\
  length (vertices T') = length (vertices T) /\
  length (neighbors T') = length (neighbors T) /\
  length (edges T') = length (edges T).

(** A computation that ends, however it ends, in a receiver of the shape
    it started from. *)
Definition keeps_shape {A} (m : M A) : Prop :=
  forall w, same_shape (self w) (self (snd (m w))).

(** The first vertex of a tile that is not an endpoint of the edge. *)
Definition other_vertex (p1 p2 : Z) (v : list Z) : option Z :=
  head (filter (fun x => ~ (x = p1 \/ x = p2)) v).

(** The list [new_edge] that [flip] collects along with [tiles]. *)
Definition third_vertices (T : Tiling) (p1 p2 : Z) : list Z :=
  omap (fun t => match vertices T !! t with
                 | Some v => other_vertex p1 p2 v
                 | None => None
                 end)
    (triangles_with_edge T p1 p2).

(** The entries that edge [e] appends to the neighbour list of the dual
    tile at position [p] of a table of length [len]. *)
Definition across (len p : nat) (e : Z * Z) : list Z :=
  (if decide (py_norm len (fst e) = Some p) then [snd e] else []) ++
  (if decide (py_norm len (snd e) = Some p) then [fst e] else []).

(** The star with a neighbour table in which tile 1 lists only two
    neighbours, none of them across its edge to point 2. *)
Definition half_open_star : Tiling :=
  set_neighbors star
    [[1; 2; 3]; [0; 5]; [0; -1; -1]; [0; -1; -1]; [1; -1; -1]; [1; -1; -1]].

(** The square as the constructor stores it when it derives the edges from
    the two triangles. *)
Definition square_triangulated : Tiling :=
  mkTiling square_points [[0; 1; 2]; [0; 2; 3]] [] [(0, 2); (0, 3)] 2 2 4.

(** The four points of the square without any tile. *)
Definition bare_square : Tiling := mkTiling square_points [] [] [] 0 0 4.

(** The square with the single tile 0, 1, 2, as the constructor stores it:
    point 3 is a vertex of no tile. *)
Definition lone_triangle : Tiling :=
  mkTiling square_points [[0; 2; 1]] [[-1; -1; -1]] [(0, 1); (1, 2); (0, 2)]
    1 3 4.

(** The dual of [lone_triangle], as [get_dual] returns it; its last tile
    has no vertex. *)
Definition lone_triangle_dual : Tiling :=
  mkTiling [pt (2 # 3) (1 # 3)] [[0]; [0]; [0]; []]
    [[1; 2]; [0; 2]; [1; 0]; []] [] 4 0 1.

(** Every point is a vertex of some tile. *)
Definition all_points_used (T : Tiling) : Prop :=
  forall p : nat,
    (p < npoints T)%nat ->
    exists (t : nat) (vt : list Z) (v : Z),
      (t < ntiles T)%nat /\ vertices T !! t = Some vt /\
      v ∈ vt /\ py_norm (npoints T) v = Some p.

(** ** plot_tiles *)

(** An entry of the coordinate lists handed to [ax.fill]: the pair
    [[x, y]] of a point, or the separator [[None, None]]. *)
Definition corner : Type := option flt * option flt.

Definition gap : corner := (None, None).

(** [self.points[v].tolist()] *)
Definition corner_of (q : point) : corner := (Some (fst q), Some (snd q)).

(** [max(l)] *)
Definition py_max (l : list nat) : res nat :=
  match l with
  | [] => Raise ValueError
  | x :: l' => Ok (foldl Nat.max x l')
  end.

(** Body of the loop that sorts the tiles by their number of vertices. *)
Definition group_step (T : Tiling) (tileN : list (list corner)) (v : list Z)
  : res (list (list corner)) :=
  if (0 <? length v)%nat then
    (row <- py_get tileN (Z.of_nat (length v)) ;;
     p <- res_map (py_get (points T)) v ;;
     py_set tileN (Z.of_nat (length v)) (row ++ (map corner_of p ++ [gap])))%res
  else Ok tileN.

(** One call [ax.fill(x, y, ...)], as its two coordinate sequences. *)
Definition fill_call : Type := list (option flt) * list (option flt).

(** The two sequences that [zip] makes of the entries of a row. *)
Definition unzip_row (row : list corner) : fill_call :=
  (map fst row, map snd row).

(** Body of the loop that draws; the state is the list of the calls of
    [ax.fill] made so far. *)
Definition fill_step (N : nat) (tileN : list (list corner))
    (calls : list fill_call) (n : Z) : res (list fill_call) :=
  if n >? Z.of_nat N then Ok calls
  else (row <- py_get tileN n ;; Ok (calls ++ [unzip_row row]))%res.

(** [plot_tiles(ax, nvertices)] on a given [ax]; the result is the list of
    the calls of [ax.fill], in order. *)
Definition plot_tiles (T : Tiling) (nvertices : option (list Z))
  : res (list fill_call) :=
  (N <- py_max (map length (vertices T)) ;;
   let nvertices0 := match nvertices with
                     | None => range N
                     | Some l => l
                     end in
   tileN <- res_foldl (group_step T) (replicate (N + 1) [gap]) (vertices T) ;;
   res_foldl (fill_step N tileN) [] nvertices0)%res.

(** The corners of tile [v] followed by the separator, when [v] has [n]
    vertices and [n] is not zero. *)
Definition piece (T : Tiling) (n : nat) (v : list Z) : list corner :=
  if decide ((0 < length v)%nat /\ length v = n) then
    match res_map (py_get (points T)) v with
    | Ok p => map corner_of p ++ [gap]
    | Raise _ => []
    end
  else [].

(** The outlines of all tiles with [n] vertices, one after the other. *)
Definition outline (T : Tiling) (n : nat) : list corner :=
  gap :: flat_map (piece T n) (vertices T).

(** The call that [plot_tiles] makes on [star] for [nvertices = [3]]:
    the six triangles, each followed by the separator. *)
Definition star_outlines : list fill_call :=
  [unzip_row
     (gap :: flat_map (fun v => map corner_of v ++ [gap])
               [[pt 0 0; pt 1 1; pt 1 0]; [pt 0 0; pt 0 1; pt 1 1];
                [pt 0 0; pt 1 0; pt (1 # 2) (-1)];
                [pt 1 0; pt 1 1; pt 2 (1 # 2)];
                [pt 0 1; pt (1 # 2) 2; pt 1 1];
                [pt (-1) (1 # 2); pt 0 1; pt 0 0]]%Q)].
(** * Properties *)

(** ** Python indexing *)

Lemma py_norm_lt (len : nat) (i : Z) (k : nat) :
  py_norm len i = Some k -> (k < len)%nat.
Proof.
  unfold py_norm. intros H.
  destruct ((0 <=? i) && (i <? Z.of_nat len)) eqn:E1.
  - inversion H; subst. apply andb_true_iff in E1 as [? ?]. lia.
  - destruct ((- Z.of_nat len <=? i) && (i <? 0)) eqn:E2; [|discriminate].
    inversion H; subst. apply andb_true_iff in E2 as [? ?]. lia.
Qed.

Lemma py_norm_of_nat (len t : nat) :
  (t < len)%nat -> py_norm len (Z.of_nat t) = Some t.
Proof.
  intros H. unfold py_norm.
  replace ((0 <=? Z.of_nat t) && (Z.of_nat t <? Z.of_nat len)) with true.
  - by rewrite Nat2Z.id.
  - symmetry. apply andb_true_iff. lia.
Qed.

Lemma py_get_of_nat {A} (l : list A) (t : nat) (x : A) :
  l !! t = Some x -> py_get l (Z.of_nat t) = Ok x.
Proof.
  intros H. unfold py_get.
  rewrite py_norm_of_nat by (by eapply lookup_lt_Some).
  by rewrite H.
Qed.

Lemma py_get_Ok {A} (l : list A) (i : Z) (x : A) :
  py_get l i = Ok x -> exists k, py_norm (length l) i = Some k /\ l !! k = Some x.
Proof.
  unfold py_get. destruct (py_norm (length l) i) as [k|]; [|discriminate].
  destruct (l !! k) eqn:E; [|discriminate]. intros [= <-]. eauto.
Qed.

Lemma py_set_Ok {A} (l : list A) (i : Z) (x : A) (l' : list A) :
  py_set l i x = Ok l' ->
  exists k, py_norm (length l) i = Some k /\ l' = <[k:=x]> l.
Proof.
  unfold py_set. destruct (py_norm (length l) i) as [k|]; [|discriminate].
  intros [= <-]. eauto.
Qed.

Lemma py_set_length {A} (l : list A) (i : Z) (x : A) (l' : list A) :
  py_set l i x = Ok l' -> length l' = length l.
Proof.
  intros H. apply py_set_Ok in H as (k & _ & ->). apply length_insert.
Qed.

(** Reading and writing a row of an array returns when reading and writing
    an item of a list does. *)
Lemma np_get_Ok {A} (a : list A) (i : Z) (x : A) :
  np_get a i = Ok x <-> py_get a i = Ok x.
Proof.
  unfold np_get. destruct (py_get a i) as [y|e]; [done|].
  by destruct (int64 i).
Qed.

Lemma np_set_Ok {A} (a : list A) (i : Z) (x : A) (a' : list A) :
  np_set a i x = Ok a' <-> py_set a i x = Ok a'.
Proof.
  unfold np_set. destruct (py_set a i x) as [y|e]; [done|].
  by destruct (int64 i).
Qed.
(** ** The search for the two triangles *)

Lemma np_sum_map (f : Z -> bool) (v : list Z) :
  np_sum (map f v) = length (filter (fun x => f x) v).
Proof.
  unfold np_sum. induction v as [|x v IH]; [done|].
  cbn [map]. rewrite !filter_cons. destruct (f x); simpl; by rewrite ?IH.
Qed.

Lemma np_mask_map (f : Z -> bool) (v : list Z) :
  np_mask v (map f v) = filter (fun x => f x) v.
Proof.
  unfold np_mask. induction v as [|x v IH]; [done|].
  cbn [map zip zip_with]. rewrite !filter_cons. cbn [snd].
  destruct (f x); simpl; by rewrite IH.
Qed.

Lemma filter_split_length (f : Z -> bool) (v : list Z) :
  (length (filter (fun x => f x) v) + length (filter (fun x => negb (f x)) v)
   = length v)%nat.
Proof.
  induction v as [|x v IH]; [done|].
  rewrite !filter_cons. destruct (f x); simpl; lia.
Qed.

Lemma endpoint_filter (p1 p2 : Z) (v : list Z) :
  filter (fun x => x = p1 \/ x = p2) v
  = filter (fun x => Is_true ((x =? p1) || (x =? p2))) v.
Proof.
  apply list_filter_iff. intros x.
  rewrite orb_True, !Is_true_true, !Z.eqb_eq. done.
Qed.

Lemma find_step_spec (T : Tiling) (p1 p2 : Z) (acc : list Z * list Z) (t : nat) :
  (t < length (vertices T))%nat ->
  exists es,
    find_step T p1 p2 acc (Z.of_nat t)
    = Ok (fst acc ++ (if tile_has_edge T p1 p2 t then [Z.of_nat t] else []),
          snd acc ++ es).
Proof.
  intros Ht. destruct (lookup_lt_is_Some_2 _ _ Ht) as [v Hv].
  unfold find_step, tile_has_edge, has_edge.
  rewrite (py_get_of_nat _ _ _ Hv), Hv. cbn [res_bind].
  destruct (length v =? 3)%nat eqn:E3; cbn [negb andb].
  2:{ exists []. rewrite !app_nil_r. by destruct acc. }
  rewrite np_sum_map, endpoint_filter.
  destruct (length (filter _ v) =? 2)%nat eqn:E2.
  2:{ exists []. rewrite !app_nil_r. by destruct acc. }
  rewrite map_map, np_mask_map.
  pose proof (filter_split_length (fun x => (x =? p1) || (x =? p2)) v) as Hs.
  apply Nat.eqb_eq in E3, E2.
  destruct (filter (fun x => Is_true (negb _)) v) as [|e l] eqn:Ef.
  { simpl in Hs. lia. }
  exists [e]. reflexivity.
Qed.

Lemma find_loop (T : Tiling) (p1 p2 : Z) (n : nat) :
  forall (a : nat) (acc : list Z * list Z),
    (a + n <= length (vertices T))%nat ->
    exists es,
      res_foldl (find_step T p1 p2) acc (map Z.of_nat (seq a n))
      = Ok (fst acc ++
              map Z.of_nat (filter (fun t => tile_has_edge T p1 p2 t) (seq a n)),
            snd acc ++ es).
Proof.
  induction n as [|n IH]; intros a acc Hle.
  - exists []. simpl. rewrite !app_nil_r. by destruct acc.
  - cbn [seq map res_foldl].
    destruct (find_step_spec T p1 p2 acc a) as [es1 ->]; [lia|].
    cbn [res_bind].
    destruct (IH (S a) (fst acc ++ (if tile_has_edge T p1 p2 a then [Z.of_nat a] else []),
                        snd acc ++ es1)) as [es2 ->]; [lia|].
    exists (es1 ++ es2). cbn [fst snd]. rewrite filter_cons.
    destruct (tile_has_edge T p1 p2 a); simpl;
      rewrite <- ?app_assoc; reflexivity.
Qed.

Lemma find_tiles (T : Tiling) (p1 p2 : Z) :
  ntiles T = length (vertices T) ->
  exists es,
    res_foldl (find_step T p1 p2) ([], []) (range (ntiles T))
    = Ok (map Z.of_nat (triangles_with_edge T p1 p2), es).
Proof.
  intros Hn. unfold range, triangles_with_edge. rewrite Hn.
  destruct (find_loop T p1 p2 (length (vertices T)) 0%nat ([], [])) as [es ->];
    [lia|eauto].
Qed.

(** ** Stepping through a method *)

Lemma bind_expr_Ok {A B} (f : Tiling -> res A) (k : A -> M B) (w : world) (a : A) :
  f (self w) = Ok a -> m_bind (expr f) k w = k a w.
Proof. intros H. unfold m_bind, expr. by rewrite H. Qed.

Lemma bind_expr_Raise {A B} (f : Tiling -> res A) (k : A -> M B) (w : world) (e : exn) :
  f (self w) = Raise e -> m_bind (expr f) k w = (Raise e, w).
Proof. intros H. unfold m_bind, expr. by rewrite H. Qed.

Lemma bind_update_Ok {B} (f : Tiling -> res Tiling) (k : unit -> M B) (w : world)
    (T' : Tiling) :
  f (self w) = Ok T' -> m_bind (update f) k w = k tt (mkWorld T' (stdout w)).
Proof. intros H. unfold m_bind, update. by rewrite H. Qed.

Lemma bind_update_Raise {B} (f : Tiling -> res Tiling) (k : unit -> M B) (w : world)
    (e : exn) :
  f (self w) = Raise e -> m_bind (update f) k w = (Raise e, w).
Proof. intros H. unfold m_bind, update. by rewrite H. Qed.

(** ** Sorting *)

Lemma insert_sorted_perm {A} (le : A -> A -> bool) (x : A) (l : list A) :
  insert_sorted le x l ≡ₚ x :: l.
Proof.
  induction l as [|y l IH]; [done|]. simpl.
  destruct (le x y); [done|]. rewrite IH. apply Permutation_swap.
Qed.

Lemma insertion_sort_perm {A} (le : A -> A -> bool) (l : list A) :
  insertion_sort le l ≡ₚ l.
Proof.
  induction l as [|x l IH]; [done|].
  unfold insertion_sort in *. simpl. rewrite insert_sorted_perm. by rewrite IH.
Qed.

Lemma argsort_perm (keys : list flt) : argsort keys ≡ₚ seq 0 (length keys).
Proof.
  unfold argsort. rewrite insertion_sort_perm.
  rewrite snd_zip; [done|]. by rewrite length_seq.
Qed.

Lemma take_suffix_positions {A} (a pre : list A) :
  omap (fun k => (pre ++ a) !! k) (seq (length pre) (length a)) = a.
Proof.
  revert pre. induction a as [|x a IH]; intros pre; [done|].
  cbn [length seq]. change (omap ?f (?k :: ?l)) with
    (match f k with Some y => y :: omap f l | None => omap f l end).
  cbn beta. rewrite lookup_app_r, Nat.sub_diag by lia. cbn [lookup list_lookup]. f_equal.
  specialize (IH (pre ++ [x])).
  rewrite <- app_assoc, length_app, Nat.add_comm in IH. exact IH.
Qed.

Lemma take_all_positions {A} (a : list A) :
  take_positions a (seq 0 (length a)) = a.
Proof. exact (take_suffix_positions a []). Qed.

Lemma take_positions_perm {A} (a : list A) (idx : list nat) :
  idx ≡ₚ seq 0 (length a) -> take_positions a idx ≡ₚ a.
Proof.
  intros H. rewrite <- (take_all_positions a) at 2.
  unfold take_positions. by rewrite H.
Qed.

Lemma res_map_length {A B} (f : A -> res B) (l : list A) (l' : list B) :
  res_map f l = Ok l' -> length l' = length l.
Proof.
  revert l'. induction l as [|x l IH]; intros l'; simpl.
  - by intros [= <-].
  - destruct (f x); [|discriminate]. simpl.
    destruct (res_map f l); [|discriminate]. simpl.
    intros [= <-]. simpl. f_equal. by apply IH.
Qed.

Lemma sort_clockwise_perm (pts : list point) (l sv : list Z) :
  sort_clockwise pts l = Ok sv -> sv ≡ₚ l.
Proof.
  unfold sort_clockwise.
  destruct (res_map (py_get pts) l) as [p|] eqn:Hp; [|discriminate].
  simpl. intros [= <-]. apply take_positions_perm.
  rewrite argsort_perm, !length_map. by rewrite (res_map_length _ _ _ Hp).
Qed.

Lemma sort_clockwise_length (pts : list point) (l sv : list Z) :
  sort_clockwise pts l = Ok sv -> length sv = length l.
Proof. intros H. by rewrite (sort_clockwise_perm _ _ _ H). Qed.

(** ** The steps of a flip *)

Lemma flip_Ok_inv (T : Tiling) (out : list string) (edge : Z) (w' : world) :
  ntiles T = length (vertices T) ->
  flip edge (mkWorld T out) = (Ok tt, w') ->
  (w' = mkWorld T (out ++ [not_two_triangles])) \/
  (exists T', w' = mkWorld T' out /\ flip_trace T edge T').
Proof.
  intros Hn. unfold flip.
  destruct (np_get (edges T) edge) as [[p1 p2]|e] eqn:He.
  2:{ erewrite bind_expr_Raise by exact He. discriminate. }
  erewrite bind_expr_Ok by exact He. cbn beta iota.
  apply np_get_Ok in He.
  destruct (find_tiles T p1 p2 Hn) as [es Hfind].
  erewrite bind_expr_Ok by exact Hfind. cbn beta iota.
  destruct (triangles_with_edge T p1 p2) as [|t1 [|t2 [|t3 l]]] eqn:Htiles;
    cbn [map]; try (intros [= <-]; by left).
  destruct es as [|e1 [|e2 [|e3 es]]]; try discriminate.
  destruct (outer_neighbors T p1 p2 (Z.of_nat t1)) as [[A D]|] eqn:Ho1.
  2:{ erewrite bind_expr_Raise by exact Ho1. discriminate. }
  erewrite bind_expr_Ok by exact Ho1.
  destruct (outer_neighbors T p1 p2 (Z.of_nat t2)) as [[B C]|] eqn:Ho2.
  2:{ erewrite bind_expr_Raise by exact Ho2. discriminate. }
  erewrite bind_expr_Ok by exact Ho2. cbn beta iota.
  unfold m_bind, update. cbn [self stdout].
  destruct A as [A|]; [|discriminate].
  destruct B as [B|]; [|discriminate]. cbn [local res_bind].
  destruct (assign_neighbors _ _ T) as [T1|] eqn:H1; [|discriminate].
  cbn [self stdout].
  destruct C as [C|]; [|discriminate].
  destruct D as [D|]; [|discriminate]. cbn [local res_bind].
  destruct (assign_neighbors _ _ T1) as [T2|] eqn:H2; [|discriminate].
  cbn [self stdout].
  destruct (patch_neighbors _ _ _ T2) as [T3|] eqn:H3; [|discriminate].
  cbn [self stdout].
  destruct (patch_neighbors _ _ _ T3) as [T4|] eqn:H4; [|discriminate].
  cbn [self stdout].
  destruct (assign_sorted_vertices _ _ T4) as [T5|] eqn:H5; [|discriminate].
  cbn [self stdout].
  destruct (assign_sorted_vertices _ _ T5) as [T6|] eqn:H6; [|discriminate].
  cbn [self stdout].
  destruct (assign_edge _ _ T6) as [T7|] eqn:H7; [|discriminate].
  intros [= <-]. right. exists T7. split; [done|].
  by econstructor.
Qed.

(** ** What each write leaves alone *)

Lemma py_norm_of_nat_inv (len t k : nat) :
  py_norm len (Z.of_nat t) = Some k -> k = t.
Proof.
  unfold py_norm.
  destruct ((0 <=? Z.of_nat t) && (Z.of_nat t <? Z.of_nat len)).
  - intros [= <-]. apply Nat2Z.id.
  - destruct ((- Z.of_nat len <=? Z.of_nat t) && (Z.of_nat t <? 0)) eqn:E;
      [|discriminate].
    apply andb_true_iff in E as [_ E]. lia.
Qed.

Lemma assign_neighbors_frame (i : Z) (l : list Z) (T T' : Tiling) :
  assign_neighbors i l T = Ok T' ->
  points T' = points T /\ vertices T' = vertices T /\ edges T' = edges T /\
  ntiles T' = ntiles T /\ nedges T' = nedges T /\ npoints T' = npoints T.
Proof.
  unfold assign_neighbors. destruct (py_set (neighbors T) i l); [|discriminate].
  by intros [= <-].
Qed.

Lemma patch_neighbors_frame (i a b : Z) (T T' : Tiling) :
  patch_neighbors i a b T = Ok T' ->
  points T' = points T /\ vertices T' = vertices T /\ edges T' = edges T /\
  ntiles T' = ntiles T /\ nedges T' = nedges T /\ npoints T' = npoints T.
Proof.
  unfold patch_neighbors. destruct (py_get (neighbors T) i); [|discriminate].
  apply assign_neighbors_frame.
Qed.

Lemma assign_sorted_vertices_frame (t : nat) (l : list Z) (T T' : Tiling) :
  assign_sorted_vertices (Z.of_nat t) l T = Ok T' ->
  points T' = points T /\ edges T' = edges T /\
  ntiles T' = ntiles T /\ nedges T' = nedges T /\ npoints T' = npoints T /\
  exists sv, sv ≡ₚ l /\ vertices T' = <[t:=sv]> (vertices T).
Proof.
  unfold assign_sorted_vertices.
  destruct (sort_clockwise (points T) l) as [sv|] eqn:Hs; [|discriminate].
  cbn [res_bind].
  destruct (py_set (vertices T) (Z.of_nat t) sv) as [vs|] eqn:Hset; [|discriminate].
  intros [= <-]. cbn. repeat split; try done.
  exists sv. split; [by eapply sort_clockwise_perm|].
  apply py_set_Ok in Hset as (k & Hk & ->).
  by rewrite (py_norm_of_nat_inv _ _ _ Hk).
Qed.

Lemma assign_edge_frame (i : Z) (e : Z * Z) (T T' : Tiling) :
  assign_edge i e T = Ok T' ->
  points T' = points T /\ vertices T' = vertices T /\
  ntiles T' = ntiles T /\ nedges T' = nedges T /\ npoints T' = npoints T /\
  exists k, py_norm (length (edges T)) i = Some k /\ edges T' = <[k:=e]> (edges T).
Proof.
  unfold assign_edge.
  destruct (np_set (edges T) i e) as [es|] eqn:Hset; [|discriminate].
  apply np_set_Ok in Hset.
  intros [= <-]. cbn. repeat split; try done.
  apply py_set_Ok in Hset as (k & Hk & ->). eauto.
Qed.

(** ** Flip invariance *)

Lemma triangulated_sum (T : Tiling) :
  triangulated T -> sum_list (map length (vertices T)) = (3 * length (vertices T))%nat.
Proof.
  unfold triangulated. induction 1 as [|v vs Hv _ IH]; [done|].
  simpl in *. lia.
Qed.

(** C6.  A flip that succeeds on a triangulated tiling (it returns without
    printing) keeps [ntiles], [nedges], [npoints] and the points; the counts
    still describe the tables; every tile still has three vertices, so the
    vertex counts sum to [3 * ntiles]; every tile other than the two
    triangles of the edge keeps its vertex list; and every edge other than
    the named one keeps its endpoints. *)
Theorem flip_invariance (T T' : Tiling) (out : list string) (edge : Z) :
  counted T ->
  triangulated T ->
  flip edge (mkWorld T out) = (Ok tt, mkWorld T' out) ->
  ntiles T' = ntiles T /\ nedges T' = nedges T /\ npoints T' = npoints T /\
  points T' = points T /\
  counted T' /\
  triangulated T' /\
  sum_list (map length (vertices T')) = (3 * ntiles T')%nat /\
  exists (p1 p2 : Z) (t1 t2 k : nat),
    py_get (edges T) edge = Ok (p1, p2) /\
    triangles_with_edge T p1 p2 = [t1; t2] /\
    py_norm (length (edges T)) edge = Some k /\
    (forall t, t <> t1 -> t <> t2 -> vertices T' !! t = vertices T !! t) /\
    (forall j, j <> k -> edges T' !! j = edges T !! j).
Proof.
  intros (Hnt & Hne & Hnp) Htri Hflip.
  destruct (flip_Ok_inv T out edge _ Hnt Hflip) as [Heq|(T'' & Heq & Htr)].
  { exfalso. injection Heq as _ Hout.
    apply (f_equal length) in Hout. rewrite length_app in Hout. simpl in Hout. lia. }
  injection Heq as <-.
  destruct Htr as [p1 p2 t1 t2 e1 e2 A B C D T1 T2 T3 T4 T5 T6
                     He Htiles _ _ H1 H2 H3 H4 H5 H6 H7].
  apply assign_neighbors_frame in H1 as (P1 & V1 & E1 & N1 & M1 & Q1).
  apply assign_neighbors_frame in H2 as (P2 & V2 & E2 & N2 & M2 & Q2).
  apply patch_neighbors_frame in H3 as (P3 & V3 & E3 & N3 & M3 & Q3).
  apply patch_neighbors_frame in H4 as (P4 & V4 & E4 & N4 & M4 & Q4).
  apply assign_sorted_vertices_frame in H5 as (P5 & E5 & N5 & M5 & Q5 & sv1 & Hsv1 & V5).
  apply assign_sorted_vertices_frame in H6 as (P6 & E6 & N6 & M6 & Q6 & sv2 & Hsv2 & V6).
  apply assign_edge_frame in H7 as (P7 & V7 & N7 & M7 & Q7 & k & Hk & E7).
  assert (HV : vertices T' = <[t2:=sv2]> (<[t1:=sv1]> (vertices T)))
    by congruence.
  assert (HE : edges T' = <[k:=(e1, e2)]> (edges T)) by congruence.
  assert (HP : points T' = points T) by congruence.
  assert (Hlen : length (vertices T') = length (vertices T))
    by (by rewrite HV, !length_insert).
  assert (Htri' : triangulated T').
  { unfold triangulated in *. rewrite HV.
    apply Forall_insert; [apply Forall_insert; [done|]|].
    - by rewrite Hsv1.
    - by rewrite Hsv2. }
  assert (Hnt' : ntiles T' = ntiles T) by congruence.
  split; [done|]. split; [congruence|]. split; [congruence|].
  split; [done|]. split.
  { repeat split; [congruence| |congruence].
    rewrite HE, length_insert. congruence. }
  split; [done|]. split.
  { rewrite (triangulated_sum _ Htri'). congruence. }
  exists p1, p2, t1, t2, k.
  split; [done|]. split; [done|]. split; [congruence|]. split.
  - intros t Ht1 Ht2. rewrite HV.
    rewrite !list_lookup_insert_ne by done. done.
  - intros j Hj. rewrite HE. by rewrite list_lookup_insert_ne.
Qed.

(** ** The example tilings are constructed tilings *)

Lemma square_constructed (nbrs : list (list Z)) :
  Tiling_init square_points (Given [[0; 1; 2]; [0; 2; 3]] nbrs square_edges)
  = Ok (square nbrs).
Proof. reflexivity. Qed.

Lemma star_constructed :
  Tiling_init star_points (Given star_tiles star_neighbors star_edges) = Ok star.
Proof. vm_compute. reflexivity. Qed.

Lemma open_star_constructed :
  Tiling_init star_points (Given star_tiles open_star_neighbors star_edges)
  = Ok open_star.
Proof. vm_compute. reflexivity. Qed.

Lemma star_flip : flip 2 (mkWorld star []) = (Ok tt, mkWorld star_flipped []).
Proof. vm_compute. reflexivity. Qed.

Lemma flip_invariance_witness :
  ntiles star_flipped = ntiles star /\
  nedges star_flipped = nedges star /\
  npoints star_flipped = npoints star /\
  points star_flipped = points star /\
  counted star_flipped /\
  triangulated star_flipped /\
  sum_list (map length (vertices star_flipped)) = (3 * ntiles star_flipped)%nat /\
  exists (p1 p2 : Z) (t1 t2 k : nat),
    py_get (edges star) 2 = Ok (p1, p2) /\
    triangles_with_edge star p1 p2 = [t1; t2] /\
    py_norm (length (edges star)) 2 = Some k /\
    (forall t, t <> t1 -> t <> t2 -> vertices star_flipped !! t = vertices star !! t) /\
    (forall j, j <> k -> edges star_flipped !! j = edges star !! j).
Proof.
  apply (flip_invariance star star_flipped [] 2).
  - repeat split.
  - repeat constructor.
  - vm_compute. reflexivity.
Defined.


(** ** The two-triangle square *)

(** Both triangles of the square hold both endpoints of the diagonal, so no
    neighbour entry ever assigns an outer neighbour. *)
Lemma square_outer_step (nbrs : list (list Z)) (acc : option Z * option Z) (n : Z) :
  outer_step (square nbrs) 0 2 acc n = Ok acc \/
  outer_step (square nbrs) 0 2 acc n = Raise IndexError.
Proof.
  unfold outer_step, py_get. cbn [vertices square length].
  destruct (py_norm 2 n) as [k|] eqn:Hk; [|by right].
  pose proof (py_norm_lt _ _ _ Hk) as Hlt.
  destruct k as [|[|k]]; [| |lia]; left; by destruct acc.
Qed.

Lemma square_outer_loop (nbrs : list (list Z)) (nt : list Z) :
  forall acc,
    res_foldl (outer_step (square nbrs) 0 2) acc nt = Ok acc \/
    res_foldl (outer_step (square nbrs) 0 2) acc nt = Raise IndexError.
Proof.
  induction nt as [|n nt IH]; intros acc; [by left|].
  cbn [res_foldl].
  destruct (square_outer_step nbrs acc n) as [-> | ->]; [apply IH|by right].
Qed.

Lemma square_outer_neighbors (nbrs : list (list Z)) (t : Z) :
  outer_neighbors (square nbrs) 0 2 t = Ok (None, None) \/
  outer_neighbors (square nbrs) 0 2 t = Raise IndexError.
Proof.
  unfold outer_neighbors.
  destruct (py_get (neighbors (square nbrs)) t) as [nt|e] eqn:Hn.
  - apply square_outer_loop.
  - right. unfold py_get in Hn.
    destruct (py_norm _ t); [destruct (_ !! _)|]; by inversion Hn.
Qed.

(** C1.  On the square with triangles {0,1,2} and {0,2,3} and the shared
    edge (0,2) stored at position 2, [flip] raises whatever the neighbour
    table is, and the receiver is left as it was: the two tiles are not
    rewritten to {1,3,0} and {1,3,2} and the stored edge stays (0,2). *)
Theorem flip_square_raises (nbrs : list (list Z)) (out : list string) :
  py_get (edges (square nbrs)) 2 = Ok (0, 2) /\
  exists e : exn,
    flip 2 (mkWorld (square nbrs) out) = (Raise e, mkWorld (square nbrs) out).
Proof.
  split; [reflexivity|].
  unfold flip.
  rewrite (bind_expr_Ok _ _ _ (0, 2)) by reflexivity. cbn beta iota.
  rewrite (bind_expr_Ok _ _ _ ([0; 1], [1; 3])) by reflexivity. cbn beta iota.
  destruct (square_outer_neighbors nbrs 0) as [H1|H1].
  2:{ erewrite bind_expr_Raise by exact H1. eauto. }
  erewrite bind_expr_Ok by exact H1.
  destruct (square_outer_neighbors nbrs 1) as [H2|H2].
  2:{ erewrite bind_expr_Raise by exact H2. eauto. }
  erewrite bind_expr_Ok by exact H2. cbn beta iota.
  erewrite bind_update_Raise by reflexivity. eauto.
Qed.

(** ** The index -1 *)

Lemma py_norm_minus_one (len : nat) :
  py_norm len (-1) = py_norm len (Z.of_nat len - 1).
Proof.
  unfold py_norm. destruct len as [|n]; [reflexivity|].
  assert (H1 : (0 <=? -1) && (-1 <? Z.of_nat (S n)) = false) by reflexivity.
  assert (H2 : (- Z.of_nat (S n) <=? -1) && (-1 <? 0) = true).
  { apply andb_true_iff. split; [apply Z.leb_le|apply Z.ltb_lt]; lia. }
  assert (H3 : (0 <=? Z.of_nat (S n) - 1)
               && (Z.of_nat (S n) - 1 <? Z.of_nat (S n)) = true).
  { apply andb_true_iff. split; [apply Z.leb_le|apply Z.ltb_lt]; lia. }
  rewrite H1, H2, H3. f_equal; lia.
Qed.

(** C10.  Nothing in [flip] sets the index -1 apart: looking up or
    assigning position -1 of a table is looking up or assigning its last
    position.  On [open_star], where tile 1 records -1 across one edge, the
    search over the neighbours of tile 1 tests the vertex list of the last
    tile and selects -1 as outer neighbour [B]; the flip then succeeds,
    stores -1 in the neighbour list of tile 0 and rewrites the neighbour
    list of the last tile. *)
Theorem flip_selects_no_neighbor_index :
  (forall T : Tiling,
      py_get (vertices T) (-1)
      = py_get (vertices T) (Z.of_nat (length (vertices T)) - 1)) /\
  (forall (T : Tiling) (l : list Z),
      py_set (neighbors T) (-1) l
      = py_set (neighbors T) (Z.of_nat (length (neighbors T)) - 1) l) /\
  py_get (neighbors open_star) 1 = Ok [0; 4; -1] /\
  outer_neighbors open_star 0 2 1 = Ok (Some (-1), Some 4) /\
  flip 2 (mkWorld open_star []) = (Ok tt, mkWorld open_star_flipped []) /\
  neighbors open_star !! 5%nat = Some [1; -1; -1] /\
  neighbors open_star_flipped !! 5%nat = Some [0; -1; -1] /\
  neighbors open_star_flipped !! 0%nat = Some [1; 2; -1].
Proof.
  split; [|split].
  - intros T. unfold py_get. by rewrite py_norm_minus_one.
  - intros T l. unfold py_set. by rewrite py_norm_minus_one.
  - repeat split; vm_compute; reflexivity.
Qed.

(** ** Vertex lists stored by the constructor *)

Lemma triangulated_vertices_stored (pts : list point) (tv tn : list (list Z))
    (T : Tiling) :
  Tiling_init pts (Triangulated tv tn) = Ok T -> vertices T = tv.
Proof.
  unfold Tiling_init. destruct pts as [|p pts]; [discriminate|].
  destruct (res_foldl _ _ tv); [|discriminate]. by intros [= <-].
Qed.

Lemma res_map_Forall2 {A B} (f : A -> res B) (l : list A) (l' : list B) :
  res_map f l = Ok l' -> Forall2 (fun x y => f x = Ok y) l l'.
Proof.
  revert l'. induction l as [|x l IH]; intros l'; simpl.
  - intros [= <-]. constructor.
  - destruct (f x) as [y|] eqn:Hx; [|discriminate]. simpl.
    destruct (res_map f l) as [ys|]; [|discriminate]. simpl.
    intros [= <-]. constructor; [done|]. by apply IH.
Qed.

Lemma given_vertices_sorted (pts : list point) (vs ns : list (list Z))
    (es : list (Z * Z)) (T : Tiling) :
  Tiling_init pts (Given vs ns es) = Ok T ->
  Forall2 (fun v sv => sort_clockwise pts v = Ok sv) vs (vertices T).
Proof.
  unfold Tiling_init. destruct pts as [|p pts]; [discriminate|].
  destruct (res_map _ vs) as [svs|] eqn:Hs; [|discriminate].
  intros [= <-]. by apply res_map_Forall2.
Qed.

(** C3.  For the three points (0,0), (1,0), (0,1) and the triangle
    [0, 1, 2] returned by the triangulation, the constructor stores the
    list [0, 1, 2] as it came, while the clockwise ordering of that list
    over the same points is [0, 2, 1]. *)
Theorem triangulated_vertices_not_clockwise :
  exists T : Tiling,
    Tiling_init corner_points (Triangulated [[0; 1; 2]] [[-1; -1; -1]]) = Ok T /\
    vertices T = [[0; 1; 2]] /\
    sort_clockwise (points T) [0; 1; 2] = Ok [0; 2; 1].
Proof.
  eexists. split; [vm_compute; reflexivity|]. split; vm_compute; reflexivity.
Qed.

(** ** Loops *)

Lemma res_foldl_cons_inv {S A} (f : S -> A -> res S) (s s' : S) (x : A) (l : list A) :
  res_foldl f s (x :: l) = Ok s' ->
  exists s1, f s x = Ok s1 /\ res_foldl f s1 l = Ok s'.
Proof.
  cbn [res_foldl]. destruct (f s x) as [s1|]; [|discriminate]. eauto.
Qed.

Lemma py_get_of_nat_inv {A} (l : list A) (t : nat) (x : A) :
  py_get l (Z.of_nat t) = Ok x -> l !! t = Some x.
Proof.
  intros H. apply py_get_Ok in H as (k & Hk & Hx).
  by rewrite (py_norm_of_nat_inv _ _ _ Hk) in Hx.
Qed.

(** ** The edges of the dual *)

Lemma tile_points_Ok (pts : list point) (v : list Z) (p : list point) :
  tile_points pts v = Ok p <-> v <> [] /\ res_map (py_get pts) v = Ok p.
Proof.
  destruct v as [|x v]; cbn [tile_points]; [|by intuition].
  split; [discriminate|]. by intros [? _].
Qed.

Lemma dual_edges_loop (t : Z) (nt : list Z) :
  forall de,
    foldl (fun de n => if (0 <=? n) && (n <? t) then de ++ [(t, n)] else de) de nt
    = de ++ map (fun n => (t, n)) (filter (fun n => 0 <= n < t) nt).
Proof.
  induction nt as [|n nt IH]; intros de; cbn [foldl].
  - by rewrite app_nil_r.
  - rewrite IH, filter_cons.
    destruct (decide (0 <= n < t)) as [Hn|Hn].
    + replace ((0 <=? n) && (n <? t)) with true
        by (symmetry; apply andb_true_iff; split; [apply Z.leb_le|apply Z.ltb_lt]; lia).
      cbn [map]. by rewrite <- app_assoc.
    + replace ((0 <=? n) && (n <? t)) with false; [done|].
      symmetry. apply andb_false_iff.
      destruct (Z.leb_spec 0 n); [right|by left].
      apply Z.ltb_ge. lia.
Qed.

Lemma dual_step_edges (T : Tiling) (acc acc' : dual_acc) (t : nat) :
  dual_step T acc (Z.of_nat t) = Ok acc' ->
  dedges acc' = dedges acc ++ dual_edges_of T t.
Proof.
  unfold dual_step.
  destruct (py_get (vertices T) _) as [vt|]; [|discriminate]. cbn [res_bind].
  destruct (tile_points _ vt) as [p|]; [|discriminate]. cbn [res_bind].
  destruct (py_get (neighbors T) _) as [nt|] eqn:Hn; [|discriminate].
  cbn [res_bind].
  destruct (res_foldl _ _ vt) as [dv|]; [|discriminate]. cbn [res_bind].
  intros [= <-]. cbn [dedges].
  unfold dual_edges_of. rewrite (py_get_of_nat_inv _ _ _ Hn).
  apply dual_edges_loop.
Qed.

Lemma dual_loop_edges (T : Tiling) (n : nat) :
  forall (a : nat) (acc acc' : dual_acc),
    res_foldl (dual_step T) acc (map Z.of_nat (seq a n)) = Ok acc' ->
    dedges acc' = dedges acc ++ flat_map (dual_edges_of T) (seq a n).
Proof.
  induction n as [|n IH]; intros a acc acc'.
  - intros [= <-]. by rewrite app_nil_r.
  - cbn [seq map]. intros H.
    apply res_foldl_cons_inv in H as (acc1 & H1 & H2).
    rewrite (IH _ _ _ H2), (dual_step_edges _ _ _ _ H1).
    cbn [flat_map]. by rewrite <- app_assoc.
Qed.

Lemma get_dual_inv (T D : Tiling) :
  get_dual T = Ok D ->
  exists acc dn,
    res_foldl (dual_step T) (mkDual [] [] (replicate (npoints T) []))
      (range (ntiles T)) = Ok acc /\
    res_foldl dual_neighbors_step (replicate (npoints T) []) (edges T) = Ok dn /\
    Tiling_init (dpoints acc) (Given (dvertices acc) dn (dedges acc)) = Ok D.
Proof.
  unfold get_dual.
  destruct (res_foldl (dual_step T) _ _) as [acc|]; [|discriminate].
  cbn [res_bind].
  destruct (res_foldl dual_neighbors_step _ _) as [dn|]; [|discriminate].
  cbn [res_bind]. eauto.
Qed.

Lemma Tiling_init_given_inv (pts : list point) (vs ns : list (list Z))
    (es : list (Z * Z)) (T : Tiling) :
  Tiling_init pts (Given vs ns es) = Ok T ->
  exists svs,
    res_map (sort_clockwise pts) vs = Ok svs /\
    T = mkTiling pts svs ns es (length svs) (length es) (length pts).
Proof.
  unfold Tiling_init. destruct pts as [|p pts]; [discriminate|].
  destruct (res_map _ vs) as [svs|]; [|discriminate].
  intros [= <-]. eauto.
Qed.


Lemma elem_of_dual_edges_of (T : Tiling) (t : nat) (e : Z * Z) :
  e ∈ dual_edges_of T t <->
  exists nt n,
    neighbors T !! t = Some nt /\ n ∈ nt /\ 0 <= n < Z.of_nat t /\
    e = (Z.of_nat t, n).
Proof.
  unfold dual_edges_of. destruct (neighbors T !! t) as [nt|].
  - rewrite list_elem_of_fmap. split.
    + intros (n & -> & Hn). apply list_elem_of_filter in Hn as [Hr Hn].
      by exists nt, n.
    + intros (nt' & n & [= <-] & Hn & Hr & ->). exists n. split; [done|].
      by apply list_elem_of_filter.
  - split; [by intros ?%elem_of_nil|]. by intros (? & ? & ? & _).
Qed.





Lemma star_get_dual : get_dual star = Ok star_dual.
Proof. vm_compute. reflexivity. Qed.


(** ** The points and tiles of the dual *)

Lemma py_append_at_inv (l l' : list (list Z)) (i x : Z) :
  py_append_at l i x = Ok l' ->
  exists k li,
    py_norm (length l) i = Some k /\ l !! k = Some li /\
    l' = <[k:=li ++ [x]]> l.
Proof.
  unfold py_append_at. destruct (py_get l i) as [li|] eqn:Hg; [|discriminate].
  cbn [res_bind]. intros Hs.
  apply py_get_Ok in Hg as (k & Hk & Hli).
  apply py_set_Ok in Hs as (k' & Hk' & ->).
  assert (k' = k) as -> by congruence. eauto.
Qed.

Lemma append_loop_inv (t : Z) (vt : list Z) :
  forall dv dv',
    res_foldl (fun dv v => py_append_at dv v t) dv vt = Ok dv' ->
    length dv' = length dv /\
    forall p, dv' !! p
              = (fun l => l ++ replicate (hits (length dv) p vt) t) <$> dv !! p.
Proof.
  induction vt as [|v vt IH]; intros dv dv'.
  - intros [= <-]. split; [done|]. intros p. cbn.
    destruct (dv !! p); cbn; by rewrite ?app_nil_r.
  - intros H. apply res_foldl_cons_inv in H as (dv1 & H1 & H2).
    apply py_append_at_inv in H1 as (k & li & Hk & Hli & ->).
    apply IH in H2 as [Hlen Hdv]. rewrite length_insert in Hlen, Hdv.
    split; [done|]. intros p. rewrite Hdv. unfold hits. rewrite filter_cons.
    destruct (decide (p = k)) as [->|Hpk].
    + rewrite list_lookup_insert_eq by (by eapply lookup_lt_Some).
      rewrite Hli, decide_True by done. cbn. by rewrite <- app_assoc.
    + rewrite list_lookup_insert_ne by done.
      by rewrite decide_False by congruence.
Qed.

Lemma dual_step_inv (T : Tiling) (acc acc' : dual_acc) (t : nat) :
  dual_step T acc (Z.of_nat t) = Ok acc' ->
  (exists c, tile_centroid T t c /\ dpoints acc' = dpoints acc ++ [c]) /\
  length (dvertices acc') = length (dvertices acc) /\
  forall p, dvertices acc' !! p
            = (fun l => l ++ incident T (length (dvertices acc)) p t)
                <$> dvertices acc !! p.
Proof.
  unfold dual_step.
  destruct (py_get (vertices T) _) as [vt|] eqn:Hvt; [|discriminate].
  cbn [res_bind].
  destruct (tile_points _ vt) as [p|] eqn:Hp; [|discriminate]. cbn [res_bind].
  apply tile_points_Ok in Hp as [_ Hp].
  destruct (py_get (neighbors T) _) as [nt|]; [|discriminate]. cbn [res_bind].
  destruct (res_foldl _ _ vt) as [dv|] eqn:Hdv; [|discriminate].
  cbn [res_bind]. intros [= <-]. cbn [dpoints dvertices].
  apply py_get_of_nat_inv in Hvt. apply append_loop_inv in Hdv as [Hlen Hdv].
  split; [|split; [done|]].
  - exists (mean p). split; [|done]. by exists vt, p.
  - intros q. rewrite Hdv. unfold incident. by rewrite Hvt.
Qed.

Lemma dual_loop_inv (T : Tiling) (n : nat) :
  forall (a : nat) (acc acc' : dual_acc),
    res_foldl (dual_step T) acc (map Z.of_nat (seq a n)) = Ok acc' ->
    (exists ps, Forall2 (tile_centroid T) (seq a n) ps /\
                dpoints acc' = dpoints acc ++ ps) /\
    length (dvertices acc') = length (dvertices acc) /\
    forall p, dvertices acc' !! p
              = (fun l => l ++ flat_map (incident T (length (dvertices acc)) p)
                                 (seq a n))
                  <$> dvertices acc !! p.
Proof.
  induction n as [|n IH]; intros a acc acc'.
  - intros [= <-]. split; [|split; [done|]].
    + exists []. split; [constructor|by rewrite app_nil_r].
    + intros p. cbn. destruct (dvertices acc !! p); cbn; by rewrite ?app_nil_r.
  - cbn [seq map]. intros H.
    apply res_foldl_cons_inv in H as (acc1 & H1 & H2).
    apply dual_step_inv in H1 as ((c & Hc & Hp1) & Hlen1 & Hdv1).
    apply IH in H2 as ((ps & Hps & Hp2) & Hlen2 & Hdv2).
    split; [|split; [congruence|]].
    + exists (c :: ps). split; [by constructor|].
      rewrite Hp2, Hp1. by rewrite <- app_assoc.
    + intros p. rewrite Hdv2, Hdv1, Hlen1.
      destruct (dvertices acc !! p); cbn; [|done].
      by rewrite <- app_assoc.
Qed.

Lemma elem_of_incidents (T : Tiling) (len p n : nat) (x : Z) :
  x ∈ flat_map (incident T len p) (seq 0 n) <->
  exists (t : nat) vt v,
    x = Z.of_nat t /\ (t < n)%nat /\ vertices T !! t = Some vt /\
    v ∈ vt /\ py_norm len v = Some p.
Proof.
  rewrite list_elem_of_In, in_flat_map. split.
  - intros (t & Ht & Hx). apply in_seq in Ht.
    apply list_elem_of_In in Hx. unfold incident in Hx.
    apply elem_of_replicate in Hx as [-> Hh].
    destruct (vertices T !! t) as [vt|] eqn:Hvt; [|done]. cbn in Hh.
    unfold hits in Hh.
    destruct (filter _ vt) as [|v l] eqn:Hf; [done|].
    assert (Hv : v ∈ filter (fun v => py_norm len v = Some p) vt)
      by (rewrite Hf; apply list_elem_of_here).
    apply list_elem_of_filter in Hv as [Hv1 Hv2].
    exists t, vt, v. repeat split; try done. lia.
  - intros (t & vt & v & -> & Ht & Hvt & Hv & Hp). exists t. split.
    + apply in_seq. lia.
    + apply list_elem_of_In. unfold incident. rewrite Hvt. cbn.
      apply elem_of_replicate. split; [done|]. unfold hits.
      assert (Hv' : v ∈ filter (fun v => py_norm len v = Some p) vt)
        by (by apply list_elem_of_filter).
      destruct (filter _ vt); [by apply elem_of_nil in Hv'|done].
Qed.

(** ** [get_dual] returns *)

Lemma py_norm_in_range (len : nat) (i : Z) :
  0 <= i < Z.of_nat len -> py_norm len i = Some (Z.to_nat i).
Proof.
  intros H. unfold py_norm.
  assert (E : (0 <=? i) && (i <? Z.of_nat len) = true).
  { apply andb_true_iff. split; [apply Z.leb_le|apply Z.ltb_lt]; lia. }
  by rewrite E.
Qed.

Lemma py_get_in_range {A} (l : list A) (i : Z) :
  0 <= i < Z.of_nat (length l) ->
  exists x, py_get l i = Ok x /\ l !! Z.to_nat i = Some x.
Proof.
  intros H. unfold py_get. rewrite (py_norm_in_range _ _ H).
  destruct (lookup_lt_is_Some_2 l (Z.to_nat i)) as [x Hx]; [lia|].
  rewrite Hx. eauto.
Qed.

Lemma res_map_success {A B} (f : A -> res B) (l : list A) :
  Forall (fun x => exists y, f x = Ok y) l -> exists l', res_map f l = Ok l'.
Proof.
  induction 1 as [|x l [y Hy] _ [l' IH]]; [by exists []|].
  exists (y :: l'). cbn [res_map]. by rewrite Hy, IH.
Qed.

Lemma py_append_at_success (l : list (list Z)) (i x : Z) :
  is_Some (py_norm (length l) i) ->
  exists l', py_append_at l i x = Ok l' /\ length l' = length l.
Proof.
  intros [k Hk]. pose proof (py_norm_lt _ _ _ Hk) as Hlt.
  destruct (lookup_lt_is_Some_2 l k Hlt) as [li Hli].
  exists (<[k:=li ++ [x]]> l). split; [|apply length_insert].
  unfold py_append_at, py_get, py_set. by rewrite Hk, Hli.
Qed.

Lemma append_loop_success (t : Z) (vt : list Z) :
  forall dv,
    Forall (fun v => is_Some (py_norm (length dv) v)) vt ->
    exists dv', res_foldl (fun dv v => py_append_at dv v t) dv vt = Ok dv'.
Proof.
  induction vt as [|v vt IH]; intros dv Hvt; [by exists dv|].
  apply Forall_cons in Hvt as [Hv Hvt].
  destruct (py_append_at_success dv v t Hv) as (dv1 & H1 & Hlen).
  destruct (IH dv1) as [dv' H2]; [by rewrite Hlen|].
  exists dv'. cbn [res_foldl]. by rewrite H1.
Qed.

Lemma select_points_success (pts : list point) (vt : list Z) :
  Forall (fun v => 0 <= v < Z.of_nat (length pts)) vt ->
  exists p, res_map (py_get pts) vt = Ok p.
Proof.
  intros H. apply res_map_success. eapply Forall_impl; [exact H|].
  intros v Hv. destruct (py_get_in_range pts v Hv) as (x & Hx & _). eauto.
Qed.

Lemma dual_step_success (T : Tiling) (acc : dual_acc) (t : nat) :
  well_formed T -> Forall (fun vt => vt <> []) (vertices T) ->
  (t < ntiles T)%nat ->
  length (dvertices acc) = npoints T ->
  exists acc', dual_step T acc (Z.of_nat t) = Ok acc'.
Proof.
  intros ((Hnt & _ & Hnp) & Hnb & Hv & _) Hne Ht Hdv.
  destruct (lookup_lt_is_Some_2 (vertices T) t) as [vt Hvt]; [lia|].
  destruct (lookup_lt_is_Some_2 (neighbors T) t) as [nt Hn]; [lia|].
  pose proof (Forall_lookup_1 _ _ _ _ Hv Hvt) as Hr.
  destruct (select_points_success (points T) vt) as [p Hp].
  { by rewrite <- Hnp. }
  assert (Hp' : tile_points (points T) vt = Ok p).
  { apply tile_points_Ok. split; [|done].
    exact (Forall_lookup_1 _ _ _ _ Hne Hvt). }
  destruct (append_loop_success (Z.of_nat t) vt (dvertices acc)) as [dv' Hl].
  { eapply Forall_impl; [exact Hr|]. intros v Hvr. rewrite Hdv.
    rewrite py_norm_in_range by done. eauto. }
  unfold dual_step.
  rewrite (py_get_of_nat _ _ _ Hvt). cbn [res_bind]. rewrite Hp'. cbn [res_bind].
  rewrite (py_get_of_nat _ _ _ Hn). cbn [res_bind]. rewrite Hl. cbn [res_bind].
  eauto.
Qed.

Lemma dual_loop_success (T : Tiling) (n : nat) :
  well_formed T -> Forall (fun vt => vt <> []) (vertices T) ->
  forall (a : nat) (acc : dual_acc),
    (a + n <= ntiles T)%nat ->
    length (dvertices acc) = npoints T ->
    exists acc', res_foldl (dual_step T) acc (map Z.of_nat (seq a n)) = Ok acc'.
Proof.
  intros Hwf Hne. induction n as [|n IH]; intros a acc Han Hdv; [by exists acc|].
  destruct (dual_step_success T acc a Hwf Hne) as [acc1 H1]; [lia|done|].
  destruct (IH (S a) acc1) as [acc' H2]; [lia| |].
  { apply dual_step_inv in H1 as (_ & Hlen & _). congruence. }
  exists acc'. cbn [seq map res_foldl]. by rewrite H1.
Qed.

Lemma dual_neighbors_loop_success (n : nat) (es : list (Z * Z)) :
  Forall (fun e => 0 <= fst e < Z.of_nat n /\ 0 <= snd e < Z.of_nat n) es ->
  forall dn, length dn = n ->
             exists dn', res_foldl dual_neighbors_step dn es = Ok dn'.
Proof.
  induction 1 as [|[i j] es [Hi Hj] _ IH]; intros dn Hdn; [by exists dn|].
  cbn [fst snd] in *.
  destruct (py_append_at_success dn i j) as (dn1 & H1 & Hl1).
  { rewrite Hdn, py_norm_in_range by done. eauto. }
  destruct (py_append_at_success dn1 j i) as (dn2 & H2 & Hl2).
  { rewrite Hl1, Hdn, py_norm_in_range by done. eauto. }
  destruct (IH dn2) as [dn' H3]; [congruence|].
  exists dn'. cbn [res_foldl dual_neighbors_step]. rewrite H1. cbn [res_bind].
  by rewrite H2.
Qed.

Lemma sort_clockwise_success (pts : list point) (vt : list Z) :
  Forall (fun v => 0 <= v < Z.of_nat (length pts)) vt ->
  exists sv, sort_clockwise pts vt = Ok sv.
Proof.
  intros H. destruct (select_points_success pts vt H) as [p Hp].
  unfold sort_clockwise. rewrite Hp. cbn [res_bind]. eauto.
Qed.

Lemma flt_sum_finite {A} (g : A -> Q) (l : list A) :
  forall acc : Q,
    foldl flt_add (F acc) (map (fun c => F (g c)) l)
    = F (foldl Qplus acc (map g l)).
Proof. induction l as [|c l IH]; intros acc; [done|]. cbn. apply IH. Qed.

Lemma mean_finite (xy : list (Q * Q)) :
  xy <> [] ->
  mean (map (fun c => pt (fst c) (snd c)) xy)
  = pt (foldl Qplus 0%Q (map fst xy) / inject_Z (Z.of_nat (length xy)))
       (foldl Qplus 0%Q (map snd xy) / inject_Z (Z.of_nat (length xy))).
Proof.
  intros Hne. unfold mean, pt, flt_sum.
  rewrite !map_map, length_map. cbn [fst snd].
  rewrite (flt_sum_finite fst xy 0%Q), (flt_sum_finite snd xy 0%Q).
  destruct xy; [done|]. reflexivity.
Qed.

Lemma dual_tables (T : Tiling) (acc : dual_acc) :
  res_foldl (dual_step T) (mkDual [] [] (replicate (npoints T) []))
    (range (ntiles T)) = Ok acc ->
  Forall2 (tile_centroid T) (seq 0 (ntiles T)) (dpoints acc) /\
  length (dvertices acc) = npoints T /\
  forall p, (p < npoints T)%nat ->
            dvertices acc !! p
            = Some (flat_map (incident T (npoints T) p) (seq 0 (ntiles T))).
Proof.
  intros H. apply dual_loop_inv in H as ((ps & Hps & Hp) & Hlen & Hdv).
  cbn [dpoints dvertices] in *. rewrite length_replicate in Hlen, Hdv.
  split; [by rewrite Hp|]. split; [done|].
  intros p Hlt. rewrite Hdv, lookup_replicate_2 by done. done.
Qed.

Lemma get_dual_returns (T : Tiling) :
  well_formed T -> (0 < ntiles T)%nat ->
  Forall (fun vt => vt <> []) (vertices T) ->
  exists D, get_dual T = Ok D.
Proof.
  intros Hwf Hpos Hne.
  destruct (dual_loop_success T (ntiles T) Hwf Hne 0%nat
              (mkDual [] [] (replicate (npoints T) []))) as [acc Hacc];
    [lia|apply length_replicate|].
  destruct Hwf as (Hc & Hnb & Hv & He).
  destruct (dual_neighbors_loop_success (npoints T) (edges T) He
              (replicate (npoints T) [])) as [dn Hdn];
    [apply length_replicate|].
  pose proof (dual_tables T acc Hacc) as (Hps & Hlen & Hdv).
  pose proof (Forall2_length _ _ _ Hps) as Hnp. rewrite length_seq in Hnp.
  destruct (res_map_success (sort_clockwise (dpoints acc)) (dvertices acc))
    as [svs Hsvs].
  { apply Forall_lookup_2. intros p dv Hp.
    apply sort_clockwise_success.
    assert (Hlt : (p < npoints T)%nat)
      by (rewrite <- Hlen; by eapply lookup_lt_Some).
    rewrite (Hdv p Hlt) in Hp. injection Hp as <-.
    apply Forall_forall. intros x Hx.
    apply elem_of_incidents in Hx as (t & _ & _ & -> & Ht & _). lia. }
  exists (mkTiling (dpoints acc) svs dn (dedges acc) (length svs)
            (length (dedges acc)) (length (dpoints acc))).
  unfold get_dual. unfold range in Hacc. fold (range (ntiles T)) in Hacc.
  rewrite Hacc. cbn [res_bind]. rewrite Hdn. cbn [res_bind].
  unfold Tiling_init. destruct (dpoints acc) as [|c cs] eqn:Hd.
  { simpl in Hnp. lia. }
  rewrite Hsvs. reflexivity.
Qed.

(** C5.  On a well-formed tiling with at least one tile and no tile
    without vertices [get_dual] returns a tiling [D] with one point per tile
    of [T], point [t] being the mean of the coordinates of the vertices of
    tile [t] ([mean_finite]: the sum of the coordinates divided by their
    number), and one tile per point of [T], the vertex list of tile [p]
    holding exactly the indices of the tiles of [T] that have [p] among
    their vertices. *)
Theorem dual_points_and_tiles (T : Tiling) :
  well_formed T ->
  (0 < ntiles T)%nat ->
  Forall (fun vt => vt <> []) (vertices T) ->
  exists D,
    get_dual T = Ok D /\
    npoints D = ntiles T /\ length (points D) = ntiles T /\
    (forall (t : nat) (vt : list Z),
        vertices T !! t = Some vt ->
        exists p,
          Forall2 (fun v q => points T !! Z.to_nat v = Some q) vt p /\
          points D !! t = Some (mean p)) /\
    ntiles D = npoints T /\ length (vertices D) = npoints T /\
    (forall (p : nat) (dv : list Z),
        vertices D !! p = Some dv ->
        forall x, x ∈ dv <->
                  exists (t : nat) vt,
                    x = Z.of_nat t /\ vertices T !! t = Some vt /\
                    Z.of_nat p ∈ vt).
Proof.
  intros Hwf Hpos Hne. destruct (get_dual_returns T Hwf Hpos Hne) as [D HD].
  exists D. split; [done|].
  destruct Hwf as ((Hnt & _ & Hnp) & _ & Hv & _).
  apply get_dual_inv in HD as (acc & dn & Hacc & _ & Hinit).
  apply Tiling_init_given_inv in Hinit as (svs & Hsvs & ->).
  cbn [npoints points ntiles vertices].
  pose proof (dual_tables T acc Hacc) as (Hps & Hlen & Hdv).
  pose proof (Forall2_length _ _ _ Hps) as Hlp. rewrite length_seq in Hlp.
  pose proof (res_map_length _ _ _ Hsvs) as Hls.
  split; [done|]. split; [done|]. split; [|split; [congruence|split; [congruence|]]].
  - intros t vt Hvt.
    assert (Ht : (t < ntiles T)%nat)
      by (rewrite Hnt; by eapply lookup_lt_Some).
    destruct (Forall2_lookup_l _ _ _ t t Hps) as (c & Hc & (vt' & p & Hvt' & Hp & ->)).
    { apply lookup_seq. lia. }
    assert (vt' = vt) as -> by congruence.
    exists p. split; [|done].
    apply res_map_Forall2 in Hp.
    pose proof (Forall_lookup_1 _ _ _ _ Hv Hvt) as Hr.
    clear -Hp Hr Hnp. induction Hp as [|v q vt p Hq _ IH]; [constructor|].
    apply Forall_cons in Hr as [Hvr Hr]. constructor; [|by apply IH].
    destruct (py_get_in_range (points T) v) as (q' & Hq' & Hl); [lia|].
    congruence.
  - intros p dv Hdvp x.
    apply res_map_Forall2 in Hsvs.
    destruct (Forall2_lookup_r _ _ _ p dv Hsvs Hdvp) as (dv0 & Hdv0 & Hsort).
    assert (Hlt : (p < npoints T)%nat)
      by (rewrite <- Hlen; by eapply lookup_lt_Some).
    rewrite (Hdv p Hlt) in Hdv0. injection Hdv0 as <-.
    rewrite (sort_clockwise_perm _ _ _ Hsort), elem_of_incidents.
    split.
    + intros (t & vt & v & -> & _ & Hvt & Hin & Hnorm).
      exists t, vt. split; [done|]. split; [done|].
      pose proof (Forall_lookup_1 _ _ _ _ Hv Hvt) as Hr.
      rewrite Forall_forall in Hr. specialize (Hr v Hin).
      rewrite py_norm_in_range in Hnorm by done. injection Hnorm as <-.
      by rewrite Z2Nat.id by lia.
    + intros (t & vt & -> & Hvt & Hin).
      exists t, vt, (Z.of_nat p). split; [done|]. split.
      { rewrite Hnt. by eapply lookup_lt_Some. }
      split; [done|]. split; [done|].
      rewrite py_norm_in_range by lia. by rewrite Nat2Z.id.
Qed.

Lemma star_well_formed : well_formed star.
Proof.
  split; [by repeat split|]. split; [done|].
  split; repeat (apply Forall_cons; split); try apply Forall_nil; cbn; lia.
Qed.

Lemma dual_points_and_tiles_witness :
  exists D,
    get_dual star = Ok D /\
    npoints D = ntiles star /\ length (points D) = ntiles star /\
    (forall (t : nat) (vt : list Z),
        vertices star !! t = Some vt ->
        exists p,
          Forall2 (fun v q => points star !! Z.to_nat v = Some q) vt p /\
          points D !! t = Some (mean p)) /\
    ntiles D = npoints star /\ length (vertices D) = npoints star /\
    (forall (p : nat) (dv : list Z),
        vertices D !! p = Some dv ->
        forall x, x ∈ dv <->
                  exists (t : nat) vt,
                    x = Z.of_nat t /\ vertices star !! t = Some vt /\
                    Z.of_nat p ∈ vt).
Proof.
  apply (dual_points_and_tiles star).
  - split; [by repeat split|]. split; [done|].
    split; repeat (apply Forall_cons; split); try apply Forall_nil; cbn; lia.
  - cbn. lia.
  - cbn. repeat constructor; discriminate.
Defined.

(** C5 as stated, for every tiling, does not hold.  [bare_square] is the
    tiling that the constructor returns for the four points of the square
    and no tile: it is well formed, and [get_dual] ends in the
    [AssertionError] of the constructor, which is handed no point.
    [lone_triangle_dual] is the tiling that [get_dual] returns for the
    square with one triangle: it is well formed and has four tiles, and
    [get_dual] raises [IndexError] on it when it reaches the tile without
    vertices. *)
Lemma get_dual_not_total :
  Tiling_init square_points (Given [] [] []) = Ok bare_square /\
  well_formed bare_square /\
  get_dual bare_square = Raise AssertionError /\
  Tiling_init square_points
    (Given [[0; 1; 2]] [[-1; -1; -1]] [(0, 1); (1, 2); (0, 2)])
  = Ok lone_triangle /\
  get_dual lone_triangle = Ok lone_triangle_dual /\
  well_formed lone_triangle_dual /\
  (0 < ntiles lone_triangle_dual)%nat /\
  get_dual lone_triangle_dual = Raise IndexError.
Proof.
  assert (Hwf : forall T,
             counted T -> length (neighbors T) = ntiles T ->
             Forall (Forall (fun v => 0 <= v < Z.of_nat (npoints T))) (vertices T) ->
             edges T = [] -> well_formed T).
  { intros T Hc Hn Hv He. repeat split; try apply Hc; try done.
    rewrite He. constructor. }
  split; [reflexivity|]. split.
  { apply Hwf; first [done | by repeat split | constructor]. }
  split; [reflexivity|]. split; [vm_compute; reflexivity|].
  split; [vm_compute; reflexivity|]. split.
  { apply Hwf;
      first [done | by repeat split | cbn; repeat constructor; lia]. }
  split; [cbn; lia|]. vm_compute. reflexivity.
Qed.

(** ** The store: what a computation leaves alone *)

Lemma safe_ret {A} (n : nat) (a : A) (Q : A -> Prop) :
  Q a -> safe n (h_ret a) Q.
Proof. intros HQ h Hn Hc. by cbn. Qed.

Lemma safe_lift {A} (n : nat) (r : res A) :
  safe n (h_lift r) (fun _ => True).
Proof. intros h Hn Hc. cbn. repeat split; try done. by destruct r. Qed.

Lemma safe_weaken {A} (n : nat) (m : H A) (P Q : A -> Prop) :
  safe n m P -> (forall a, P a -> Q a) -> safe n m Q.
Proof.
  intros Hm HPQ h Hn Hc. destruct (Hm h Hn Hc) as (Ht & Hl & Hc' & Hr).
  repeat split; try done. destruct (fst (m h)); [by apply HPQ|done].
Qed.

Lemma safe_bind {A B} (n : nat) (m : H A) (k : A -> H B)
    (P : A -> Prop) (Q : B -> Prop) :
  safe n m P -> (forall a, P a -> safe n (k a) Q) -> safe n (h_bind m k) Q.
Proof.
  intros Hm Hk h Hn Hc. destruct (Hm h Hn Hc) as (Ht & Hl & Hc' & Hr).
  unfold h_bind. destruct (m h) as [[a|e] h']; cbn [fst snd] in *.
  - destruct (Hk a Hr h') as (Ht2 & Hl2 & Hc2 & Hr2); [lia|done|].
    repeat split; try done; [congruence|lia].
  - by repeat split.
Qed.

Lemma safe_alloc (n : nat) (c : cell) :
  Forall (fun r => (n <= r)%nat) (cell_refs c) ->
  safe n (alloc c) (fun l => (n <= l)%nat).
Proof.
  intros Hrefs h Hn Hc. unfold alloc. cbn [fst snd]. rewrite length_app.
  cbn [length]. repeat split; [|lia| |done].
  - by rewrite take_app_le.
  - intros l c' Hl Hlook.
    destruct (decide (l < length h)%nat) as [Hlt|Hge].
    + rewrite lookup_app_l in Hlook by done. by eapply Hc.
    + rewrite lookup_app_r in Hlook by lia.
      destruct (l - length h)%nat; [|done]. by injection Hlook as <-.
Qed.

Lemma safe_load (n : nat) (l : loc) :
  safe n (load l)
    (fun c => (n <= l)%nat -> Forall (fun r => (n <= r)%nat) (cell_refs c)).
Proof.
  intros h Hn Hc. unfold load. destruct (h !! l) as [c|] eqn:Hl; cbn.
  - repeat split; try done. intros Hnl. by eapply Hc.
  - by repeat split.
Qed.

Lemma safe_store (n : nat) (l : loc) (c : cell) :
  (n <= l)%nat ->
  Forall (fun r => (n <= r)%nat) (cell_refs c) ->
  safe n (store l c) (fun _ => True).
Proof.
  intros Hnl Hrefs h Hn Hc. unfold store.
  destruct (decide (l < length h)%nat) as [Hlt|Hge]; cbn [fst snd].
  2:{ by repeat split. }
  rewrite length_insert. split; [|split; [lia|split; [|done]]].
  - by rewrite take_insert_ge.
  - intros l' c' Hl' Hlook.
    destruct (decide (l' = l)) as [->|Hne].
    + rewrite list_lookup_insert_eq in Hlook by done. by injection Hlook as <-.
    + rewrite list_lookup_insert_ne in Hlook by done. by eapply Hc.
Qed.

Lemma safe_for {A} (n : nat) (xs : list A) (body : A -> H unit) :
  (forall x, safe n (body x) (fun _ => True)) ->
  safe n (h_for xs body) (fun _ => True).
Proof.
  intros Hbody. induction xs as [|x xs IH]; cbn [h_for].
  - by apply safe_ret.
  - eapply safe_bind; [apply Hbody|]. intros _ _. exact IH.
Qed.

Lemma safe_map {A B} (n : nat) (f : A -> H B) (P : A -> Prop) (Q : B -> Prop)
    (xs : list A) :
  (forall x, P x -> safe n (f x) Q) ->
  Forall P xs ->
  safe n (h_map f xs) (Forall Q).
Proof.
  intros Hf. induction 1 as [|x xs Hx _ IH]; cbn [h_map].
  - by apply safe_ret.
  - eapply safe_bind; [by apply Hf|]. intros y Hy.
    eapply safe_bind; [exact IH|]. intros ys Hys.
    apply safe_ret. by constructor.
Qed.

Lemma safe_lift_post {A} (n : nat) (r : res A) (Q : A -> Prop) :
  (forall a, r = Ok a -> Q a) -> safe n (h_lift r) Q.
Proof.
  intros HQ h Hn Hc. cbn. repeat split; try done.
  destruct r; [by apply HQ|done].
Qed.

Lemma fresh_value_elem (n : nat) (items : list value) (v : value) :
  Forall (fun r => (n <= r)%nat) (flat_map value_refs items) ->
  v ∈ items -> fresh_value n v.
Proof.
  intros Hall Hv. unfold fresh_value. rewrite Forall_forall in *.
  intros r Hr. apply Hall. apply list_elem_of_In, in_flat_map.
  exists v. split; by apply list_elem_of_In.
Qed.

Lemma fresh_values_items (n : nat) (items : list value) :
  Forall (fun r => (n <= r)%nat) (flat_map value_refs items) <->
  Forall (fresh_value n) items.
Proof.
  induction items as [|v items IH]; cbn [flat_map].
  - split; constructor.
  - rewrite Forall_app, Forall_cons, IH. done.
Qed.

Lemma py_get_elem {A} (l : list A) (i : Z) (x : A) :
  py_get l i = Ok x -> x ∈ l.
Proof.
  intros H. apply py_get_Ok in H as (k & _ & Hk). by eapply list_elem_of_lookup_2.
Qed.

Lemma safe_list_get (n : nat) (l : loc) (i : Z) :
  safe n (list_get l i) (fun v => (n <= l)%nat -> fresh_value n v).
Proof.
  eapply safe_bind; [apply safe_load|]. intros c Hc.
  destruct c as [items| | | |]; try (apply safe_lift_post; discriminate).
  apply safe_lift_post. intros v Hv Hl.
  eapply fresh_value_elem; [by apply Hc|by eapply py_get_elem].
Qed.

Lemma safe_list_items (n : nat) (l : loc) :
  safe n (list_items l) (fun items => (n <= l)%nat -> Forall (fresh_value n) items).
Proof.
  eapply safe_bind; [apply safe_load|]. intros c Hc.
  destruct c as [items| | | |]; try (apply safe_lift_post; discriminate).
  apply safe_ret. intros Hl. by apply fresh_values_items, Hc.
Qed.

Lemma safe_list_append (n : nat) (l : loc) (v : value) :
  (n <= l)%nat -> fresh_value n v ->
  safe n (list_append l v) (fun _ => True).
Proof.
  intros Hl Hv. eapply safe_bind; [apply safe_load|]. intros c Hc.
  destruct c as [items| | | |]; try apply safe_lift.
  apply safe_store; [done|]. cbn [cell_refs]. rewrite flat_map_app.
  apply Forall_app. split; [by apply Hc|]. cbn. by rewrite app_nil_r.
Qed.

Lemma safe_seq_ints (n : nat) (l : loc) :
  safe n (seq_ints l) (fun _ => True).
Proof.
  eapply safe_bind; [apply safe_load|]. intros c _.
  destruct c; first [apply safe_lift | by apply safe_ret].
Qed.

Lemma safe_load_floats (n : nat) (l : loc) :
  safe n (load_floats l) (fun _ => True).
Proof.
  eapply safe_bind; [apply safe_load|]. intros c _.
  destruct c; first [apply safe_lift | by apply safe_ret].
Qed.

Lemma safe_load_pairs (n : nat) (l : loc) :
  safe n (load_pairs l) (fun _ => True).
Proof.
  eapply safe_bind; [apply safe_load|]. intros c _.
  destruct c; first [apply safe_lift | by apply safe_ret].
Qed.

Lemma safe_as_ref (n : nat) (v : value) :
  fresh_value n v -> safe n (h_lift (as_ref v)) (fun l => (n <= l)%nat).
Proof.
  intros Hv. apply safe_lift_post. intros l Hl.
  destruct v; try discriminate. injection Hl as <-.
  by apply Forall_cons in Hv as [Hv _].
Qed.

Lemma safe_new_empty_lists (n k : nat) :
  safe n (new_empty_lists k) (Forall (fresh_value n)).
Proof.
  induction k as [|k IH]; cbn [new_empty_lists].
  - by apply safe_ret.
  - eapply safe_bind; [by apply safe_alloc|]. intros l Hl.
    eapply safe_bind; [exact IH|]. intros ls Hls.
    apply safe_ret. constructor; [|done]. by repeat constructor.
Qed.

Lemma safe_new_list_of_lists (n k : nat) :
  safe n (new_list_of_lists k) (fun l => (n <= l)%nat).
Proof.
  eapply safe_bind; [apply safe_new_empty_lists|]. intros ls Hls.
  apply safe_alloc. by apply fresh_values_items.
Qed.

Lemma safe_sort_clockwise_h (n : nat) (pl vl : loc) :
  safe n (sort_clockwise_h pl vl) (fun l => (n <= l)%nat).
Proof.
  eapply safe_bind; [apply safe_load_floats|]. intros pts _.
  eapply safe_bind; [apply safe_seq_ints|]. intros vs _.
  eapply safe_bind; [apply safe_lift|]. intros sv _.
  by apply safe_alloc.
Qed.

Lemma safe_read_pair (n : nat) (v : value) :
  safe n (read_pair v) (fun _ => True).
Proof.
  eapply safe_bind; [apply safe_lift|]. intros l _.
  eapply safe_bind; [apply safe_list_items|]. intros items _.
  destruct items as [|[a| |] [|[b| |] [|? ?]]];
    first [apply safe_lift | by apply safe_ret].
Qed.

Lemma safe_Tiling_new (n : nat) (pl vl nl el : loc) :
  (n <= vl)%nat -> (n <= nl)%nat ->
  safe n (Tiling_new pl vl nl el) (fun l => (n <= l)%nat).
Proof.
  intros Hvl Hnl.
  eapply safe_bind; [apply safe_list_items|]. intros pvals _.
  eapply safe_bind; [apply safe_lift|]. intros pts _.
  eapply safe_bind; [by apply safe_alloc|]. intros self_points Hsp.
  destruct pts as [|p pts]; [apply safe_lift_post; discriminate|].
  eapply safe_bind; [apply safe_list_items|]. intros vrefs Hvrefs.
  eapply safe_bind.
  { apply (safe_map n _ (fresh_value n) (fresh_value n)); [|by apply Hvrefs].
    intros v Hv.
    eapply safe_bind; [by apply safe_as_ref|]. intros l Hl.
    eapply safe_bind; [apply safe_sort_clockwise_h|]. intros sv Hsv.
    apply safe_ret. by repeat constructor. }
  intros sorted Hsorted.
  eapply safe_bind; [by apply safe_alloc, fresh_values_items|].
  intros self_vertices Hsv.
  eapply safe_bind; [apply safe_list_items|]. intros evals _.
  eapply safe_bind.
  { apply (safe_map n _ (fun _ => True) (fun _ => True));
      [intros v _; apply safe_read_pair|]. by apply Forall_forall. }
  intros es _.
  eapply safe_bind; [by apply safe_alloc|]. intros self_edges Hse.
  apply safe_alloc. cbn [cell_refs]. by repeat constructor.
Qed.

Lemma safe_get_dual_h (n : nat) (self : loc) :
  safe n (get_dual_h self) (fun d => (n <= d)%nat).
Proof.
  eapply safe_bind; [apply safe_load|]. intros c _.
  destruct c as [| | | |s_points s_vertices s_neighbors s_edges s_ntiles s_nedges
                         s_npoints];
    try (apply safe_lift_post; discriminate).
  eapply safe_bind; [by apply safe_alloc|]. intros dpoints Hdp.
  eapply safe_bind; [by apply safe_alloc|]. intros dedges Hde.
  eapply safe_bind; [apply safe_new_list_of_lists|]. intros dneighbors Hdn.
  eapply safe_bind; [apply safe_new_list_of_lists|]. intros dvertices Hdv.
  eapply safe_bind.
  { apply safe_for. intros t.
    eapply safe_bind; [apply safe_list_get|]. intros vt_ref _.
    eapply safe_bind; [apply safe_lift|]. intros vt_l _.
    eapply safe_bind; [apply safe_seq_ints|]. intros vt _.
    eapply safe_bind; [apply safe_load_floats|]. intros pts _.
    eapply safe_bind; [apply safe_lift|]. intros p _.
    eapply safe_bind; [apply safe_list_append; [done|constructor]|]. intros _ _.
    eapply safe_bind; [apply safe_list_get|]. intros nt_ref _.
    eapply safe_bind; [apply safe_lift|]. intros nt_l _.
    eapply safe_bind; [apply safe_seq_ints|]. intros nt _.
    eapply safe_bind.
    { apply safe_for. intros k.
      destruct ((0 <=? k) && (k <? t)); [|by apply safe_ret].
      eapply safe_bind; [by apply safe_alloc|]. intros pair Hpair.
      apply safe_list_append; [done|]. by repeat constructor. }
    intros _ _. apply safe_for. intros v.
    eapply safe_bind; [apply safe_list_get|]. intros dv Hdvv.
    eapply safe_bind; [by apply safe_as_ref, Hdvv|]. intros dv_l Hdvl.
    apply safe_list_append; [done|constructor]. }
  intros _ _.
  eapply safe_bind; [apply safe_load_pairs|]. intros es _.
  eapply safe_bind.
  { apply safe_for. intros [i j].
    eapply safe_bind; [apply safe_list_get|]. intros di Hdi.
    eapply safe_bind; [by apply safe_as_ref, Hdi|]. intros di_l Hdil.
    eapply safe_bind; [apply safe_list_append; [done|constructor]|]. intros _ _.
    eapply safe_bind; [apply safe_list_get|]. intros dj Hdj.
    eapply safe_bind; [by apply safe_as_ref, Hdj|]. intros dj_l Hdjl.
    apply safe_list_append; [done|constructor]. }
  intros _ _. by apply safe_Tiling_new.
Qed.

(** ** What the dual shares with its receiver *)

Lemma reachable_closed (n : nat) (h : heap) (l l' : loc) :
  closed n h -> (n <= l)%nat -> reachable h l l' -> (n <= l')%nat.
Proof.
  intros Hc Hl Hr. induction Hr as [l|l r l' c Hlook Hin _ IH]; [done|].
  apply IH. pose proof (Hc l c Hl Hlook) as Hall.
  rewrite Forall_forall in Hall. by apply Hall.
Qed.

Lemma reachable_old (h h' : heap) (l l' : loc) :
  wf_heap h ->
  (forall k, (k < length h)%nat -> h' !! k = h !! k) ->
  (l < length h)%nat -> reachable h' l l' -> (l' < length h)%nat.
Proof.
  intros Hwf Hsame Hl Hr. induction Hr as [l|l r l' c Hlook Hin _ IH]; [done|].
  apply IH. rewrite (Hsame l Hl) in Hlook.
  pose proof (Hwf l c Hlook) as Hall. rewrite Forall_forall in Hall.
  by apply Hall.
Qed.

Lemma res_map_ext_in {A B} (f g : A -> res B) (l : list A) :
  (forall x, x ∈ l -> f x = g x) -> res_map f l = res_map g l.
Proof.
  induction l as [|x l IH]; intros Hfg; [done|]. cbn [res_map].
  rewrite (Hfg x) by apply list_elem_of_here.
  rewrite IH; [done|]. intros y Hy. apply Hfg. by apply list_elem_of_further.
Qed.

Lemma seq_ints_same (h h' : heap) (l : loc) :
  h' !! l = h !! l -> fst (seq_ints l h') = fst (seq_ints l h).
Proof.
  intros Hl. unfold seq_ints, h_bind, load. rewrite Hl.
  destruct (h !! l) as [[]|]; reflexivity.
Qed.

Lemma read_seqs_same (h h' : heap) (l : loc) :
  wf_heap h ->
  (forall k, (k < length h)%nat -> h' !! k = h !! k) ->
  (l < length h)%nat ->
  read_seqs h' l = read_seqs h l.
Proof.
  intros Hwf Hsame Hl. unfold read_seqs. rewrite (Hsame l Hl).
  destruct (h !! l) as [[items| | | |]|] eqn:Hlook; try done.
  apply res_map_ext_in. intros v Hv.
  destruct v as [| |r]; try done. cbn [as_ref res_bind].
  apply seq_ints_same, Hsame.
  pose proof (Hwf l _ Hlook) as Hall. rewrite Forall_forall in Hall.
  apply Hall. cbn [cell_refs]. apply list_elem_of_In, in_flat_map.
  exists (VRef r). split; [by apply list_elem_of_In|by left].
Qed.

Lemma read_tiling_same (h h' : heap) (l : loc) :
  wf_heap h ->
  (forall k, (k < length h)%nat -> h' !! k = h !! k) ->
  (l < length h)%nat ->
  read_tiling h' l = read_tiling h l.
Proof.
  intros Hwf Hsame Hl. unfold read_tiling. rewrite (Hsame l Hl).
  destruct (h !! l) as [[| | | |pl vl nl el nt ne np]|] eqn:Hlook; try done.
  pose proof (Hwf l _ Hlook) as Hall. cbn [cell_refs] in Hall.
  apply Forall_cons in Hall as [Hpl Hall].
  apply Forall_cons in Hall as [Hvl Hall].
  apply Forall_cons in Hall as [Hnl Hall].
  apply Forall_cons in Hall as [Hel _].
  unfold load_floats, load_pairs, h_bind, load.
  rewrite (Hsame pl Hpl), (Hsame el Hel).
  rewrite !(read_seqs_same h h') by done.
  destruct (h !! pl) as [[]|], (h !! el) as [[]|]; reflexivity.
Qed.

(** C9.  Run on a store without dangling references, [get_dual] changes no
    cell that was there, so the receiver reads back as the same tiling
    (points, vertices, neighbors, edges and the three counts); and when it
    returns, the dual is a new object from which no object reachable from
    the receiver can be reached. *)
Theorem get_dual_shares_nothing (h : heap) (self : loc) :
  wf_heap h ->
  (self < length h)%nat ->
  (forall l, (l < length h)%nat -> snd (get_dual_h self h) !! l = h !! l) /\
  read_tiling (snd (get_dual_h self h)) self = read_tiling h self /\
  match fst (get_dual_h self h) with
  | Ok d =>
      (length h <= d)%nat /\
      forall l, reachable (snd (get_dual_h self h)) d l ->
                ~ reachable (snd (get_dual_h self h)) self l
  | Raise _ => True
  end.
Proof.
  intros Hwf Hself.
  destruct (safe_get_dual_h (length h) self h) as (Htake & Hlen & Hclosed & Hres).
  { done. }
  { intros l c Hl Hlook. apply lookup_lt_Some in Hlook. lia. }
  set (h' := snd (get_dual_h self h)) in *.
  assert (Hsame : forall l, (l < length h)%nat -> h' !! l = h !! l).
  { intros l Hl. rewrite <- (lookup_take_lt h' (length h) l) by done.
    rewrite Htake. by rewrite firstn_all. }
  split; [done|]. split; [by apply read_tiling_same|].
  destruct (fst (get_dual_h self h)) as [d|]; [|done].
  split; [done|]. intros l Hd Hs.
  pose proof (reachable_closed _ _ _ _ Hclosed Hres Hd).
  pose proof (reachable_old _ _ _ _ Hwf Hsame Hself Hs). lia.
Qed.

Lemma wf_heap_Forall (h : heap) :
  Forall (fun c => Forall (fun r => (r < length h)%nat) (cell_refs c)) h ->
  wf_heap h.
Proof. intros Hall l c Hl. exact (Forall_lookup_1 _ _ _ _ Hall Hl). Qed.

Lemma star_heap_wf : wf_heap star_heap.
Proof.
  apply wf_heap_Forall. vm_compute.
  repeat (apply Forall_cons; split); try apply Forall_nil; lia.
Qed.

(** On the store that holds [star], the method over the store returns the
    tiling that the method over values returns. *)
Lemma star_dual_in_store :
  read_tiling star_heap star_loc = Ok star /\
  fst (get_dual_h star_loc star_heap) = Ok 53%nat /\
  read_tiling (snd (get_dual_h star_loc star_heap)) 53%nat = Ok star_dual.
Proof. split; [|split]; vm_compute; reflexivity. Qed.

Lemma get_dual_shares_nothing_witness :
  (forall l, (l < length star_heap)%nat ->
             snd (get_dual_h star_loc star_heap) !! l = star_heap !! l) /\
  read_tiling (snd (get_dual_h star_loc star_heap)) star_loc
  = read_tiling star_heap star_loc /\
  match fst (get_dual_h star_loc star_heap) with
  | Ok d =>
      (length star_heap <= d)%nat /\
      forall l, reachable (snd (get_dual_h star_loc star_heap)) d l ->
                ~ reachable (snd (get_dual_h star_loc star_heap)) star_loc l
  | Raise _ => True
  end.
Proof.
  apply (get_dual_shares_nothing star_heap star_loc).
  - apply star_heap_wf.
  - vm_compute. lia.
Defined.

(** * Further properties *)

(** ** [sort_clockwise]: errors *)

Lemma py_norm_Some_iff (len : nat) (i : Z) :
  is_Some (py_norm len i) <-> in_range len i.
Proof.
  unfold py_norm, in_range.
  destruct (Z.leb_spec 0 i), (Z.ltb_spec i (Z.of_nat len)),
    (Z.leb_spec (- Z.of_nat len) i), (Z.ltb_spec i 0); cbn;
    split; intros H; try lia; try (by eexists); by destruct H.
Qed.

Lemma py_get_returns_iff {A} (l : list A) (i : Z) :
  (exists x, py_get l i = Ok x) <-> in_range (length l) i.
Proof.
  rewrite <- py_norm_Some_iff. unfold py_get. split.
  - intros [x Hx]. destruct (py_norm (length l) i); [by eexists|discriminate].
  - intros [k Hk]. rewrite Hk.
    destruct (lookup_lt_is_Some_2 l k (py_norm_lt _ _ _ Hk)) as [x ->]. eauto.
Qed.

Lemma py_get_raises {A} (l : list A) (i : Z) (e : exn) :
  py_get l i = Raise e -> e = IndexError.
Proof.
  unfold py_get. destruct (py_norm (length l) i) as [k|]; [|by intros [= <-]].
  destruct (l !! k); [discriminate|by intros [= <-]].
Qed.

Lemma res_map_raises {A B} (f : A -> res B) (l : list A) (e : exn) :
  res_map f l = Raise e -> exists x, x ∈ l /\ f x = Raise e.
Proof.
  induction l as [|x l IH]; [discriminate|]. cbn [res_map].
  destruct (f x) as [y|e'] eqn:Hx; cbn [res_bind].
  - destruct (res_map f l) as [ys|e'']; [discriminate|]. cbn [res_bind].
    intros [= <-]. destruct IH as (x' & Hin & Hx'); [done|].
    exists x'. split; [by apply list_elem_of_further|done].
  - intros [= <-]. exists x. split; [apply list_elem_of_here|done].
Qed.

Lemma res_map_Ok_each {A B} (f : A -> res B) (l : list A) (l' : list B) :
  res_map f l = Ok l' -> Forall (fun x => exists y, f x = Ok y) l.
Proof.
  revert l'. induction l as [|x l IH]; intros l'; [constructor|].
  cbn [res_map]. destruct (f x) as [y|] eqn:Hx; [|discriminate].
  cbn [res_bind]. destruct (res_map f l) as [ys|]; [|discriminate].
  intros _. constructor; [eauto|by eapply IH].
Qed.

Lemma sort_clockwise_returns (pts : list point) (vs : list Z) :
  ((exists sv, sort_clockwise pts vs = Ok sv) <->
   Forall (in_range (length pts)) vs) /\
  (forall e, sort_clockwise pts vs = Raise e -> e = IndexError).
Proof.
  split; [split|].
  - intros [sv Hs]. unfold sort_clockwise in Hs.
    destruct (res_map (py_get pts) vs) as [p|] eqn:Hp; [|discriminate].
    apply res_map_Ok_each in Hp. eapply Forall_impl; [exact Hp|].
    intros v Hv. by apply py_get_returns_iff.
  - intros Hall.
    destruct (res_map_success (py_get pts) vs) as [p Hp].
    { eapply Forall_impl; [exact Hall|]. intros v Hv.
      by apply py_get_returns_iff. }
    unfold sort_clockwise. rewrite Hp. cbn [res_bind]. eauto.
  - intros e. unfold sort_clockwise.
    destruct (res_map (py_get pts) vs) as [p|e'] eqn:Hp; [discriminate|].
    cbn [res_bind]. intros [= <-].
    apply res_map_raises in Hp as (v & _ & Hv). by eapply py_get_raises.
Qed.

(** X2.  [sort_clockwise] returns exactly when every vertex names a point
    (an index from [-npoints] up to, not including, [npoints]), and
    otherwise raises [IndexError]. *)
Theorem sort_clockwise_returns_iff (pts : list point) (vs : list Z) :
  ((exists sv, sort_clockwise pts vs = Ok sv) <->
   Forall (in_range (length pts)) vs) /\
  (forall e, sort_clockwise pts vs = Raise e -> e = IndexError).
Proof. apply sort_clockwise_returns. Qed.

(** ** [sort_clockwise]: the order of the result *)

Section InsertionSorted.
Context {A : Type} (le : A -> A -> bool).
Hypothesis le_total : forall a b, le a b = false -> le b a = true.
Hypothesis le_trans : forall a b c, le a b = true -> le b c = true -> le a c = true.

Lemma insert_sorted_StronglySorted (x : A) (l : list A) :
  StronglySorted (fun a b => le a b = true) l ->
  StronglySorted (fun a b => le a b = true) (insert_sorted le x l).
Proof.
  induction 1 as [|y l Hl IH Hy]; cbn [insert_sorted].
  - by repeat constructor.
  - destruct (le x y) eqn:Hxy.
    + constructor; [by constructor|]. constructor; [done|].
      eapply Forall_impl; [exact Hy|]. intros z Hz. by eapply le_trans.
    + constructor; [done|]. rewrite insert_sorted_perm.
      constructor; [by apply le_total|done].
Qed.

Lemma insertion_sort_StronglySorted (l : list A) :
  StronglySorted (fun a b => le a b = true) (insertion_sort le l).
Proof.
  induction l as [|x l IH]; [constructor|].
  unfold insertion_sort in *. cbn [foldr]. by apply insert_sorted_StronglySorted.
Qed.

End InsertionSorted.

Lemma flt_le_total (a b : flt) : flt_le a b = false -> flt_le b a = true.
Proof.
  destruct a as [x|], b as [y|]; cbn; try done.
  intros H. apply Qle_bool_iff. apply Qlt_le_weak, Qnot_le_lt.
  intros Hle. apply Qle_bool_iff in Hle. congruence.
Qed.

Lemma flt_le_trans (a b c : flt) :
  flt_le a b = true -> flt_le b c = true -> flt_le a c = true.
Proof.
  destruct a as [x|], b as [y|], c as [z|]; cbn; try done.
  rewrite !Qle_bool_iff. apply Qle_trans.
Qed.

Lemma StronglySorted_map_fst {A B} (R : A -> A -> Prop) (l : list (A * B)) :
  StronglySorted (fun a b => R (fst a) (fst b)) l ->
  StronglySorted R (map fst l).
Proof.
  induction 1 as [|x l _ IH Hx]; cbn [map]; constructor; [done|].
  apply Forall_forall. intros k Hk.
  apply list_elem_of_fmap in Hk as (y & -> & Hy).
  rewrite Forall_forall in Hx. by apply Hx.
Qed.

Lemma keys_of_positions (pts : list point) (c : point) (vs : list Z)
    (L : list (flt * nat)) :
  Forall (fun ki => exists v, vs !! snd ki = Some v /\ angle_key pts c v = fst ki) L ->
  map (angle_key pts c) (take_positions vs (map snd L)) = map fst L.
Proof.
  unfold take_positions. induction 1 as [|[k i] L (v & Hv & Hk) _ IH]; [done|].
  cbn [map fst snd] in *.
  change (omap ?f (?i :: ?l)) with
    (match f i with Some y => y :: omap f l | None => omap f l end).
  cbn beta. rewrite Hv. cbn [map]. by rewrite Hk, IH.
Qed.

Lemma zip_seq_lookup {A} (keys : list A) (a : nat) (k : A) (i : nat) :
  (k, i) ∈ zip keys (seq a (length keys)) ->
  exists j, i = (a + j)%nat /\ keys !! j = Some k.
Proof.
  revert a. induction keys as [|k0 keys IH]; intros a; cbn [length seq zip zip_with].
  - by intros ?%elem_of_nil.
  - intros [[= -> ->]|Hin]%elem_of_cons.
    + exists 0%nat. split; [lia|done].
    + destruct (IH (S a) Hin) as (j & -> & Hj). exists (S j). split; [lia|done].
Qed.

(** X3.  The result of [sort_clockwise] lists the vertices in ascending order
    of the angle of their offset from the mean of the selected points. *)
Theorem sort_clockwise_sorted (pts : list point) (vs sv : list Z) :
  sort_clockwise pts vs = Ok sv ->
  exists p,
    res_map (py_get pts) vs = Ok p /\
    StronglySorted (fun a b => flt_le a b = true)
      (map (angle_key pts (mean p)) sv).
Proof.
  unfold sort_clockwise.
  destruct (res_map (py_get pts) vs) as [p|] eqn:Hp; [|discriminate].
  cbn [res_bind]. intros [= <-]. exists p. split; [done|].
  unfold argsort.
  set (keys := map _ (map _ p)).
  set (L := insertion_sort _ _).
  rewrite (keys_of_positions pts (mean p) vs L).
  - apply StronglySorted_map_fst. subst L.
    apply insertion_sort_StronglySorted.
    + intros a b. apply flt_le_total.
    + intros a b c. apply flt_le_trans.
  - apply Forall_forall. intros [k i] Hin. subst L.
    rewrite insertion_sort_perm in Hin.
    apply zip_seq_lookup in Hin as (j & -> & Hj). cbn [fst snd Nat.add].
    subst keys. rewrite !list_lookup_fmap in Hj.
    destruct (p !! j) as [q|] eqn:Hq; [|discriminate]. cbn in Hj.
    injection Hj as <-.
    apply res_map_Forall2 in Hp.
    destruct (Forall2_lookup_r _ _ _ _ _ Hp Hq) as (v & Hv & Hget).
    exists v. split; [done|]. unfold angle_key. by rewrite Hget.
Qed.

(** ** [get_edges_of_tile] *)

Lemma py_get_last_app {A} (l : list A) (z : A) :
  py_get (l ++ [z]) (-1) = Ok z.
Proof.
  unfold py_get. rewrite py_norm_minus_one.
  rewrite py_norm_in_range by (rewrite length_app; cbn [length]; lia).
  replace (Z.to_nat (Z.of_nat (length (l ++ [z])) - 1)) with (length l)
    by (rewrite length_app; cbn [length]; lia).
  by rewrite list_lookup_middle.
Qed.

(** X5.  The edges of a tile are the sides of the closed cycle through its
    vertices: as many as vertices, each vertex once as first and once as
    second endpoint, the last edge leading back to the first vertex.  A
    tile without vertices raises [IndexError]. *)
Theorem get_edges_of_tile_cycle :
  get_edges_of_tile [] = Raise IndexError /\
  forall (x : Z) (l : list Z),
    exists es,
      get_edges_of_tile (x :: l) = Ok es /\
      map fst es = x :: l /\
      map snd es = l ++ [x].
Proof.
  split; [reflexivity|]. intros x l.
  destruct (exists_last (l := x :: l)) as (l' & z & Hlz); [done|].
  assert (Hlen : length l' = length l).
  { apply (f_equal length) in Hlz. rewrite length_app in Hlz.
    cbn [length] in Hlz. lia. }
  exists (zip l' l ++ [(z, x)]). split.
  - assert (Hr : removelast (x :: l) = l')
      by (rewrite Hlz; apply removelast_last).
    assert (Hg : py_get (x :: l) (-1) = Ok z)
      by (rewrite Hlz; apply py_get_last_app).
    unfold get_edges_of_tile. rewrite Hr, Hg. reflexivity.
  - rewrite !map_app. cbn [map fst snd].
    rewrite fst_zip, snd_zip by lia. by rewrite Hlz.
Qed.

(** ** The constructor *)






(** X1.  What [sort_clockwise] returns is a reordering of the vertex list
    it was given: the same indices, each as often as before. *)
Theorem sort_clockwise_reorders (pts : list point) (vs sv : list Z) :
  sort_clockwise pts vs = Ok sv -> sv ≡ₚ vs.
Proof. apply sort_clockwise_perm. Qed.

Lemma sort_clockwise_reorders_witness : [0; 2; 1] ≡ₚ [0; 1; 2].
Proof.
  apply (sort_clockwise_reorders square_points [0; 1; 2] [0; 2; 1]).
  vm_compute. reflexivity.
Defined.

Lemma sort_clockwise_sorted_witness :
  exists p,
    res_map (py_get square_points) [0; 1; 2] = Ok p /\
    StronglySorted (fun a b => flt_le a b = true)
      (map (angle_key square_points (mean p)) [0; 2; 1]).
Proof.
  apply (sort_clockwise_sorted square_points [0; 1; 2] [0; 2; 1]).
  vm_compute. reflexivity.
Defined.

(** ** [flip]: what it keeps however it ends *)

Lemma same_shape_refl (T : Tiling) : same_shape T T.
Proof. by repeat split. Qed.

Lemma same_shape_trans (T1 T2 T3 : Tiling) :
  same_shape T1 T2 -> same_shape T2 T3 -> same_shape T1 T3.
Proof.
  intros (? & ? & ? & ? & ? & ? & ?) (? & ? & ? & ? & ? & ? & ?).
  repeat split; congruence.
Qed.

Lemma keeps_bind {A B} (m : M A) (k : A -> M B) :
  keeps_shape m -> (forall a, keeps_shape (k a)) -> keeps_shape (m_bind m k).
Proof.
  intros Hm Hk w. unfold m_bind. specialize (Hm w).
  destruct (m w) as [[a|e] w1]; cbn [snd] in *; [|done].
  eapply same_shape_trans; [exact Hm|apply Hk].
Qed.

Lemma keeps_expr {A} (f : Tiling -> res A) : keeps_shape (expr f).
Proof. intros w. apply same_shape_refl. Qed.

Lemma keeps_print (s : string) : keeps_shape (print s).
Proof. intros w. apply same_shape_refl. Qed.

Lemma keeps_update (f : Tiling -> res Tiling) :
  (forall T T', f T = Ok T' -> same_shape T T') -> keeps_shape (update f).
Proof.
  intros Hf w. unfold update. destruct (f (self w)) as [T'|] eqn:E; cbn [snd self].
  - by apply Hf.
  - apply same_shape_refl.
Qed.

Lemma assign_neighbors_shape (i : Z) (l : list Z) (T T' : Tiling) :
  assign_neighbors i l T = Ok T' -> same_shape T T'.
Proof.
  unfold assign_neighbors.
  destruct (py_set (neighbors T) i l) as [ns|] eqn:Hs; [|discriminate].
  intros [= <-]. repeat split. cbn. by eapply py_set_length.
Qed.

Lemma patch_neighbors_shape (i a b : Z) (T T' : Tiling) :
  patch_neighbors i a b T = Ok T' -> same_shape T T'.
Proof.
  unfold patch_neighbors. destruct (py_get (neighbors T) i); [|discriminate].
  apply assign_neighbors_shape.
Qed.

Lemma assign_sorted_vertices_shape (i : Z) (l : list Z) (T T' : Tiling) :
  assign_sorted_vertices i l T = Ok T' -> same_shape T T'.
Proof.
  unfold assign_sorted_vertices.
  destruct (sort_clockwise (points T) l) as [sv|]; [|discriminate].
  cbn [res_bind].
  destruct (py_set (vertices T) i sv) as [vs|] eqn:Hs; [|discriminate].
  intros [= <-]. repeat split. cbn. by eapply py_set_length.
Qed.

Lemma assign_edge_shape (i : Z) (e : Z * Z) (T T' : Tiling) :
  assign_edge i e T = Ok T' -> same_shape T T'.
Proof.
  unfold assign_edge.
  destruct (np_set (edges T) i e) as [es|] eqn:Hs; [|discriminate].
  apply np_set_Ok in Hs.
  intros [= <-]. repeat split. cbn. by eapply py_set_length.
Qed.

Lemma flip_keeps (edge : Z) : keeps_shape (flip edge).
Proof.
  unfold flip.
  apply keeps_bind; [apply keeps_expr|]. intros [p1 p2].
  apply keeps_bind; [apply keeps_expr|]. intros [tiles new_edge].
  destruct tiles as [|t1 [|t2 [|t3 tiles]]]; try apply keeps_print.
  destruct new_edge as [|e1 [|e2 [|e3 new_edge]]]; try apply keeps_expr.
  apply keeps_bind; [apply keeps_expr|]. intros [A D].
  apply keeps_bind; [apply keeps_expr|]. intros [B C].
  apply keeps_bind.
  { apply keeps_update. intros T T'.
    destruct A as [a|]; [|discriminate]. destruct B as [b|]; [|discriminate].
    apply assign_neighbors_shape. }
  intros _. apply keeps_bind.
  { apply keeps_update. intros T T'.
    destruct C as [c|]; [|discriminate]. destruct D as [d|]; [|discriminate].
    apply assign_neighbors_shape. }
  intros _. apply keeps_bind.
  { apply keeps_update. intros T T'. destruct D as [d|]; [|discriminate].
    apply patch_neighbors_shape. }
  intros _. apply keeps_bind.
  { apply keeps_update. intros T T'. destruct B as [b|]; [|discriminate].
    apply patch_neighbors_shape. }
  intros _. apply keeps_bind.
  { apply keeps_update. intros T T'. apply assign_sorted_vertices_shape. }
  intros _. apply keeps_bind.
  { apply keeps_update. intros T T'. apply assign_sorted_vertices_shape. }
  intros _. apply keeps_update. intros T T'. apply assign_edge_shape.
Qed.

(** X19.  However [flip] ends -- returning after the flip, returning after its
    message, or raising at any line -- the receiver it leaves has the points,
    the three counts and as many tiles, neighbour lists and edges as
    before; so counts that described the tables still do. *)
Theorem flip_keeps_shape (T : Tiling) (out : list string) (edge : Z) :
  same_shape T (self (snd (flip edge (mkWorld T out)))) /\
  (counted T -> counted (self (snd (flip edge (mkWorld T out))))).
Proof.
  pose proof (flip_keeps edge (mkWorld T out)) as Hs. cbn [self] in Hs.
  split; [done|].
  destruct Hs as (? & ? & ? & ? & ? & ? & ?). intros (? & ? & ?).
  repeat split; congruence.
Qed.

(** ** [flip]: the two lists of the search *)

Lemma not_endpoint_filter (p1 p2 : Z) (v : list Z) :
  filter (fun x => Is_true (negb ((x =? p1) || (x =? p2)))) v
  = filter (fun x => ~ (x = p1 \/ x = p2)) v.
Proof.
  apply list_filter_iff. intros x.
  rewrite negb_True, orb_True, !Is_true_true, !Z.eqb_eq. done.
Qed.

Lemma find_step_thirds (T : Tiling) (p1 p2 : Z) (acc : list Z * list Z)
    (t : nat) (v : list Z) :
  vertices T !! t = Some v ->
  (has_edge p1 p2 v = true ->
   exists e, other_vertex p1 p2 v = Some e /\
             find_step T p1 p2 acc (Z.of_nat t)
             = Ok (fst acc ++ [Z.of_nat t], snd acc ++ [e])) /\
  (has_edge p1 p2 v = false -> find_step T p1 p2 acc (Z.of_nat t) = Ok acc).
Proof.
  intros Hv. unfold find_step, has_edge.
  rewrite (py_get_of_nat _ _ _ Hv). cbn [res_bind].
  rewrite np_sum_map, <- endpoint_filter, map_map, np_mask_map,
    not_endpoint_filter.
  destruct (length v =? 3)%nat eqn:E3; cbn [negb andb]; [|by split].
  destruct (length (filter _ v) =? 2)%nat eqn:E2; [|by split].
  split; [|done]. intros _.
  pose proof (filter_split_length (fun x => (x =? p1) || (x =? p2)) v) as Hs.
  cbn beta in Hs. rewrite <- endpoint_filter, not_endpoint_filter in Hs.
  apply Nat.eqb_eq in E3, E2.
  unfold other_vertex.
  destruct (filter (fun x => ~ (x = p1 \/ x = p2)) v) as [|e l] eqn:Ef.
  { simpl in Hs. lia. }
  exists e. split; reflexivity.
Qed.

Lemma find_loop_thirds (T : Tiling) (p1 p2 : Z) (n : nat) :
  forall (a : nat) (acc : list Z * list Z),
    (a + n <= length (vertices T))%nat ->
    res_foldl (find_step T p1 p2) acc (map Z.of_nat (seq a n))
    = Ok (fst acc ++
            map Z.of_nat (filter (fun t => tile_has_edge T p1 p2 t) (seq a n)),
          snd acc ++
            omap (fun t => match vertices T !! t with
                           | Some v => other_vertex p1 p2 v
                           | None => None
                           end)
              (filter (fun t => tile_has_edge T p1 p2 t) (seq a n))).
Proof.
  induction n as [|n IH]; intros a acc Hle.
  - cbn. rewrite !app_nil_r. by destruct acc.
  - cbn [seq map res_foldl].
    destruct (lookup_lt_is_Some_2 (vertices T) a) as [v Hv]; [lia|].
    destruct (find_step_thirds T p1 p2 acc a v Hv) as [Hyes Hno].
    assert (Hthe : tile_has_edge T p1 p2 a = has_edge p1 p2 v)
      by (unfold tile_has_edge; by rewrite Hv).
    rewrite filter_cons.
    destruct (has_edge p1 p2 v) eqn:Hh.
    + rewrite decide_True by (by rewrite Hthe).
      destruct Hyes as (e & He & ->); [done|]. cbn [res_bind].
      rewrite IH by lia. cbn [fst snd map].
      change (omap ?f (?i :: ?l)) with
        (match f i with Some y => y :: omap f l | None => omap f l end).
      cbn beta. rewrite Hv, He. rewrite <- !app_assoc. reflexivity.
    + rewrite decide_False by (rewrite Hthe; intros []).
      rewrite Hno by done. cbn [res_bind]. by rewrite IH by lia.
Qed.

Lemma find_tiles_thirds (T : Tiling) (p1 p2 : Z) :
  ntiles T = length (vertices T) ->
  res_foldl (find_step T p1 p2) ([], []) (range (ntiles T))
  = Ok (map Z.of_nat (triangles_with_edge T p1 p2), third_vertices T p1 p2).
Proof.
  intros Hn. unfold range, triangles_with_edge, third_vertices. rewrite Hn.
  by rewrite find_loop_thirds by lia.
Qed.

Lemma triangles_with_edge_two (T : Tiling) (p1 p2 : Z) (t1 t2 : nat) :
  triangles_with_edge T p1 p2 = [t1; t2] ->
  t1 <> t2 /\
  exists v1 v2,
    vertices T !! t1 = Some v1 /\ vertices T !! t2 = Some v2 /\
    has_edge p1 p2 v1 = true /\ has_edge p1 p2 v2 = true.
Proof.
  intros H.
  assert (Hnd : NoDup (triangles_with_edge T p1 p2))
    by (apply NoDup_filter, NoDup_seq).
  assert (Hin : forall t, t ∈ triangles_with_edge T p1 p2 ->
                          exists v, vertices T !! t = Some v /\
                                    has_edge p1 p2 v = true).
  { intros t Ht. apply list_elem_of_filter in Ht as [Ht _].
    unfold tile_has_edge in Ht. destruct (vertices T !! t) as [v|]; [|done].
    exists v. split; [done|]. by apply Is_true_true. }
  rewrite H in Hnd, Hin.
  apply NoDup_cons in Hnd as [Hne _].
  destruct (Hin t1) as (v1 & ? & ?); [apply list_elem_of_here|].
  destruct (Hin t2) as (v2 & ? & ?);
    [apply list_elem_of_further, list_elem_of_here|].
  split; [|by exists v1, v2].
  intros ->. apply Hne, list_elem_of_here.
Qed.

(** ** What a flip writes *)

Lemma assign_neighbors_Ok (i : Z) (l : list Z) (T T' : Tiling) :
  assign_neighbors i l T = Ok T' ->
  exists k, py_norm (length (neighbors T)) i = Some k /\
            T' = set_neighbors T (<[k:=l]> (neighbors T)).
Proof.
  unfold assign_neighbors.
  destruct (py_set (neighbors T) i l) as [ns|] eqn:Hset; [|discriminate].
  intros [= <-]. apply py_set_Ok in Hset as (k & Hk & ->). eauto.
Qed.

Lemma patch_neighbors_Ok (i a b : Z) (T T' : Tiling) :
  patch_neighbors i a b T = Ok T' ->
  exists k ni, py_norm (length (neighbors T)) i = Some k /\
    neighbors T !! k = Some ni /\
    T' = set_neighbors T
           (<[k:=map (fun n => if n =? a then b else n) ni]> (neighbors T)).
Proof.
  unfold patch_neighbors.
  destruct (py_get (neighbors T) i) as [ni|] eqn:Hget; [|discriminate].
  cbn [res_bind]. intros H.
  apply assign_neighbors_Ok in H as (k & Hk & ->).
  apply py_get_Ok in Hget as (k' & Hk' & Hni).
  exists k, ni. split; [done|]. split; [congruence|done].
Qed.

Lemma assign_sorted_vertices_Ok (t : nat) (l : list Z) (T T' : Tiling) :
  assign_sorted_vertices (Z.of_nat t) l T = Ok T' ->
  exists sv, sort_clockwise (points T) l = Ok sv /\
    (t < length (vertices T))%nat /\
    T' = set_vertices T (<[t:=sv]> (vertices T)).
Proof.
  unfold assign_sorted_vertices.
  destruct (sort_clockwise (points T) l) as [sv|] eqn:Hs; [|discriminate].
  cbn [res_bind].
  destruct (py_set (vertices T) (Z.of_nat t) sv) as [vs|] eqn:Hset; [|discriminate].
  intros [= <-]. exists sv. split; [done|].
  apply py_set_Ok in Hset as (k & Hk & ->).
  pose proof (py_norm_lt _ _ _ Hk) as Hlt.
  rewrite (py_norm_of_nat_inv _ _ _ Hk) in *. done.
Qed.

(** The steps of a flip that returns without printing. *)
Lemma flip_steps (T T' : Tiling) (out : list string) (edge : Z) :
  ntiles T = length (vertices T) ->
  flip edge (mkWorld T out) = (Ok tt, mkWorld T' out) ->
  exists (p1 p2 : Z) (t1 t2 : nat) (e1 e2 A B C D : Z)
         (T1 T2 T3 T4 T5 T6 : Tiling),
    py_get (edges T) edge = Ok (p1, p2) /\
    triangles_with_edge T p1 p2 = [t1; t2] /\
    third_vertices T p1 p2 = [e1; e2] /\
    outer_neighbors T p1 p2 (Z.of_nat t1) = Ok (Some A, Some D) /\
    outer_neighbors T p1 p2 (Z.of_nat t2) = Ok (Some B, Some C) /\
    assign_neighbors (Z.of_nat t1) [Z.of_nat t2; A; B] T = Ok T1 /\
    assign_neighbors (Z.of_nat t2) [Z.of_nat t1; C; D] T1 = Ok T2 /\
    patch_neighbors D (Z.of_nat t1) (Z.of_nat t2) T2 = Ok T3 /\
    patch_neighbors B (Z.of_nat t2) (Z.of_nat t1) T3 = Ok T4 /\
    assign_sorted_vertices (Z.of_nat t1) [e1; e2; p1] T4 = Ok T5 /\
    assign_sorted_vertices (Z.of_nat t2) [e1; e2; p2] T5 = Ok T6 /\
    assign_edge edge (e1, e2) T6 = Ok T'.
Proof.
  intros Hn. unfold flip.
  destruct (np_get (edges T) edge) as [[p1 p2]|e] eqn:He.
  2:{ erewrite bind_expr_Raise by exact He. discriminate. }
  erewrite bind_expr_Ok by exact He. cbn beta iota.
  apply np_get_Ok in He.
  pose proof (find_tiles_thirds T p1 p2 Hn) as Hfind.
  erewrite bind_expr_Ok by exact Hfind. cbn beta iota.
  assert (Hout : forall (U : Tiling) (s : string),
             (Ok tt, mkWorld U (out ++ [s])) <> (Ok tt, mkWorld T' out)).
  { intros U s [= _ Hs]. apply (f_equal length) in Hs.
    rewrite length_app in Hs. simpl in Hs. lia. }
  destruct (triangles_with_edge T p1 p2) as [|t1 [|t2 [|t3 l]]] eqn:Htiles;
    cbn [map]; try (intros Hp; by apply Hout in Hp).
  destruct (third_vertices T p1 p2) as [|e1 [|e2 [|e3 es]]] eqn:Hth;
    try discriminate.
  destruct (outer_neighbors T p1 p2 (Z.of_nat t1)) as [[A D]|] eqn:Ho1.
  2:{ erewrite bind_expr_Raise by exact Ho1. discriminate. }
  erewrite bind_expr_Ok by exact Ho1.
  destruct (outer_neighbors T p1 p2 (Z.of_nat t2)) as [[B C]|] eqn:Ho2.
  2:{ erewrite bind_expr_Raise by exact Ho2. discriminate. }
  erewrite bind_expr_Ok by exact Ho2. cbn beta iota.
  unfold m_bind, update. cbn [self stdout].
  destruct A as [A|]; [|discriminate].
  destruct B as [B|]; [|discriminate]. cbn [local res_bind].
  destruct (assign_neighbors _ _ T) as [T1|] eqn:H1; [|discriminate].
  cbn [self stdout].
  destruct C as [C|]; [|discriminate].
  destruct D as [D|]; [|discriminate]. cbn [local res_bind].
  destruct (assign_neighbors _ _ T1) as [T2|] eqn:H2; [|discriminate].
  cbn [self stdout].
  destruct (patch_neighbors _ _ _ T2) as [T3|] eqn:H3; [|discriminate].
  cbn [self stdout].
  destruct (patch_neighbors _ _ _ T3) as [T4|] eqn:H4; [|discriminate].
  cbn [self stdout].
  destruct (assign_sorted_vertices _ _ T4) as [T5|] eqn:H5; [|discriminate].
  cbn [self stdout].
  destruct (assign_sorted_vertices _ _ T5) as [T6|] eqn:H6; [|discriminate].
  cbn [self stdout].
  destruct (assign_edge _ _ T6) as [T7|] eqn:H7; [|discriminate].
  intros [= <-].
  exists p1, p2, t1, t2, e1, e2, A, B, C, D, T1, T2, T3, T4, T5, T6.
  repeat split; done.
Qed.

Lemma third_vertices_two (T : Tiling) (p1 p2 e1 e2 : Z) (t1 t2 : nat) :
  triangles_with_edge T p1 p2 = [t1; t2] ->
  third_vertices T p1 p2 = [e1; e2] ->
  exists u1 u2,
    vertices T !! t1 = Some u1 /\ other_vertex p1 p2 u1 = Some e1 /\
    vertices T !! t2 = Some u2 /\ other_vertex p1 p2 u2 = Some e2.
Proof.
  intros Ht. unfold third_vertices. rewrite Ht.
  destruct (triangles_with_edge_two _ _ _ _ _ Ht)
    as (_ & v1 & v2 & Hv1 & Hv2 & Hh1 & Hh2).
  change (omap ?f [t1; t2]) with
    (match f t1 with
     | Some y => y :: match f t2 with Some z => [z] | None => [] end
     | None => match f t2 with Some z => [z] | None => [] end
     end).
  cbn beta. rewrite Hv1, Hv2.
  destruct (other_vertex p1 p2 v1) as [a|] eqn:Ha,
    (other_vertex p1 p2 v2) as [b|] eqn:Hb; try discriminate.
  intros [= <- <-]. exists v1, v2. repeat split; done.
Qed.

(** X8.  A flip that returns without printing has found exactly two
    triangles [t1 < t2] holding the edge [(p1, p2)]; with [e1] and [e2] the
    first vertex of each that is not an endpoint, tile [t1] now holds
    [sort_clockwise [e1; e2; p1]], tile [t2] holds
    [sort_clockwise [e1; e2; p2]], and the edge entry holds [(e1, e2)]. *)
Theorem flip_rewrites_triangles (T T' : Tiling) (out : list string) (edge : Z) :
  ntiles T = length (vertices T) ->
  flip edge (mkWorld T out) = (Ok tt, mkWorld T' out) ->
  exists (p1 p2 e1 e2 : Z) (t1 t2 k : nat) (u1 u2 v1 v2 : list Z),
    py_get (edges T) edge = Ok (p1, p2) /\
    triangles_with_edge T p1 p2 = [t1; t2] /\
    vertices T !! t1 = Some u1 /\ other_vertex p1 p2 u1 = Some e1 /\
    vertices T !! t2 = Some u2 /\ other_vertex p1 p2 u2 = Some e2 /\
    sort_clockwise (points T) [e1; e2; p1] = Ok v1 /\
    sort_clockwise (points T) [e1; e2; p2] = Ok v2 /\
    vertices T' !! t1 = Some v1 /\
    vertices T' !! t2 = Some v2 /\
    py_norm (length (edges T)) edge = Some k /\
    edges T' !! k = Some (e1, e2).
Proof.
  intros Hn Hflip.
  destruct (flip_steps T T' out edge Hn Hflip)
    as (p1 & p2 & t1 & t2 & e1 & e2 & A & B & C & D &
        T1 & T2 & T3 & T4 & T5 & T6 &
        He & Htiles & Hthirds & _ & _ & H1 & H2 & H3 & H4 & H5 & H6 & H7).
  destruct (third_vertices_two _ _ _ _ _ _ _ Htiles Hthirds)
    as (u1 & u2 & Hu1 & Ho1 & Hu2 & Ho2).
  destruct (triangles_with_edge_two _ _ _ _ _ Htiles) as [Hne _].
  apply assign_neighbors_frame in H1 as (P1 & V1 & E1 & _).
  apply assign_neighbors_frame in H2 as (P2 & V2 & E2 & _).
  apply patch_neighbors_frame in H3 as (P3 & V3 & E3 & _).
  apply patch_neighbors_frame in H4 as (P4 & V4 & E4 & _).
  apply assign_sorted_vertices_Ok in H5 as (v1 & Hs1 & Hlt1 & ->).
  apply assign_sorted_vertices_Ok in H6 as (v2 & Hs2 & Hlt2 & ->).
  apply assign_edge_frame in H7 as (P7 & V7 & _ & _ & _ & k & Hk & E7).
  cbn in *.
  exists p1, p2, e1, e2, t1, t2, k, u1, u2, v1, v2.
  assert (HP : points T4 = points T) by congruence.
  assert (HE : edges T4 = edges T) by congruence.
  rewrite HP in Hs1, Hs2. rewrite HE in Hk, E7.
  repeat split; try done.
  - rewrite V7, list_lookup_insert_ne by done.
    by apply list_lookup_insert_eq.
  - rewrite V7. by apply list_lookup_insert_eq.
  - rewrite E7. apply list_lookup_insert_eq. by eapply py_norm_lt.
Qed.

(** ** The outer neighbours of a flip *)

Lemma has_edge_other_vertex (p1 p2 : Z) (v : list Z) :
  has_edge p1 p2 v = true -> exists e, other_vertex p1 p2 v = Some e.
Proof.
  unfold has_edge, other_vertex. intros H.
  apply andb_true_iff in H as [E3 E2]. apply Nat.eqb_eq in E3, E2.
  pose proof (filter_split_length (fun x => (x =? p1) || (x =? p2)) v) as Hs.
  cbn beta in Hs. rewrite <- endpoint_filter, not_endpoint_filter in Hs.
  destruct (filter (fun x => ~ (x = p1 \/ x = p2)) v) as [|e l] eqn:Ef.
  { simpl in Hs. lia. }
  by exists e.
Qed.

Lemma third_vertices_of_two (T : Tiling) (p1 p2 : Z) (t1 t2 : nat) :
  triangles_with_edge T p1 p2 = [t1; t2] ->
  exists e1 e2, third_vertices T p1 p2 = [e1; e2].
Proof.
  intros Ht.
  destruct (triangles_with_edge_two _ _ _ _ _ Ht)
    as (_ & v1 & v2 & Hv1 & Hv2 & Hh1 & Hh2).
  destruct (has_edge_other_vertex _ _ _ Hh1) as [e1 He1].
  destruct (has_edge_other_vertex _ _ _ Hh2) as [e2 He2].
  exists e1, e2. unfold third_vertices. rewrite Ht.
  change (omap ?f [t1; t2]) with
    (match f t1 with
     | Some y => y :: match f t2 with Some z => [z] | None => [] end
     | None => match f t2 with Some z => [z] | None => [] end
     end).
  cbn beta. by rewrite Hv1, Hv2, He1, He2.
Qed.

Lemma py_in_true (x : Z) (l : list Z) : py_in x l = true <-> x ∈ l.
Proof.
  unfold py_in. rewrite existsb_exists, list_elem_of_In. split.
  - intros (y & Hy & E). apply Z.eqb_eq in E. by subst.
  - intros H. exists x. split; [done|apply Z.eqb_refl].
Qed.

(** A triangle without repeated vertices that passes the test of [flip]
    holds both endpoints of the edge. *)
Lemma has_edge_NoDup (p1 p2 : Z) (v : list Z) :
  NoDup v -> has_edge p1 p2 v = true -> p1 ∈ v /\ p2 ∈ v.
Proof.
  unfold has_edge. intros Hnd H.
  apply andb_true_iff in H as [_ E2]. apply Nat.eqb_eq in E2.
  assert (Hnd' : NoDup (filter (fun x => x = p1 \/ x = p2) v))
    by (by apply NoDup_filter).
  destruct (filter (fun x => x = p1 \/ x = p2) v) as [|a [|b [|c l]]] eqn:Ef;
    try discriminate.
  assert (Ha : a ∈ filter (fun x => x = p1 \/ x = p2) v)
    by (rewrite Ef; apply list_elem_of_here).
  assert (Hb : b ∈ filter (fun x => x = p1 \/ x = p2) v)
    by (rewrite Ef; apply list_elem_of_further, list_elem_of_here).
  apply list_elem_of_filter in Ha as [Ha Hav], Hb as [Hb Hbv].
  apply NoDup_cons in Hnd' as [Hab _].
  assert (a <> b) by (intros ->; apply Hab, list_elem_of_here).
  destruct Ha as [-> | ->], Hb as [-> | ->]; done.
Qed.

Lemma outer_loop_inv (T : Tiling) (p1 p2 : Z) (nt : list Z) :
  forall (acc r : option Z * option Z),
    res_foldl (outer_step T p1 p2) acc nt = Ok r ->
    (forall x, fst r = Some x ->
       fst acc = Some x \/
       (x ∈ nt /\ exists vn, py_get (vertices T) x = Ok vn /\ p2 ∉ vn)) /\
    (forall y, snd r = Some y ->
       snd acc = Some y \/
       (y ∈ nt /\ exists vn, py_get (vertices T) y = Ok vn /\ p1 ∉ vn)).
Proof.
  induction nt as [|n nt IH]; intros acc r.
  - cbn. intros [= <-]. split; intros ? ?; by left.
  - cbn [res_foldl]. unfold outer_step at 1.
    destruct (py_get (vertices T) n) as [vn|] eqn:Hvn; [|discriminate].
    cbn [res_bind]. intros H. apply IH in H as [Hx Hy]. cbn [fst snd] in *.
    split.
    + intros x Hr. destruct (Hx x Hr) as [Hacc|(Hin & vn' & Hg & Hno)].
      * destruct (py_in p2 vn) eqn:Hp; cbn [negb] in Hacc; [by left|].
        injection Hacc as <-. right. split; [apply list_elem_of_here|].
        exists vn. split; [done|]. rewrite <- py_in_true. by rewrite Hp.
      * right. split; [by apply list_elem_of_further|]. by exists vn'.
    + intros y Hr. destruct (Hy y Hr) as [Hacc|(Hin & vn' & Hg & Hno)].
      * destruct (py_in p1 vn) eqn:Hp; cbn [negb] in Hacc; [by left|].
        injection Hacc as <-. right. split; [apply list_elem_of_here|].
        exists vn. split; [done|]. rewrite <- py_in_true. by rewrite Hp.
      * right. split; [by apply list_elem_of_further|]. by exists vn'.
Qed.

Lemma outer_neighbors_inv (T : Tiling) (p1 p2 t : Z) (r : option Z * option Z) :
  outer_neighbors T p1 p2 t = Ok r ->
  exists nt, py_get (neighbors T) t = Ok nt /\
    (forall x, fst r = Some x ->
       x ∈ nt /\ exists vn, py_get (vertices T) x = Ok vn /\ p2 ∉ vn) /\
    (forall y, snd r = Some y ->
       y ∈ nt /\ exists vn, py_get (vertices T) y = Ok vn /\ p1 ∉ vn).
Proof.
  unfold outer_neighbors.
  destruct (py_get (neighbors T) t) as [nt|] eqn:Hnt; [|discriminate].
  cbn [res_bind]. intros H. apply outer_loop_inv in H as [Hx Hy].
  exists nt. split; [done|]. split.
  - intros x Hr. by destruct (Hx x Hr) as [?|?].
  - intros y Hr. by destruct (Hy y Hr) as [?|?].
Qed.

Lemma assign_edge_Ok (i : Z) (e : Z * Z) (T T' : Tiling) :
  assign_edge i e T = Ok T' ->
  exists k, py_norm (length (edges T)) i = Some k /\
            T' = set_edges T (<[k:=e]> (edges T)).
Proof.
  unfold assign_edge.
  destruct (np_set (edges T) i e) as [es|] eqn:Hset; [|discriminate].
  apply np_set_Ok in Hset.
  intros [= <-]. apply py_set_Ok in Hset as (k & Hk & ->). eauto.
Qed.

(** X9.  In a tiling with a neighbour list for every tile and no tile
    naming a vertex twice, a flip that returns without printing has chosen
    [A], [D] among the neighbours of [t1] and [B], [C] among those of [t2],
    and [D] and [B] name tiles other than [t1] and [t2].
    Tile [t1] is left with the neighbours [t2, A, B], tile [t2] with
    [t1, C, D]; in the list of [D] every [t1] has become [t2], in the list
    of [B] every [t2] has become [t1] (when [D] and [B] name different
    tiles); no other list has changed. *)
Theorem flip_rewrites_neighbors (T T' : Tiling) (out : list string) (edge : Z) :
  ntiles T = length (vertices T) ->
  length (neighbors T) = length (vertices T) ->
  Forall NoDup (vertices T) ->
  flip edge (mkWorld T out) = (Ok tt, mkWorld T' out) ->
  exists (p1 p2 A B C D : Z) (t1 t2 d b : nat) (n1 n2 nd nb : list Z),
    py_get (edges T) edge = Ok (p1, p2) /\
    triangles_with_edge T p1 p2 = [t1; t2] /\
    neighbors T !! t1 = Some n1 /\ A ∈ n1 /\ D ∈ n1 /\
    neighbors T !! t2 = Some n2 /\ B ∈ n2 /\ C ∈ n2 /\
    py_norm (length (neighbors T)) D = Some d /\
    py_norm (length (neighbors T)) B = Some b /\
    neighbors T !! d = Some nd /\
    neighbors T !! b = Some nb /\
    d <> t1 /\ d <> t2 /\ b <> t1 /\ b <> t2 /\
    neighbors T' !! t1 = Some [Z.of_nat t2; A; B] /\
    neighbors T' !! t2 = Some [Z.of_nat t1; C; D] /\
    (d <> b ->
     neighbors T' !! d
     = Some (map (fun n => if n =? Z.of_nat t1 then Z.of_nat t2 else n) nd) /\
     neighbors T' !! b
     = Some (map (fun n => if n =? Z.of_nat t2 then Z.of_nat t1 else n) nb)) /\
    (forall j, j <> t1 -> j <> t2 -> j <> d -> j <> b ->
               neighbors T' !! j = neighbors T !! j).
Proof.
  intros Hn Hlen Hnd Hflip.
  destruct (flip_steps T T' out edge Hn Hflip)
    as (p1 & p2 & t1 & t2 & e1 & e2 & A & B & C & D &
        T1 & T2 & T3 & T4 & T5 & T6 &
        He & Htiles & _ & Ho1 & Ho2 & H1 & H2 & H3 & H4 & H5 & H6 & H7).
  destruct (triangles_with_edge_two _ _ _ _ _ Htiles)
    as (Hne & u1 & u2 & Hu1 & Hu2 & Hh1 & Hh2).
  destruct (has_edge_NoDup p1 p2 u1) as [Hp11 Hp12];
    [exact (Forall_lookup_1 _ _ _ _ Hnd Hu1)|done|].
  destruct (has_edge_NoDup p1 p2 u2) as [Hp21 Hp22];
    [exact (Forall_lookup_1 _ _ _ _ Hnd Hu2)|done|].
  apply outer_neighbors_inv in Ho1 as (n1 & Hn1 & HA & HD).
  apply outer_neighbors_inv in Ho2 as (n2 & Hn2 & HB & HC).
  cbn [fst snd] in *.
  destruct (HA A eq_refl) as [HAin _].
  destruct (HD D eq_refl) as (HDin & vd & Hvd & HDno).
  destruct (HB B eq_refl) as (HBin & vb & Hvb & HBno).
  destruct (HC C eq_refl) as [HCin _].
  apply py_get_of_nat_inv in Hn1, Hn2.
  apply assign_neighbors_Ok in H1 as (k1 & Hk1 & ->).
  apply py_norm_of_nat_inv in Hk1 as ->.
  apply assign_neighbors_Ok in H2 as (k2 & Hk2 & ->).
  apply py_norm_of_nat_inv in Hk2 as ->.
  apply patch_neighbors_Ok in H3 as (d & nd & Hd & Hnd3 & ->).
  apply patch_neighbors_Ok in H4 as (b & nb & Hb & Hnb4 & ->).
  apply assign_sorted_vertices_Ok in H5 as (v1 & _ & _ & ->).
  apply assign_sorted_vertices_Ok in H6 as (v2 & _ & _ & ->).
  apply assign_edge_Ok in H7 as (k & _ & ->).
  cbn [neighbors set_neighbors set_vertices set_edges] in *.
  repeat rewrite length_insert in Hd. repeat rewrite length_insert in Hb.
  clear Hflip.
  apply py_get_Ok in Hvd as (d' & Hd' & Hvd), Hvb as (b' & Hb' & Hvb).
  rewrite <- Hlen in Hd', Hb'.
  assert (d' = d) as -> by (rewrite Hd in Hd'; by injection Hd').
  assert (b' = b) as -> by (rewrite Hb in Hb'; by injection Hb').
  assert (Hd1 : d <> t1) by (intros ->; congruence).
  assert (Hd2 : d <> t2) by (intros ->; congruence).
  assert (Hb1 : b <> t1) by (intros ->; congruence).
  assert (Hb2 : b <> t2) by (intros ->; congruence).
  assert (Ht1 : (t1 < length (neighbors T))%nat) by (by eapply lookup_lt_Some).
  assert (Ht2 : (t2 < length (neighbors T))%nat) by (by eapply lookup_lt_Some).
  pose proof (py_norm_lt _ _ _ Hd) as Hdlt.
  pose proof (py_norm_lt _ _ _ Hb) as Hblt.
  rewrite !list_lookup_insert_ne in Hnd3 by done.
  exists p1, p2, A, B, C, D, t1, t2, d, b, n1, n2, nd.
  destruct (lookup_lt_is_Some_2 (neighbors T) b Hblt) as [nb0 Hnb0].
  exists nb0.
  repeat (split; [done|]).
  split.
  { rewrite !list_lookup_insert_ne by done.
    by apply list_lookup_insert_eq. }
  split.
  { rewrite !list_lookup_insert_ne by done.
    apply list_lookup_insert_eq. by rewrite length_insert. }
  split.
  { intros Hdb.
    rewrite !list_lookup_insert_ne in Hnb4 by done.
    assert (nb = nb0) as -> by congruence.
    split.
    - rewrite list_lookup_insert_ne by done.
      apply list_lookup_insert_eq. by rewrite !length_insert.
    - apply list_lookup_insert_eq. by rewrite !length_insert. }
  intros j Hj1 Hj2 Hjd Hjb.
  by rewrite !list_lookup_insert_ne by done.
Qed.

(** X10.  When the edge lies in exactly two triangles but one of the four
    locals [A], [B], [C], [D] was never assigned, [flip] raises
    [UnboundLocalError].  With [A] or [B] unassigned the receiver is
    untouched; with both assigned, the neighbour list of [t1] has already
    been replaced by [t2, A, B] when the exception leaves the method. *)
Theorem flip_unbound_local (T : Tiling) (out : list string) (edge p1 p2 : Z)
    (t1 t2 : nat) (A B C D : option Z) :
  ntiles T = length (vertices T) ->
  py_get (edges T) edge = Ok (p1, p2) ->
  triangles_with_edge T p1 p2 = [t1; t2] ->
  outer_neighbors T p1 p2 (Z.of_nat t1) = Ok (A, D) ->
  outer_neighbors T p1 p2 (Z.of_nat t2) = Ok (B, C) ->
  A = None \/ B = None \/ C = None \/ D = None ->
  flip edge (mkWorld T out)
  = (Raise UnboundLocalError,
     mkWorld
       match A, B with
       | Some a, Some b =>
           set_neighbors T (<[t1:=[Z.of_nat t2; a; b]]> (neighbors T))
       | _, _ => T
       end out).
Proof.
  intros Hn He Htiles Ho1 Ho2 Hnone. unfold flip.
  erewrite bind_expr_Ok by (by apply np_get_Ok). cbn beta iota.
  destruct (third_vertices_of_two _ _ _ _ _ Htiles) as (e1 & e2 & Hth).
  pose proof (find_tiles_thirds T p1 p2 Hn) as Hfind.
  rewrite Htiles, Hth in Hfind.
  erewrite bind_expr_Ok by exact Hfind. cbn [map]. cbn beta iota.
  erewrite bind_expr_Ok by exact Ho1.
  erewrite bind_expr_Ok by exact Ho2. cbn beta iota.
  unfold m_bind, update. cbn [self stdout].
  destruct A as [a|]; [|done].
  destruct B as [b|]; [|done]. cbn [local res_bind].
  destruct (outer_neighbors_inv _ _ _ _ _ Ho1) as (n1 & Hn1 & _).
  apply py_get_of_nat_inv in Hn1.
  unfold assign_neighbors at 1, py_set.
  rewrite py_norm_of_nat by (by eapply lookup_lt_Some).
  cbn [res_bind self stdout].
  destruct C as [c|]; [|done].
  destruct D as [d|]; [|done].
  by destruct Hnone as [?|[?|[?|?]]].
Qed.

(** ** The neighbour lists of the dual *)

Lemma dual_neighbors_step_inv (dn dn' : list (list Z)) (e : Z * Z) :
  dual_neighbors_step dn e = Ok dn' ->
  length dn' = length dn /\
  forall p, dn' !! p = (fun l => l ++ across (length dn) p e) <$> dn !! p.
Proof.
  destruct e as [i j]. unfold dual_neighbors_step, across. cbn [fst snd].
  destruct (py_append_at dn i j) as [dn1|] eqn:H1; [|discriminate].
  cbn [res_bind]. intros H2.
  apply py_append_at_inv in H1 as (k & li & Hk & Hli & ->).
  apply py_append_at_inv in H2 as (k' & lj & Hk' & Hlj & ->).
  rewrite length_insert in Hk'. rewrite !length_insert.
  split; [done|]. intros p.
  pose proof (py_norm_lt _ _ _ Hk) as Hlt.
  pose proof (py_norm_lt _ _ _ Hk') as Hlt'.
  rewrite Hk, Hk'.
  destruct (decide (p = k')) as [->|Hpk'].
  - rewrite list_lookup_insert_eq by (by rewrite length_insert).
    rewrite (decide_True (P := Some k' = Some k')) by done.
    destruct (decide (k' = k)) as [->|Hkk].
    + rewrite list_lookup_insert_eq in Hlj by done. injection Hlj as <-.
      rewrite decide_True by done. rewrite Hli. cbn.
      by rewrite <- app_assoc.
    + rewrite list_lookup_insert_ne in Hlj by done.
      rewrite decide_False by congruence. by rewrite Hlj.
  - rewrite list_lookup_insert_ne by done.
    rewrite (decide_False (P := Some k' = Some p)) by congruence.
    destruct (decide (p = k)) as [->|Hpk].
    + rewrite list_lookup_insert_eq by done.
      rewrite decide_True by done. rewrite Hli. cbn. by rewrite ?app_nil_r.
    + rewrite list_lookup_insert_ne by done.
      rewrite decide_False by congruence.
      destruct (dn !! p); cbn; by rewrite ?app_nil_r.
Qed.

Lemma dual_neighbors_loop_inv (es : list (Z * Z)) :
  forall dn dn',
    res_foldl dual_neighbors_step dn es = Ok dn' ->
    length dn' = length dn /\
    forall p, dn' !! p
              = (fun l => l ++ flat_map (across (length dn) p) es) <$> dn !! p.
Proof.
  induction es as [|e es IH]; intros dn dn'.
  - intros [= <-]. split; [done|]. intros p. cbn.
    destruct (dn !! p); cbn; by rewrite ?app_nil_r.
  - intros H. apply res_foldl_cons_inv in H as (dn1 & H1 & H2).
    apply dual_neighbors_step_inv in H1 as [Hlen1 Hdn1].
    apply IH in H2 as [Hlen2 Hdn2].
    split; [congruence|]. intros p. rewrite Hdn2, Hdn1, Hlen1.
    destruct (dn !! p); cbn; [|done]. by rewrite <- app_assoc.
Qed.

Lemma elem_of_across (len p : nat) (e : Z * Z) (x : Z) :
  x ∈ across len p e <->
  (py_norm len (fst e) = Some p /\ x = snd e) \/
  (py_norm len (snd e) = Some p /\ x = fst e).
Proof.
  unfold across. rewrite elem_of_app.
  destruct (decide (py_norm len (fst e) = Some p)),
    (decide (py_norm len (snd e) = Some p));
    rewrite ?list_elem_of_singleton, ?elem_of_nil; tauto.
Qed.

(** X11.  The dual has one neighbour list for every point of the
    original.  The list of dual tile [p] holds, for the edges [(i, j)] of the
    original in their order, [j] when [i] names point [p] and then [i] when
    [j] names point [p]: the points joined to [p] by an edge. *)
Theorem dual_neighbors (T D : Tiling) :
  get_dual T = Ok D ->
  length (neighbors D) = npoints T /\
  (forall p, (p < npoints T)%nat ->
     neighbors D !! p = Some (flat_map (across (npoints T) p) (edges T))) /\
  (forall (p : nat) (dn : list Z) (x : Z),
     neighbors D !! p = Some dn ->
     x ∈ dn <->
     exists i j, (i, j) ∈ edges T /\
       ((py_norm (npoints T) i = Some p /\ x = j) \/
        (py_norm (npoints T) j = Some p /\ x = i))).
Proof.
  intros H. apply get_dual_inv in H as (acc & dn & _ & Hdn & Hinit).
  apply Tiling_init_given_inv in Hinit as (svs & _ & ->). cbn [neighbors].
  apply dual_neighbors_loop_inv in Hdn as [Hlen Hl].
  rewrite length_replicate in Hlen, Hl.
  assert (Hp : forall p, (p < npoints T)%nat ->
             dn !! p = Some (flat_map (across (npoints T) p) (edges T))).
  { intros p Hlt. by rewrite Hl, lookup_replicate_2 by done. }
  split; [done|]. split; [done|].
  intros p l x Hlp.
  assert (Hlt : (p < npoints T)%nat)
    by (rewrite <- Hlen; by eapply lookup_lt_Some).
  rewrite (Hp p Hlt) in Hlp. injection Hlp as <-.
  rewrite list_elem_of_In, in_flat_map. split.
  - intros ([i j] & Hin & Hx). apply list_elem_of_In, elem_of_across in Hx.
    exists i, j. split; [by apply list_elem_of_In|]. done.
  - intros (i & j & Hin & Hx). exists (i, j).
    split; [by apply list_elem_of_In|].
    apply list_elem_of_In, elem_of_across. done.
Qed.

(** ** The dual is a tiling *)

Lemma dual_is_well_formed (T D : Tiling) :
  get_dual T = Ok D ->
  well_formed D /\ ntiles D = npoints T /\ npoints D = ntiles T.
Proof.
  intros H. apply get_dual_inv in H as (acc & dn & Hacc & Hdn & Hinit).
  apply Tiling_init_given_inv in Hinit as (svs & Hsvs & ->).
  pose proof (dual_tables T acc Hacc) as (Hps & Hlen & Hdv).
  pose proof (Forall2_length _ _ _ Hps) as Hlp. rewrite length_seq in Hlp.
  pose proof (res_map_length _ _ _ Hsvs) as Hls.
  apply dual_neighbors_loop_inv in Hdn as [Hldn _].
  rewrite length_replicate in Hldn.
  pose proof (dual_loop_edges T (ntiles T) 0%nat _ _ Hacc) as Hde.
  cbn [dedges app] in Hde.
  unfold well_formed, counted.
  cbn [ntiles nedges npoints points vertices neighbors edges].
  split; [|split; congruence].
  split; [done|]. split; [congruence|]. split.
  - apply Forall_lookup_2. intros p sv Hsv.
    apply res_map_Forall2 in Hsvs.
    destruct (Forall2_lookup_r _ _ _ p sv Hsvs Hsv) as (dv & Hdvp & Hsort).
    assert (Hlt : (p < npoints T)%nat)
      by (rewrite <- Hlen; by eapply lookup_lt_Some).
    rewrite (Hdv p Hlt) in Hdvp. injection Hdvp as <-.
    rewrite (sort_clockwise_perm _ _ _ Hsort).
    apply Forall_forall. intros x Hx.
    apply elem_of_incidents in Hx as (t & _ & _ & -> & Ht & _). lia.
  - rewrite Hde. apply Forall_forall. intros e He.
    apply list_elem_of_In, in_flat_map in He as (t & Ht & He).
    apply in_seq in Ht. apply list_elem_of_In, elem_of_dual_edges_of in He
      as (nt & n & _ & _ & Hn & ->). cbn [fst snd]. lia.
Qed.

(** X12.  Whatever tiling [get_dual] is called on, the tiling it returns
    has counts that describe its tables, a neighbour list for every tile,
    vertex lists that name points of the dual and edges that name points of
    the dual; it has one tile per point and one point per tile of the
    original. *)
Theorem get_dual_well_formed (T D : Tiling) :
  get_dual T = Ok D ->
  well_formed D /\ ntiles D = npoints T /\ npoints D = ntiles T.
Proof. apply dual_is_well_formed. Qed.

Lemma dual_tile_perm (T D : Tiling) (p : nat) (dv : list Z) :
  get_dual T = Ok D ->
  vertices D !! p = Some dv ->
  (p < npoints T)%nat /\
  dv ≡ₚ flat_map (incident T (npoints T) p) (seq 0 (ntiles T)).
Proof.
  intros H Hp. apply get_dual_inv in H as (acc & dn & Hacc & _ & Hinit).
  apply Tiling_init_given_inv in Hinit as (svs & Hsvs & ->).
  cbn [vertices] in Hp.
  pose proof (dual_tables T acc Hacc) as (_ & Hlen & Hdv).
  apply res_map_Forall2 in Hsvs.
  destruct (Forall2_lookup_r _ _ _ p dv Hsvs Hp) as (dv0 & Hdv0 & Hsort).
  assert (Hlt : (p < npoints T)%nat)
    by (rewrite <- Hlen; by eapply lookup_lt_Some).
  split; [done|].
  rewrite (Hdv p Hlt) in Hdv0. injection Hdv0 as <-.
  by apply sort_clockwise_perm in Hsort.
Qed.

Lemma dual_step_tile (T : Tiling) (acc acc' : dual_acc) (t : nat) :
  dual_step T acc (Z.of_nat t) = Ok acc' ->
  exists vt, vertices T !! t = Some vt /\ vt <> [].
Proof.
  unfold dual_step.
  destruct (py_get (vertices T) _) as [vt|] eqn:Hvt; [|discriminate].
  cbn [res_bind].
  destruct (tile_points _ vt) as [p|] eqn:Hp; [|discriminate].
  intros _. apply tile_points_Ok in Hp as [Hne _].
  apply py_get_of_nat_inv in Hvt. eauto.
Qed.

Lemma dual_loop_tiles (T : Tiling) (n : nat) :
  forall (a : nat) (acc acc' : dual_acc),
    res_foldl (dual_step T) acc (map Z.of_nat (seq a n)) = Ok acc' ->
    forall (t : nat) vt,
      (a <= t < a + n)%nat -> vertices T !! t = Some vt -> vt <> [].
Proof.
  induction n as [|n IH]; intros a acc acc' H t vt Ht Hvt; [lia|].
  cbn [seq map] in H. apply res_foldl_cons_inv in H as (acc1 & H1 & H2).
  destruct (decide (t = a)) as [->|Hta].
  - apply dual_step_tile in H1 as (vt' & Hvt' & Hne). congruence.
  - apply (IH _ _ _ H2 t vt); [lia|done].
Qed.

(** X13.  The dual of a dual: when [get_dual] has returned [D] for a tiling
    with at least one point, [get_dual] returns on [D] exactly when every
    point of the tiling is a vertex of one of its tiles (the tile of [D]
    that stands for a point in no tile has no vertex, and [get_dual]
    raises when it reaches it); the tiling it returns has as many tiles
    and as many points as the original. *)
Theorem double_dual (T D : Tiling) :
  get_dual T = Ok D ->
  (0 < npoints T)%nat ->
  ((exists DD, get_dual D = Ok DD) <-> all_points_used T) /\
  (forall DD, get_dual D = Ok DD ->
              ntiles DD = ntiles T /\ npoints DD = npoints T).
Proof.
  intros HD Hpos.
  destruct (dual_is_well_formed T D HD) as (Hwf & Hnt & Hnp).
  split; [split|].
  - intros [DD HDD] p Hp.
    apply get_dual_inv in HDD as (acc & _ & Hacc & _).
    destruct Hwf as ((Hc & _) & _).
    destruct (lookup_lt_is_Some_2 (vertices D) p) as [dv Hdv]; [lia|].
    assert (Hne : dv <> []).
    { apply (dual_loop_tiles D _ _ _ _ Hacc p dv); [lia|done]. }
    destruct (dual_tile_perm T D p dv HD Hdv) as [_ Hperm].
    destruct dv as [|x dv]; [done|].
    assert (Hx : x ∈ flat_map (incident T (npoints T) p) (seq 0 (ntiles T))).
    { rewrite <- Hperm. apply list_elem_of_here. }
    apply elem_of_incidents in Hx as (t & vt & v & _ & Ht & Hvt & Hv & Hn).
    by exists t, vt, v.
  - intros Hused.
    apply (get_dual_returns D Hwf); [lia|].
    apply Forall_lookup_2. intros p dv Hdv ->.
    destruct (dual_tile_perm T D p [] HD Hdv) as [Hp Hperm].
    destruct (Hused p Hp) as (t & vt & v & Ht & Hvt & Hv & Hn).
    assert (Hx : Z.of_nat t
                 ∈ flat_map (incident T (npoints T) p) (seq 0 (ntiles T))).
    { apply elem_of_incidents. by exists t, vt, v. }
    rewrite <- Hperm in Hx. by apply elem_of_nil in Hx.
  - intros DD HDD.
    destruct (dual_is_well_formed D DD HDD) as (_ & Hnt' & Hnp'). lia.
Qed.

(** X14.  A tiling without tiles has no dual: [get_dual] collects no
    point, and the constructor it calls rejects the empty point list.  When
    the edges name points of the tiling the exception is [AssertionError]. *)
Theorem get_dual_no_tiles (T : Tiling) :
  ntiles T = 0%nat ->
  (forall D, get_dual T <> Ok D) /\
  (Forall (fun e => 0 <= fst e < Z.of_nat (npoints T) /\
                    0 <= snd e < Z.of_nat (npoints T)) (edges T) ->
   get_dual T = Raise AssertionError).
Proof.
  intros H0. unfold get_dual. rewrite H0. cbn [range seq map res_foldl res_bind].
  cbn [dpoints]. split.
  - intros D. by destruct (res_foldl dual_neighbors_step _ _).
  - intros He.
    destruct (dual_neighbors_loop_success (npoints T) (edges T) He
                (replicate (npoints T) [])) as [dn ->];
      [apply length_replicate|].
    reflexivity.
Qed.

(** ** The edges the constructor derives *)

Lemma keep_ordered_loop (es : list (Z * Z)) :
  forall acc,
    foldl (fun acc e => if snd e >? fst e then acc ++ [e] else acc) acc es
    = acc ++ filter (fun e => fst e < snd e) es.
Proof.
  induction es as [|e es IH]; intros acc; cbn [foldl].
  - by rewrite app_nil_r.
  - rewrite IH, filter_cons. destruct (Z.gtb_spec (snd e) (fst e)).
    + rewrite decide_True by lia. by rewrite <- app_assoc.
    + by rewrite decide_False by lia.
Qed.

Lemma edges_of_tile_inv (pts : list point) (acc acc' : list (Z * Z)) (v : list Z) :
  edges_of_tile pts acc v = Ok acc' ->
  exists sv es,
    sort_clockwise pts v = Ok sv /\ get_edges_of_tile sv = Ok es /\
    acc' = acc ++ filter (fun e => fst e < snd e) es.
Proof.
  unfold edges_of_tile.
  destruct (sort_clockwise pts v) as [sv|] eqn:Hsv; [|discriminate].
  cbn [res_bind].
  destruct (get_edges_of_tile sv) as [es|] eqn:Hes; [|discriminate].
  cbn [res_bind]. intros [= <-]. exists sv, es.
  split; [done|]. split; [done|]. by rewrite keep_ordered_loop.
Qed.

Lemma derive_edges_walked (pts : list point) (tv : list (list Z)) :
  forall acc acc',
    res_foldl (edges_of_tile pts) acc tv = Ok acc' ->
    forall e, e ∈ acc' <->
      e ∈ acc \/
      (fst e < snd e /\
       exists v sv es, v ∈ tv /\ sort_clockwise pts v = Ok sv /\
                       get_edges_of_tile sv = Ok es /\ e ∈ es).
Proof.
  induction tv as [|v tv IH]; intros acc acc'.
  - intros [= <-] e. split; [by left|].
    intros [?|(_ & v & ? & ? & Hv & _)]; [done|]. by apply elem_of_nil in Hv.
  - intros H e. apply res_foldl_cons_inv in H as (acc1 & H1 & H2).
    apply edges_of_tile_inv in H1 as (sv & es & Hsv & Hes & ->).
    rewrite (IH _ _ H2 e), elem_of_app, list_elem_of_filter. split.
    + intros [[?|[Hlt Hin]]|(Hlt & v' & sv' & es' & Hv' & ? & ? & ?)].
      * by left.
      * right. split; [done|]. exists v, sv, es.
        split; [apply list_elem_of_here|done].
      * right. split; [done|]. exists v', sv', es'.
        split; [by apply list_elem_of_further|done].
    + intros [?|(Hlt & v' & sv' & es' & Hv' & Hsv' & Hes' & Hin)].
      * left; by left.
      * apply elem_of_cons in Hv' as [->|Hv'].
        -- left; right. split; [done|]. congruence.
        -- right. split; [done|]. by exists v', sv', es'.
Qed.

(** X15.  Without [vertices], the constructor stores an edge [(i, j)]
    exactly when [i < j] and some triangle, put in clockwise order, walks
    from [i] to [j].  A side that no triangle walks from its smaller to its
    larger index is stored in neither direction. *)
Theorem derived_edges_walked (pts : list point) (tv tn : list (list Z)) (T : Tiling) :
  Tiling_init pts (Triangulated tv tn) = Ok T ->
  (forall e, e ∈ edges T <->
     fst e < snd e /\
     exists v sv es, v ∈ tv /\ sort_clockwise pts v = Ok sv /\
                     get_edges_of_tile sv = Ok es /\ e ∈ es) /\
  (forall i j, i < j ->
     (forall v sv es, v ∈ tv -> sort_clockwise pts v = Ok sv ->
                      get_edges_of_tile sv = Ok es -> (i, j) ∉ es) ->
     ((i, j) ∉ edges T) /\ ((j, i) ∉ edges T)).
Proof.
  unfold Tiling_init. destruct pts as [|q pts]; [discriminate|].
  destruct (res_foldl _ [] tv) as [es|] eqn:Hes; [|discriminate].
  cbn [res_bind]. intros [= <-]. cbn [edges].
  pose proof (derive_edges_walked _ _ _ _ Hes) as Hw.
  assert (Hiff : forall e, e ∈ es <->
     fst e < snd e /\
     exists v sv es', v ∈ tv /\ sort_clockwise (q :: pts) v = Ok sv /\
                      get_edges_of_tile sv = Ok es' /\ e ∈ es').
  { intros e. rewrite (Hw e). split; [|by right].
    intros [Hnil|?]; [by apply elem_of_nil in Hnil|done]. }
  split; [done|]. intros i j Hij Hno. split.
  - intros Hin. apply Hiff in Hin as (_ & v & sv & es' & Hv & Hsv & Hg & Hin).
    by apply (Hno v sv es').
  - intros Hin. apply Hiff in Hin as (Hlt & _). cbn [fst snd] in Hlt. lia.
Qed.

(** ** plot_tiles: what is drawn *)

Lemma group_step_inv (T : Tiling) (tn tn' : list (list corner)) (v : list Z) :
  group_step T tn v = Ok tn' ->
  length tn' = length tn /\
  forall n, tn' !! n = (fun row => row ++ piece T n v) <$> tn !! n.
Proof.
  unfold group_step, piece.
  destruct (Nat.ltb_spec 0 (length v)) as [Hpos|Hzero].
  - destruct (py_get tn _) as [row|] eqn:Hrow; [|discriminate].
    cbn [res_bind].
    destruct (res_map _ v) as [p|] eqn:Hp; [|discriminate]. cbn [res_bind].
    intros Hset. apply py_get_of_nat_inv in Hrow.
    apply py_set_Ok in Hset as (k & Hk & ->).
    apply py_norm_of_nat_inv in Hk as ->.
    split; [apply length_insert|]. intros n.
    destruct (decide (n = length v)) as [->|Hn].
    + rewrite list_lookup_insert_eq by (by eapply lookup_lt_Some).
      rewrite Hrow, decide_True by done. done.
    + rewrite list_lookup_insert_ne by done.
      rewrite decide_False by (intros [_ ?]; congruence).
      destruct (tn !! n); cbn; by rewrite ?app_nil_r.
  - intros [= <-]. split; [done|]. intros n.
    rewrite decide_False by lia.
    destruct (tn !! n); cbn; by rewrite ?app_nil_r.
Qed.

Lemma group_loop_inv (T : Tiling) (vs : list (list Z)) :
  forall tn tn',
    res_foldl (group_step T) tn vs = Ok tn' ->
    length tn' = length tn /\
    forall n, tn' !! n = (fun row => row ++ flat_map (piece T n) vs) <$> tn !! n.
Proof.
  induction vs as [|v vs IH]; intros tn tn'.
  - intros [= <-]. split; [done|]. intros n. cbn.
    destruct (tn !! n); cbn; by rewrite ?app_nil_r.
  - intros H. apply res_foldl_cons_inv in H as (tn1 & H1 & H2).
    apply group_step_inv in H1 as [Hlen1 Hr1].
    apply IH in H2 as [Hlen2 Hr2].
    split; [congruence|]. intros n. rewrite Hr2, Hr1.
    destruct (tn !! n); cbn; [|done]. by rewrite <- app_assoc.
Qed.

Lemma fill_loop_inv (N : nat) (tn : list (list corner)) (nv : list Z) :
  forall calls calls',
    res_foldl (fill_step N tn) calls nv = Ok calls' ->
    calls' = calls ++
      omap (fun n => if n >? Z.of_nat N then None
                     else k ← py_norm (length tn) n; unzip_row <$> tn !! k) nv.
Proof.
  induction nv as [|n nv IH]; intros calls calls'.
  - intros [= <-]. cbn. by rewrite app_nil_r.
  - intros H. apply res_foldl_cons_inv in H as (c1 & H1 & H2).
    apply IH in H2 as ->. unfold fill_step in H1.
    change (omap ?f (n :: nv)) with
      (match f n with Some y => y :: omap f nv | None => omap f nv end).
    cbn beta.
    destruct (n >? Z.of_nat N); [by injection H1 as <-|].
    destruct (py_get tn n) as [row|] eqn:Hrow; [|discriminate].
    cbn [res_bind] in H1. injection H1 as <-.
    apply py_get_Ok in Hrow as (k & Hk & Hrow).
    rewrite Hk. cbn. rewrite Hrow. cbn. by rewrite <- app_assoc.
Qed.

Lemma plot_tiles_inv (T : Tiling) (nv : option (list Z)) (calls : list fill_call) :
  plot_tiles T nv = Ok calls ->
  exists N,
    py_max (map length (vertices T)) = Ok N /\
    calls = omap (fun n => if n >? Z.of_nat N then None
                           else k ← py_norm (N + 1) n;
                                Some (unzip_row (outline T k)))
              (match nv with None => range N | Some l => l end).
Proof.
  unfold plot_tiles.
  destruct (py_max _) as [N|]; [|discriminate]. cbn [res_bind].
  destruct (res_foldl (group_step T) _ _) as [tn|] eqn:Htn; [|discriminate].
  cbn [res_bind]. intros H. exists N. split; [done|].
  apply fill_loop_inv in H as ->. cbn [app].
  apply group_loop_inv in Htn as [Hlen Hrows].
  rewrite length_replicate in Hlen. rewrite Hlen.
  apply list_omap_ext, Forall_Forall2_diag, Forall_forall. intros n _.
  destruct (n >? Z.of_nat N); [done|].
  destruct (py_norm (N + 1) n) as [k|] eqn:Hk; [|done]. cbn.
  rewrite Hrows, lookup_replicate_2 by (by eapply py_norm_lt). done.
Qed.

Lemma omap_range (N : nat) (f : nat -> fill_call) (n : nat) :
  forall a, (a + n <= N)%nat ->
    omap (fun z => if z >? Z.of_nat N then None
                   else k ← py_norm (N + 1) z; Some (f k))
      (map Z.of_nat (seq a n))
    = map f (seq a n).
Proof.
  induction n as [|n IH]; intros a Ha; [done|].
  cbn [seq map].
  change (omap ?g (?z :: ?l)) with
    (match g z with Some y => y :: omap g l | None => omap g l end).
  cbn beta.
  destruct (Z.gtb_spec (Z.of_nat a) (Z.of_nat N)); [lia|].
  rewrite py_norm_of_nat by lia. cbn. by rewrite IH by lia.
Qed.

(** X16.  [plot_tiles] calls [ax.fill] once for every entry [n] of
    [nvertices] that is not larger than the largest number [N] of vertices
    of a tile, in order, with the outlines of all tiles that have [n]
    vertices ([N + 1 + n] for a negative [n]).  Without [nvertices] these
    are the calls for [0, ..., N - 1]: the tiles with [N] vertices are not
    drawn. *)
Theorem plot_tiles_draws (T : Tiling) (nv : option (list Z))
    (calls : list fill_call) :
  plot_tiles T nv = Ok calls ->
  exists N,
    py_max (map length (vertices T)) = Ok N /\
    match nv with
    | Some l =>
        calls = omap (fun n => if n >? Z.of_nat N then None
                               else k ← py_norm (N + 1) n;
                                    Some (unzip_row (outline T k))) l
    | None => calls = map (fun n => unzip_row (outline T n)) (seq 0 N)
    end.
Proof.
  intros H. apply plot_tiles_inv in H as (N & HN & ->).
  exists N. split; [done|]. destruct nv as [l|]; [done|].
  unfold range. by apply omap_range.
Qed.

Lemma py_max_uniform (l : list nat) (M N : nat) :
  py_max l = Ok N -> Forall (fun x => x = M) l -> N = M.
Proof.
  destruct l as [|x l]; [discriminate|]. cbn. intros [= <-] H.
  apply Forall_cons in H as [-> H].
  induction H as [|y l -> _ IH]; [done|]. cbn. by rewrite Nat.max_id.
Qed.

Lemma outline_uniform (T : Tiling) (M n : nat) :
  Forall (fun v => length v = M) (vertices T) -> n <> M ->
  outline T n = [gap].
Proof.
  intros H Hn. unfold outline. f_equal.
  induction H as [|v vs Hv _ IH]; [done|]. cbn [flat_map].
  rewrite IH. unfold piece. by rewrite decide_False by lia.
Qed.


(** ** plot_tiles: when it returns *)

Lemma foldl_max_le (l : list nat) :
  forall x, (x <= foldl Nat.max x l)%nat /\
            Forall (fun y => (y <= foldl Nat.max x l)%nat) l.
Proof.
  induction l as [|y l IH]; intros x; cbn [foldl]; [by split|].
  destruct (IH (Nat.max x y)) as [H1 H2].
  split; [lia|]. constructor; [lia|done].
Qed.

Lemma py_max_bound (l : list nat) (N : nat) :
  py_max l = Ok N -> Forall (fun y => (y <= N)%nat) l.
Proof.
  destruct l as [|x l]; [discriminate|]. cbn. intros [= <-].
  destruct (foldl_max_le l x) as [H1 H2]. by constructor.
Qed.

Lemma group_step_success (T : Tiling) (tn : list (list corner)) (v : list Z) :
  (length v < length tn)%nat ->
  Forall (in_range (length (points T))) v ->
  exists tn', group_step T tn v = Ok tn' /\ length tn' = length tn.
Proof.
  intros Hlen Hv. unfold group_step.
  destruct (0 <? length v)%nat; [|by exists tn].
  destruct (lookup_lt_is_Some_2 tn (length v) Hlen) as [row Hrow].
  rewrite (py_get_of_nat _ _ _ Hrow). cbn [res_bind].
  destruct (res_map_success (py_get (points T)) v) as [p ->].
  { eapply Forall_impl; [exact Hv|]. intros i Hi. by apply py_get_returns_iff. }
  cbn [res_bind]. unfold py_set. rewrite py_norm_of_nat by done.
  eexists. split; [done|]. apply length_insert.
Qed.

Lemma group_loop_success (T : Tiling) (vs : list (list Z)) :
  forall tn,
    Forall (fun v => (length v < length tn)%nat) vs ->
    Forall (Forall (in_range (length (points T)))) vs ->
    exists tn', res_foldl (group_step T) tn vs = Ok tn' /\
                length tn' = length tn.
Proof.
  induction vs as [|v vs IH]; intros tn Hlen Hall; [by exists tn|].
  apply Forall_cons in Hlen as [Hv Hlen]. apply Forall_cons in Hall as [Hr Hall].
  destruct (group_step_success T tn v Hv Hr) as (tn1 & H1 & Hl1).
  destruct (IH tn1) as (tn' & H2 & Hl2); [by rewrite Hl1|done|].
  exists tn'. cbn [res_foldl]. rewrite H1. cbn [res_bind].
  split; [done|congruence].
Qed.

Lemma group_loop_Ok_each (T : Tiling) (vs : list (list Z)) :
  forall tn tn',
    res_foldl (group_step T) tn vs = Ok tn' ->
    Forall (Forall (in_range (length (points T)))) vs.
Proof.
  induction vs as [|v vs IH]; intros tn tn' H; [constructor|].
  apply res_foldl_cons_inv in H as (tn1 & H1 & H2).
  constructor; [|by eapply IH].
  unfold group_step in H1.
  destruct (Nat.ltb_spec 0 (length v)) as [Hpos|Hzero].
  - destruct (py_get tn _) as [row|]; [|discriminate]. cbn [res_bind] in H1.
    destruct (res_map _ v) as [p|] eqn:Hp; [|discriminate].
    apply res_map_Ok_each in Hp. eapply Forall_impl; [exact Hp|].
    intros i Hi. by apply py_get_returns_iff.
  - destruct v; [constructor|simpl in Hzero; lia].
Qed.

Lemma fill_loop_success (N : nat) (tn : list (list corner)) (n : nat) :
  forall a calls,
    (a + n <= length tn)%nat ->
    exists calls', res_foldl (fill_step N tn) calls (map Z.of_nat (seq a n))
                   = Ok calls'.
Proof.
  induction n as [|n IH]; intros a calls Ha; [by exists calls|].
  cbn [seq map res_foldl]. unfold fill_step at 1.
  destruct (Z.of_nat a >? Z.of_nat N); cbn [res_bind]; [apply IH; lia|].
  destruct (lookup_lt_is_Some_2 tn a) as [row Hrow]; [lia|].
  rewrite (py_get_of_nat _ _ _ Hrow). cbn [res_bind]. apply IH. lia.
Qed.

Lemma plot_tiles_default_returns (T : Tiling) :
  vertices T <> [] ->
  Forall (Forall (in_range (length (points T)))) (vertices T) ->
  exists calls, plot_tiles T None = Ok calls.
Proof.
  intros Hne Hall. unfold plot_tiles.
  destruct (py_max (map length (vertices T))) as [N|] eqn:HN.
  2:{ destruct (vertices T); [done|discriminate]. }
  cbn [res_bind].
  destruct (group_loop_success T (vertices T) (replicate (N + 1) [gap]))
    as (tn & -> & Hlen); [|done|].
  { apply py_max_bound in HN. rewrite length_replicate.
    apply Forall_fmap in HN. eapply Forall_impl; [exact HN|].
    cbn. intros v Hv. lia. }
  cbn [res_bind]. rewrite length_replicate in Hlen.
  apply fill_loop_success. lia.
Qed.

(** X17.  On a tiling whose tiles all have the same number [M] of
    vertices, such as a triangulation, [plot_tiles] without [nvertices]
    draws no tile: it returns after calling [ax.fill] [M] times, each time
    with the separator alone. *)
Theorem plot_tiles_default_uniform (T : Tiling) (M : nat) :
  vertices T <> [] ->
  Forall (fun v => length v = M) (vertices T) ->
  Forall (Forall (in_range (length (points T)))) (vertices T) ->
  plot_tiles T None = Ok (replicate M ([None], [None])).
Proof.
  intros Hne Hall Hr.
  destruct (plot_tiles_default_returns T Hne Hr) as [calls H].
  rewrite H. f_equal.
  apply plot_tiles_inv in H as (N & HN & ->).
  assert (N = M) as ->.
  { apply (py_max_uniform _ _ _ HN). by apply Forall_fmap. }
  unfold range. rewrite omap_range by lia.
  assert (Hgen : forall m b, (b + m <= M)%nat ->
             map (fun n => unzip_row (outline T n)) (seq b m)
             = replicate m ([None], [None])).
  { induction m as [|m IH]; intros b Hb; [done|].
    cbn [seq map replicate].
    rewrite (outline_uniform T M b Hall) by lia. by rewrite IH by lia. }
  by apply Hgen.
Qed.

(** X18.  Without [nvertices], [plot_tiles] returns exactly when the
    tiling has at least one tile and every vertex of every tile names a
    point.  On a tiling without tiles it raises [ValueError], whatever
    [nvertices] is. *)
Theorem plot_tiles_returns_iff (T : Tiling) :
  ((exists calls, plot_tiles T None = Ok calls) <->
   vertices T <> [] /\
   Forall (Forall (in_range (length (points T)))) (vertices T)) /\
  (vertices T = [] -> forall nv, plot_tiles T nv = Raise ValueError).
Proof.
  split; [split|].
  - intros [calls H]. unfold plot_tiles in H.
    destruct (py_max _) as [N|] eqn:HN; [|discriminate]. cbn [res_bind] in H.
    split.
    { intros Hnil. by rewrite Hnil in HN. }
    destruct (res_foldl (group_step T) _ _) as [tn|] eqn:Htn; [|discriminate].
    by eapply group_loop_Ok_each.
  - intros [Hne Hall]. by apply plot_tiles_default_returns.
  - intros Hnil nv. unfold plot_tiles. by rewrite Hnil.
Qed.

(** ** The properties on the example tilings *)

Lemma half_open_star_constructed :
  Tiling_init star_points
    (Given star_tiles (neighbors half_open_star) star_edges)
  = Ok half_open_star.
Proof. vm_compute. reflexivity. Qed.

Lemma square_triangulated_constructed :
  Tiling_init square_points (Triangulated [[0; 1; 2]; [0; 2; 3]] [])
  = Ok square_triangulated.
Proof. vm_compute. reflexivity. Qed.

Lemma bare_square_constructed :
  Tiling_init square_points (Given [] [] []) = Ok bare_square.
Proof. reflexivity. Qed.

Lemma flip_rewrites_triangles_witness :
  exists (p1 p2 e1 e2 : Z) (t1 t2 k : nat) (u1 u2 v1 v2 : list Z),
    py_get (edges star) 2 = Ok (p1, p2) /\
    triangles_with_edge star p1 p2 = [t1; t2] /\
    vertices star !! t1 = Some u1 /\ other_vertex p1 p2 u1 = Some e1 /\
    vertices star !! t2 = Some u2 /\ other_vertex p1 p2 u2 = Some e2 /\
    sort_clockwise (points star) [e1; e2; p1] = Ok v1 /\
    sort_clockwise (points star) [e1; e2; p2] = Ok v2 /\
    vertices star_flipped !! t1 = Some v1 /\
    vertices star_flipped !! t2 = Some v2 /\
    py_norm (length (edges star)) 2 = Some k /\
    edges star_flipped !! k = Some (e1, e2).
Proof.
  apply (flip_rewrites_triangles star star_flipped [] 2).
  - reflexivity.
  - vm_compute. reflexivity.
Defined.

Lemma flip_rewrites_neighbors_witness :
  exists (p1 p2 A B C D : Z) (t1 t2 d b : nat) (n1 n2 nd nb : list Z),
    py_get (edges star) 2 = Ok (p1, p2) /\
    triangles_with_edge star p1 p2 = [t1; t2] /\
    neighbors star !! t1 = Some n1 /\ A ∈ n1 /\ D ∈ n1 /\
    neighbors star !! t2 = Some n2 /\ B ∈ n2 /\ C ∈ n2 /\
    py_norm (length (neighbors star)) D = Some d /\
    py_norm (length (neighbors star)) B = Some b /\
    neighbors star !! d = Some nd /\
    neighbors star !! b = Some nb /\
    d <> t1 /\ d <> t2 /\ b <> t1 /\ b <> t2 /\
    neighbors star_flipped !! t1 = Some [Z.of_nat t2; A; B] /\
    neighbors star_flipped !! t2 = Some [Z.of_nat t1; C; D] /\
    (d <> b ->
     neighbors star_flipped !! d
     = Some (map (fun n => if n =? Z.of_nat t1 then Z.of_nat t2 else n) nd) /\
     neighbors star_flipped !! b
     = Some (map (fun n => if n =? Z.of_nat t2 then Z.of_nat t1 else n) nb)) /\
    (forall j, j <> t1 -> j <> t2 -> j <> d -> j <> b ->
               neighbors star_flipped !! j = neighbors star !! j).
Proof.
  apply (flip_rewrites_neighbors star star_flipped [] 2).
  - reflexivity.
  - reflexivity.
  - apply (bool_decide_unpack _). vm_compute. exact I.
  - vm_compute. reflexivity.
Defined.

Lemma flip_unbound_local_witness :
  flip 2 (mkWorld half_open_star [])
  = (Raise UnboundLocalError,
     mkWorld
       (set_neighbors half_open_star
          (<[0%nat:=[1; 2; 5]]> (neighbors half_open_star))) []).
Proof.
  apply (flip_unbound_local half_open_star [] 2 0 2 0 1
           (Some 2) (Some 5) None (Some 3)).
  - reflexivity.
  - reflexivity.
  - reflexivity.
  - reflexivity.
  - reflexivity.
  - right. right. by left.
Defined.

Lemma dual_neighbors_witness :
  length (neighbors star_dual) = npoints star /\
  (forall p, (p < npoints star)%nat ->
     neighbors star_dual !! p
     = Some (flat_map (across (npoints star) p) (edges star))) /\
  (forall (p : nat) (dn : list Z) (x : Z),
     neighbors star_dual !! p = Some dn ->
     x ∈ dn <->
     exists i j, (i, j) ∈ edges star /\
       ((py_norm (npoints star) i = Some p /\ x = j) \/
        (py_norm (npoints star) j = Some p /\ x = i))).
Proof. apply (dual_neighbors star star_dual). vm_compute. reflexivity. Defined.

Lemma get_dual_well_formed_witness :
  well_formed star_dual /\
  ntiles star_dual = npoints star /\ npoints star_dual = ntiles star.
Proof.
  apply (get_dual_well_formed star star_dual). vm_compute. reflexivity.
Defined.

Lemma double_dual_witness :
  ((exists DD, get_dual star_dual = Ok DD) <-> all_points_used star) /\
  (forall DD, get_dual star_dual = Ok DD ->
              ntiles DD = ntiles star /\ npoints DD = npoints star).
Proof.
  apply (double_dual star star_dual).
  - vm_compute. reflexivity.
  - cbn. lia.
Defined.

Lemma get_dual_no_tiles_witness :
  (forall D, get_dual bare_square <> Ok D) /\
  (Forall (fun e => 0 <= fst e < Z.of_nat (npoints bare_square) /\
                    0 <= snd e < Z.of_nat (npoints bare_square))
     (edges bare_square) ->
   get_dual bare_square = Raise AssertionError).
Proof. apply (get_dual_no_tiles bare_square). reflexivity. Defined.

Lemma derived_edges_walked_witness :
  (forall e, e ∈ edges square_triangulated <->
     fst e < snd e /\
     exists v sv es, v ∈ [[0; 1; 2]; [0; 2; 3]] /\
                     sort_clockwise square_points v = Ok sv /\
                     get_edges_of_tile sv = Ok es /\ e ∈ es) /\
  (forall i j, i < j ->
     (forall v sv es, v ∈ [[0; 1; 2]; [0; 2; 3]] ->
                      sort_clockwise square_points v = Ok sv ->
                      get_edges_of_tile sv = Ok es -> (i, j) ∉ es) ->
     ((i, j) ∉ edges square_triangulated) /\
     ((j, i) ∉ edges square_triangulated)).
Proof.
  apply (derived_edges_walked square_points [[0; 1; 2]; [0; 2; 3]] []).
  vm_compute. reflexivity.
Defined.

Lemma plot_tiles_draws_witness :
  exists N,
    py_max (map length (vertices star)) = Ok N /\
    star_outlines
    = omap (fun n => if n >? Z.of_nat N then None
                     else k ← py_norm (N + 1) n;
                          Some (unzip_row (outline star k))) [3].
Proof.
  apply (plot_tiles_draws star (Some [3]) star_outlines).
  vm_compute. reflexivity.
Defined.

Lemma plot_tiles_default_uniform_witness :
  plot_tiles star None = Ok (replicate 3 ([None], [None])).
Proof.
  apply (plot_tiles_default_uniform star 3).
  - done.
  - repeat constructor.
  - apply (bool_decide_unpack _). vm_compute. exact I.
Defined.

(** ** Flipping twice *)

Lemma filter_seq_ascending (P : nat -> Prop) `{!forall x, Decision (P x)} (n : nat) :
  forall a x y l, filter P (seq a n) = x :: y :: l -> (x < y)%nat.
Proof.
  induction n as [|n IH]; intros a x y l; [done|].
  cbn [seq]. rewrite filter_cons. destruct (decide (P a)).
  - intros [= <- Hy].
    assert (Hin : y ∈ filter P (seq (S a) n))
      by (rewrite Hy; apply list_elem_of_here).
    apply list_elem_of_filter in Hin as [_ Hin].
    apply elem_of_seq in Hin. lia.
  - apply IH.
Qed.

Lemma has_edge_perm (p1 p2 : Z) (v w : list Z) :
  v ≡ₚ w -> has_edge p1 p2 v = has_edge p1 p2 w.
Proof. intros H. unfold has_edge. by rewrite H. Qed.

Lemma other_vertex_not_endpoint (p1 p2 e : Z) (v : list Z) :
  other_vertex p1 p2 v = Some e -> e ∈ v /\ e <> p1 /\ e <> p2.
Proof.
  unfold other_vertex.
  destruct (filter (fun x => ~ (x = p1 \/ x = p2)) v) as [|x l] eqn:Hf;
    [discriminate|].
  intros [= ->].
  assert (Hin : e ∈ filter (fun x => ~ (x = p1 \/ x = p2)) v)
    by (rewrite Hf; apply list_elem_of_here).
  apply list_elem_of_filter in Hin as [Hne Hin]. tauto.
Qed.

(** The tile that a flip writes passes the test for the new edge, and its
    first vertex off the new edge is the endpoint of the old edge. *)
Lemma flipped_tile (e1 e2 p : Z) (v : list Z) :
  v ≡ₚ [e1; e2; p] -> p <> e1 -> p <> e2 ->
  has_edge e1 e2 v = true /\ other_vertex e1 e2 v = Some p.
Proof.
  intros Hv H1 H2. split.
  - rewrite (has_edge_perm _ _ _ _ Hv). unfold has_edge. cbn [length].
    rewrite !filter_cons, filter_nil.
    rewrite decide_True by (by left). rewrite decide_True by (by right).
    rewrite decide_False by (intros [?|?]; done). done.
  - unfold other_vertex.
    assert (Hf : filter (fun x => ~ (x = e1 \/ x = e2)) v ≡ₚ [p]).
    { rewrite Hv, !filter_cons, filter_nil.
      rewrite decide_False by (intros Hn; apply Hn; by left).
      rewrite decide_False by (intros Hn; apply Hn; by right).
      rewrite decide_True by (intros [?|?]; done). done. }
    symmetry in Hf. apply Permutation_singleton_l in Hf. by rewrite <- Hf.
Qed.

(** A triangle without repeated vertices that passes the test holds the two
    endpoints and its third vertex, nothing else. *)
Lemma triangle_of_edge (p1 p2 e : Z) (u : list Z) :
  NoDup u -> has_edge p1 p2 u = true -> other_vertex p1 p2 u = Some e ->
  [p1; p2; e] ≡ₚ u.
Proof.
  intros Hnd Hh He.
  destruct (has_edge_NoDup p1 p2 u Hnd Hh) as [Hp1 Hp2].
  apply other_vertex_not_endpoint in He as (Hin & He1 & He2).
  assert (Hne : p1 <> p2).
  { intros ->. unfold has_edge in Hh.
    apply andb_true_iff in Hh as [_ Hc]. apply Nat.eqb_eq in Hc.
    assert (Hnd' : NoDup (filter (fun x => x = p2 \/ x = p2) u))
      by (by apply NoDup_filter).
    destruct (filter (fun x => x = p2 \/ x = p2) u) as [|a [|b [|c l]]] eqn:Hf;
      try discriminate.
    assert (Ha : a ∈ filter (fun x => x = p2 \/ x = p2) u)
      by (rewrite Hf; apply list_elem_of_here).
    assert (Hb : b ∈ filter (fun x => x = p2 \/ x = p2) u)
      by (rewrite Hf; apply list_elem_of_further, list_elem_of_here).
    apply list_elem_of_filter in Ha as [Ha _], Hb as [Hb _].
    apply NoDup_cons in Hnd' as [Hab _]. apply Hab.
    assert (a = b) as -> by (destruct Ha, Hb; congruence).
    apply list_elem_of_here. }
  apply submseteq_length_Permutation.
  - apply NoDup_submseteq.
    + rewrite !NoDup_cons, !not_elem_of_cons, elem_of_nil.
      repeat split; try apply NoDup_nil_2; try done; try (by intros ->);
        try (by intros []); apply not_elem_of_nil.
    + intros x Hx. repeat apply elem_of_cons in Hx as [->|Hx]; try done.
      by apply elem_of_nil in Hx.
  - unfold has_edge in Hh. apply andb_true_iff in Hh as [Hl _].
    apply Nat.eqb_eq in Hl. rewrite Hl. done.
Qed.

(** The tables that a flip leaves when it returns without printing. *)
Lemma flip_tables (T T' : Tiling) (out : list string) (edge : Z) :
  ntiles T = length (vertices T) ->
  flip edge (mkWorld T out) = (Ok tt, mkWorld T' out) ->
  exists (p1 p2 e1 e2 : Z) (t1 t2 k : nat) (u1 u2 v1 v2 : list Z),
    py_norm (length (edges T)) edge = Some k /\
    edges T !! k = Some (p1, p2) /\
    triangles_with_edge T p1 p2 = [t1; t2] /\
    vertices T !! t1 = Some u1 /\ other_vertex p1 p2 u1 = Some e1 /\
    vertices T !! t2 = Some u2 /\ other_vertex p1 p2 u2 = Some e2 /\
    v1 ≡ₚ [e1; e2; p1] /\ v2 ≡ₚ [e1; e2; p2] /\
    vertices T' = <[t2:=v2]> (<[t1:=v1]> (vertices T)) /\
    edges T' = <[k:=(e1, e2)]> (edges T) /\
    points T' = points T /\ ntiles T' = ntiles T.
Proof.
  intros Hn Hflip.
  destruct (flip_steps T T' out edge Hn Hflip)
    as (p1 & p2 & t1 & t2 & e1 & e2 & A & B & C & D &
        T1 & T2 & T3 & T4 & T5 & T6 &
        He & Htiles & Hthirds & _ & _ & H1 & H2 & H3 & H4 & H5 & H6 & H7).
  destruct (third_vertices_two _ _ _ _ _ _ _ Htiles Hthirds)
    as (u1 & u2 & Hu1 & Ho1 & Hu2 & Ho2).
  apply assign_neighbors_frame in H1 as (P1 & V1 & E1 & N1 & _).
  apply assign_neighbors_frame in H2 as (P2 & V2 & E2 & N2 & _).
  apply patch_neighbors_frame in H3 as (P3 & V3 & E3 & N3 & _).
  apply patch_neighbors_frame in H4 as (P4 & V4 & E4 & N4 & _).
  apply assign_sorted_vertices_frame in H5
    as (P5 & E5 & N5 & _ & _ & v1 & Hv1 & V5).
  apply assign_sorted_vertices_frame in H6
    as (P6 & E6 & N6 & _ & _ & v2 & Hv2 & V6).
  apply assign_edge_frame in H7 as (P7 & V7 & N7 & _ & _ & k & Hk & E7).
  apply py_get_Ok in He as (k' & Hk' & He).
  assert (HE : edges T6 = edges T) by congruence.
  rewrite HE in Hk, E7.
  assert (k' = k) as -> by congruence.
  exists p1, p2, e1, e2, t1, t2, k, u1, u2, v1, v2.
  repeat (split; [done|]). split; [congruence|]. split; [done|].
  split; congruence.
Qed.

(** X20.  Flipping the same edge twice: in a tiling whose tiles name no
    vertex twice, when [flip] returns without printing and a second [flip]
    of the same edge does so too, the edge table is the original one again,
    every tile holds the vertices it held, the two triangles of the edge
    possibly in another order and all other tiles unchanged, and points and
    counts are the original ones. *)
Theorem flip_twice (T T' T'' : Tiling) (out out' : list string) (edge : Z) :
  ntiles T = length (vertices T) ->
  Forall NoDup (vertices T) ->
  flip edge (mkWorld T out) = (Ok tt, mkWorld T' out) ->
  flip edge (mkWorld T' out') = (Ok tt, mkWorld T'' out') ->
  edges T'' = edges T /\
  points T'' = points T /\
  ntiles T'' = ntiles T /\
  Forall2 (fun v'' v => v'' ≡ₚ v) (vertices T'') (vertices T) /\
  exists (p1 p2 : Z) (t1 t2 : nat),
    py_get (edges T) edge = Ok (p1, p2) /\
    triangles_with_edge T p1 p2 = [t1; t2] /\
    forall t, t <> t1 -> t <> t2 -> vertices T'' !! t = vertices T !! t.
Proof.
  intros Hn Hnd Hf1 Hf2.
  destruct (flip_tables T T' out edge Hn Hf1)
    as (p1 & p2 & e1 & e2 & t1 & t2 & k & u1 & u2 & v1 & v2 &
        Hk & Hek & Htiles & Hu1 & Ho1 & Hu2 & Ho2 & Hv1 & Hv2 &
        HV & HE & HP & HN).
  destruct (triangles_with_edge_two _ _ _ _ _ Htiles)
    as (Hne & u1' & u2' & Hu1' & Hu2' & Hh1 & Hh2).
  assert (u1' = u1) as -> by congruence.
  assert (u2' = u2) as -> by congruence.
  assert (Hlt : (t1 < t2)%nat).
  { unfold triangles_with_edge in Htiles.
    by apply filter_seq_ascending in Htiles. }
  pose proof (lookup_lt_Some _ _ _ Hu1) as Hl1.
  pose proof (lookup_lt_Some _ _ _ Hu2) as Hl2.
  pose proof (other_vertex_not_endpoint _ _ _ _ Ho1) as (_ & He11 & He12).
  pose proof (other_vertex_not_endpoint _ _ _ _ Ho2) as (_ & He21 & He22).
  destruct (flipped_tile e1 e2 p1 v1 Hv1) as [Hh1' Ho1']; [done|done|].
  destruct (flipped_tile e1 e2 p2 v2 Hv2) as [Hh2' Ho2']; [done|done|].
  assert (Hlen' : length (vertices T') = length (vertices T))
    by (by rewrite HV, !length_insert).
  assert (Hn' : ntiles T' = length (vertices T')) by congruence.
  assert (Hv1' : vertices T' !! t1 = Some v1).
  { rewrite HV, list_lookup_insert_ne by done.
    by apply list_lookup_insert_eq. }
  assert (Hv2' : vertices T' !! t2 = Some v2).
  { rewrite HV. apply list_lookup_insert_eq. by rewrite length_insert. }
  destruct (flip_tables T' T'' out' edge Hn' Hf2)
    as (q1 & q2 & f1 & f2 & s1 & s2 & k' & w1 & w2 & x1 & x2 &
        Hk' & Hek' & Htiles' & Hw1 & Hq1 & Hw2 & Hq2 & Hx1 & Hx2 &
        HV' & HE' & HP' & HN').
  rewrite HE, length_insert in Hk'.
  assert (k' = k) as -> by congruence.
  rewrite HE, list_lookup_insert_eq in Hek' by (by eapply lookup_lt_Some).
  injection Hek' as <- <-.
  assert (Hin : forall t v, vertices T' !! t = Some v ->
                  has_edge e1 e2 v = true ->
                  t ∈ triangles_with_edge T' e1 e2).
  { intros t v Ht Hh. unfold triangles_with_edge.
    apply list_elem_of_filter. split.
    - unfold tile_has_edge. rewrite Ht, Hh. done.
    - apply elem_of_seq. apply lookup_lt_Some in Ht. lia. }
  pose proof (Hin t1 v1 Hv1' Hh1') as Hin1.
  pose proof (Hin t2 v2 Hv2' Hh2') as Hin2.
  assert (Hlt' : (s1 < s2)%nat).
  { unfold triangles_with_edge in Htiles'.
    by apply filter_seq_ascending in Htiles'. }
  rewrite Htiles' in Hin1, Hin2.
  assert (s1 = t1 /\ s2 = t2) as [-> ->].
  { apply elem_of_cons in Hin1 as [->|Hin1], Hin2 as [->|Hin2];
      rewrite ?list_elem_of_singleton in *; subst; lia. }
  assert (w1 = v1) as -> by congruence.
  assert (w2 = v2) as -> by congruence.
  assert (f1 = p1) as -> by congruence.
  assert (f2 = p2) as -> by congruence.
  assert (Hr1 : x1 ≡ₚ u1).
  { rewrite Hx1. apply triangle_of_edge; try done.
    exact (Forall_lookup_1 _ _ _ _ Hnd Hu1). }
  assert (Hr2 : x2 ≡ₚ u2).
  { rewrite Hx2. apply triangle_of_edge; try done.
    exact (Forall_lookup_1 _ _ _ _ Hnd Hu2). }
  assert (HVV : vertices T'' = <[t2:=x2]> (<[t1:=x1]> (vertices T))).
  { rewrite HV', HV.
    rewrite (list_insert_insert_ne _ t1 t2) by done.
    by rewrite !list_insert_insert_eq. }
  split.
  { rewrite HE', HE, list_insert_insert_eq. by apply list_insert_id. }
  split; [congruence|]. split; [congruence|]. split.
  - rewrite HVV. apply Forall2_same_length_lookup. split.
    + by rewrite !length_insert.
    + intros t a b Ha Hb.
      destruct (decide (t = t2)) as [->|Ht2].
      * rewrite list_lookup_insert_eq in Ha by (by rewrite length_insert).
        injection Ha as <-. congruence.
      * rewrite list_lookup_insert_ne in Ha by done.
        destruct (decide (t = t1)) as [->|Ht1].
        -- rewrite list_lookup_insert_eq in Ha by done.
           injection Ha as <-. congruence.
        -- rewrite list_lookup_insert_ne in Ha by done.
           assert (a = b) as -> by congruence. done.
  - exists p1, p2, t1, t2. split.
    { unfold py_get. by rewrite Hk, Hek. }
    split; [done|].
    intros t Ht1 Ht2. rewrite HVV.
    by rewrite !list_lookup_insert_ne by done.
Qed.

Lemma star_flip_back : flip 2 (mkWorld star_flipped []) = (Ok tt, mkWorld star []).
Proof. vm_compute. reflexivity. Qed.

Lemma flip_twice_witness :
  edges star = edges star /\
  points star = points star /\
  ntiles star = ntiles star /\
  Forall2 (fun v'' v => v'' ≡ₚ v) (vertices star) (vertices star) /\
  exists (p1 p2 : Z) (t1 t2 : nat),
    py_get (edges star) 2 = Ok (p1, p2) /\
    triangles_with_edge star p1 p2 = [t1; t2] /\
    forall t, t <> t1 -> t <> t2 -> vertices star !! t = vertices star !! t.
Proof.
  apply (flip_twice star star_flipped star [] [] 2).
  - reflexivity.
  - apply (bool_decide_unpack _). vm_compute. exact I.
  - vm_compute. reflexivity.
  - vm_compute. reflexivity.
Defined.

(** ** The exceptions of a flip *)


















(** An edge index past 64 bits: the exception is raised by the first read,
    and the receiver is as it was. *)
Lemma flip_overflow :
  flip (2 ^ 63) (mkWorld star []) = (Raise OverflowError, mkWorld star []) /\
  flip (- 2 ^ 63 - 1) (mkWorld star []) = (Raise OverflowError, mkWorld star []) /\
  flip (- 2 ^ 63) (mkWorld star []) = (Raise IndexError, mkWorld star []).
Proof. repeat split; vm_compute; reflexivity. Qed.
